(** * IRSB watchtower: evidence verification and signal derivation

    A shallow embedding of the behaviour lens of [watchtower-core]
    ([verifyEvidence.ts], [deriveBehaviorSignals.ts], [ingestReceipt.ts],
    [solverReceiptV0.ts]) together with the properties the specification
    states about it, followed by the retry and circuit-breaker wrappers of
    the [resilience] package and further properties of both.

    JavaScript strings are modelled as [string]; numbers that hold sizes and
    timestamps as [Z]; JSON numbers as [Q].  The file system, the hash
    function, [JSON.parse] and the locale collation are the environment the
    code runs in and are passed explicitly. *)

From Stdlib Require Import Bool Arith ZArith QArith Lia List Ascii String.
From Stdlib Require Import Sorted Permutation DecimalString DecimalZ DecimalPos OrderedTypeEx.
Import ListNotations.

Local Open Scope string_scope.
Local Open Scope Z_scope.
Local Open Scope list_scope.

Set Implicit Arguments.

(* ------------------------------------------------------------------ *)
(** * The program

    The embedding follows the sources function by function.  Helpers that
    the sources import from [utils/] and that are not among them
    ([canonicalJson], [sortEvidence], [sortSignals]) are modelled from the
    specification and marked as such; [sha256Hex] is a parameter. *)

(* ------------------------------------------------------------------ *)
(** ** JavaScript string primitives *)

Module JsString.

Notation "a +++ b" := (String.append a b)
  (at level 60, right associativity) : string_scope.

Definition str1 (c : ascii) : string := String c EmptyString.

Definition slash : ascii := ascii_of_nat 47.
Definition backslash : ascii := ascii_of_nat 92.
Definition dquote : ascii := ascii_of_nat 34.
Definition nul : ascii := ascii_of_nat 0.

Definition isEmpty (s : string) : bool :=
  match s with EmptyString => true | _ => false end.

(** [s.startsWith(p)] *)
Fixpoint startsWith (p s : string) : bool :=
  match p, s with
  | EmptyString, _ => true
  | String a p', String b s' => Ascii.eqb a b && startsWith p' s'
  | String _ _, EmptyString => false
  end.

(** [s.endsWith(p)] through the reversed strings. *)
Fixpoint rev (s : string) : string :=
  match s with
  | EmptyString => EmptyString
  | String c s' => rev s' +++ str1 c
  end.

Definition endsWith (p s : string) : bool := startsWith (rev p) (rev s).

(** [s.includes(p)] *)
Fixpoint includes (p s : string) : bool :=
  startsWith p s ||
  match s with
  | EmptyString => false
  | String _ s' => includes p s'
  end.

(** [s.split(sep)] for a one-character separator; never returns [[]]. *)
Fixpoint split (sep : ascii) (s : string) : list string :=
  match s with
  | EmptyString => [EmptyString]
  | String c s' =>
      if Ascii.eqb c sep then EmptyString :: split sep s'
      else match split sep s' with
           | [] => [str1 c]
           | w :: ws => String c w :: ws
           end
  end.

(** [xs.join(sep)] *)
Fixpoint join (sep : string) (xs : list string) : string :=
  match xs with
  | [] => EmptyString
  | [x] => x
  | x :: rest => x +++ sep +++ join sep rest
  end.

(** [String(n)] for an integer [n]. *)
Definition ofZ (n : Z) : string := NilZero.string_of_int (Z.to_int n).

End JsString.
Import JsString.

(* ------------------------------------------------------------------ *)
(** ** [node:path] (POSIX flavour)

    [isAbsolute], [normalize] and [resolve] belong to the Node runtime.  The
    model below follows its POSIX implementation segment by segment: empty
    and [.] segments are dropped, a [..] segment removes the preceding
    ordinary segment and is kept only when there is none and the path is
    relative. *)

Module NodePath.

Definition isAbsolute (path : string) : bool :=
  match path with
  | String c _ => Ascii.eqb c slash
  | EmptyString => false
  end.

Definition dotdot : string := "..".

(** One step of [normalizeString]: [stack] holds the segments kept so
    far, innermost first. *)
Definition normalizeStep (allowAboveRoot : bool)
           (stack : list string) (seg : string) : list string :=
  if String.eqb seg EmptyString || String.eqb seg "." then stack
  else if String.eqb seg dotdot then
    match stack with
    | top :: below =>
        if String.eqb top dotdot
        then (if allowAboveRoot then dotdot :: stack else stack)
        else below
    | [] => if allowAboveRoot then [dotdot] else []
    end
  else seg :: stack.

Definition normalizeSegments (allowAboveRoot : bool)
           (segs : list string) : list string :=
  List.rev (fold_left (normalizeStep allowAboveRoot) segs []).

Definition normalizeString (path : string) (allowAboveRoot : bool) : string :=
  join "/" (normalizeSegments allowAboveRoot (split slash path)).

Definition hasTrailingSlash (path : string) : bool := endsWith "/" path.

(** [path.normalize(p)] *)
Definition normalize (path : string) : string :=
  if isEmpty path then "."
  else
    let abs := isAbsolute path in
    let trailingSeparator := hasTrailingSlash path in
    let p := normalizeString path (negb abs) in
    if isEmpty p then
      (if abs then "/" else if trailingSeparator then "./" else ".")
    else
      let p := if trailingSeparator then p +++ "/" else p in
      if abs then "/" +++ p else p.

(** The right-to-left scan of [path.resolve]: prepend arguments until an
    absolute one has been seen. *)
Fixpoint resolveScan (revArgs : list string) (acc : string) : string * bool :=
  match revArgs with
  | [] => (acc, false)
  | p :: rest =>
      if isEmpty p then resolveScan rest acc
      else
        let acc' := p +++ "/" +++ acc in
        if isAbsolute p then (acc', true) else resolveScan rest acc'
  end.

(** [path.resolve(...args)], in a process whose working directory is
    [cwd]. *)
Definition resolve (cwd : string) (args : list string) : string :=
  let '(resolvedPath, resolvedAbsolute) :=
    resolveScan (List.rev args ++ [cwd]) EmptyString in
  let r := normalizeString resolvedPath (negb resolvedAbsolute) in
  if resolvedAbsolute then "/" +++ r
  else if isEmpty r then "." else r.

Fixpoint dropWhile (p : ascii -> bool) (l : list ascii) : list ascii :=
  match l with
  | [] => []
  | c :: rest => if p c then dropWhile p rest else l
  end.

Definition isSlash (c : ascii) : bool := Ascii.eqb c slash.

(** [path.dirname(p)]: trailing slashes are ignored, the last segment is
    dropped, and the first character is never taken for a separator. *)
Definition dirname (path : string) : string :=
  match path with
  | EmptyString => "."
  | String first rest =>
      let hasRoot := isSlash first in
      let scanned :=
        dropWhile (fun c => negb (isSlash c))
                  (dropWhile isSlash (List.rev (list_ascii_of_string rest))) in
      match scanned with
      | [] => if hasRoot then "/" else "."
      | _ :: before =>
          match before with
          | [] => if hasRoot then "//" else str1 first
          | _ => String first (string_of_list_ascii (List.rev before))
          end
      end
  end.

End NodePath.

(* ------------------------------------------------------------------ *)
(** ** Path safety ([verifyEvidence.ts], lines 46-70) *)

Record PathCheck := { valid : bool; reason : option string }.

Definition validateRelativePath (path : string) : PathCheck :=
  if isEmpty path then
    {| valid := false; reason := Some "Path is empty" |}
  else if NodePath.isAbsolute path then
    {| valid := false; reason := Some "Absolute paths not allowed" |}
  else
    let normalized := NodePath.normalize path in
    if startsWith ".." normalized
       || includes "/.." normalized
       || includes (str1 backslash +++ "..") normalized
    then {| valid := false; reason := Some "Path traversal not allowed" |}
    else if includes (str1 nul) path then
      {| valid := false; reason := Some "Null bytes not allowed in path" |}
    else {| valid := true; reason := None |}.

Section SafeJoin.

(** The working directory of the process, which [path.resolve] consults
    when [baseDir] is relative. *)
Variable cwd : string.

Definition safeJoin (baseDir relativePath : string) : option string :=
  let base := NodePath.resolve cwd [baseDir] in
  let joined := NodePath.resolve cwd [base; relativePath] in
  if negb (startsWith (base +++ "/") joined) && negb (String.eqb joined base)
  then None
  else Some joined.

End SafeJoin.

(* ------------------------------------------------------------------ *)
(** ** Collation and [Array.prototype.sort]

    [String.prototype.localeCompare] is provided by the JavaScript engine.
    Only its sign is used by the code; the engine guarantees a consistent
    comparison (a total preorder), which is what [Array.prototype.sort]
    requires of a comparator. *)

Class Collation := {
  localeCompare : string -> string -> comparison;
  localeCompare_refl : forall a, localeCompare a a = Eq;
  localeCompare_antisym :
    forall a b, localeCompare b a = CompOpp (localeCompare a b);
  localeCompare_trans :
    forall a b c, localeCompare a b <> Gt -> localeCompare b c <> Gt ->
                  localeCompare a c <> Gt
}.

Module JsArray.
Section Sort.

Variable A : Type.
(** The sign of [compareFn(a, b)]. *)
Variable compareFn : A -> A -> comparison.

Definition notAfter (a b : A) : bool :=
  match compareFn a b with Gt => false | _ => true end.

Fixpoint insert (x : A) (l : list A) : list A :=
  match l with
  | [] => [x]
  | y :: rest => if notAfter x y then x :: l else y :: insert x rest
  end.

(** [[...l].sort(compareFn)]: the stable sort, which for a consistent
    comparator is what every conforming engine returns. *)
Definition sort (l : list A) : list A := fold_right insert [] l.

End Sort.
End JsArray.

(* ------------------------------------------------------------------ *)
(** ** JSON values *)

#[local] Set Warnings "-register-all".

Inductive json : Type :=
| JNull
| JBool (b : bool)
| JNumber (q : Q)
| JString (s : string)
| JArray (items : list json)
| JObject (fields : list (string * json)).

(** [obj[key]]; [None] is [undefined]. *)
Fixpoint getField (key : string) (fields : list (string * json)) : option json :=
  match fields with
  | [] => None
  | (k, v) :: rest => if String.eqb k key then Some v else getField key rest
  end.

(** The name zod prints for the type of a value it did not expect. *)
Definition parsedType (v : json) : string :=
  match v with
  | JNull => "null"
  | JBool _ => "boolean"
  | JNumber _ => "number"
  | JString _ => "string"
  | JArray _ => "array"
  | JObject _ => "object"
  end.

(* ------------------------------------------------------------------ *)
(** ** The zod combinators used by [solverReceiptV0.ts]

    zod is a library; what follows is the behaviour of the few schema
    constructors the manifest schema is built from.  A schema is a function
    from the value found (or [None] for a missing key) to a
    [SafeParseResult]; issues of sibling fields accumulate. *)

Module Zod.

Record ZodIssue := { code : string; message : string }.

Inductive SafeParseResult (A : Type) : Type :=
| ParseSuccess (data : A)
| ParseFailure (issues : list ZodIssue).
Arguments ParseSuccess {A} data.
Arguments ParseFailure {A} issues.

Definition Schema (A : Type) : Type := option json -> SafeParseResult A.

Definition map {A B} (f : A -> B) (r : SafeParseResult A) : SafeParseResult B :=
  match r with
  | ParseSuccess a => ParseSuccess (f a)
  | ParseFailure i => ParseFailure i
  end.

Definition ap {A B} (rf : SafeParseResult (A -> B)) (ra : SafeParseResult A)
  : SafeParseResult B :=
  match rf, ra with
  | ParseSuccess f, ParseSuccess a => ParseSuccess (f a)
  | ParseSuccess _, ParseFailure j => ParseFailure j
  | ParseFailure i, ParseSuccess _ => ParseFailure i
  | ParseFailure i, ParseFailure j => ParseFailure (i ++ j)
  end.

Definition invalidType {A} (expected : string) (v : option json)
  : SafeParseResult A :=
  match v with
  | None => ParseFailure [{| code := "invalid_type"; message := "Required" |}]
  | Some other =>
      ParseFailure
        [{| code := "invalid_type";
            message := "Expected " +++ expected +++ ", received "
                       +++ parsedType other |}]
  end.

(** [z.string()] *)
Definition string_ : Schema string := fun v =>
  match v with
  | Some (JString s) => ParseSuccess s
  | _ => invalidType "string" v
  end.

(** [z.string().regex(re)] and [z.string().datetime()]: a string check. *)
Definition stringCheck (check : string -> bool) (what : string) : Schema string :=
  fun v =>
    match v with
    | Some (JString s) =>
        if check s then ParseSuccess s
        else ParseFailure [{| code := "invalid_string"; message := what |}]
    | _ => invalidType "string" v
    end.

(** [z.literal(lit)] for a string literal. *)
Definition literal (lit : string) : Schema string := fun v =>
  match v with
  | Some (JString s) =>
      if String.eqb s lit then ParseSuccess s
      else ParseFailure
             [{| code := "invalid_literal";
                 message := "Invalid literal value, expected "
                            +++ str1 dquote +++ lit +++ str1 dquote |}]
  | _ => ParseFailure
           [{| code := "invalid_literal";
               message := "Invalid literal value, expected "
                          +++ str1 dquote +++ lit +++ str1 dquote |}]
  end.

(** [z.enum(options)] *)
Definition enum (options : list string) : Schema string := fun v =>
  match v with
  | Some (JString s) =>
      if existsb (String.eqb s) options then ParseSuccess s
      else ParseFailure
             [{| code := "invalid_enum_value";
                 message := "Invalid enum value. Expected "
                            +++ join " | " options +++ ", received " +++ s |}]
  | _ => invalidType (join " | " options) v
  end.

(** [z.boolean()] *)
Definition boolean : Schema bool := fun v =>
  match v with
  | Some (JBool b) => ParseSuccess b
  | _ => invalidType "boolean" v
  end.

Definition isInteger (q : Q) : bool := (Qnum q mod Zpos (Qden q) =? 0)%Z.
Definition isNonnegative (q : Q) : bool := (0 <=? Qnum q)%Z.

(** [z.number().int().nonnegative()]: both checks run, and each failed
    check adds its issue. *)
Definition intNonnegative : Schema Z := fun v =>
  match v with
  | Some (JNumber q) =>
      let issues :=
        (if isInteger q then []
         else [{| code := "invalid_type";
                  message := "Expected integer, received float" |}])
        ++ (if isNonnegative q then []
            else [{| code := "too_small";
                     message := "Number must be greater than or equal to 0" |}]) in
      match issues with
      | [] => ParseSuccess (Qnum q / Zpos (Qden q))%Z
      | _ => ParseFailure issues
      end
  | _ => invalidType "number" v
  end.

(** [z.array(element)]: every element is parsed, issues accumulate. *)
Fixpoint arrayItems {A} (element : Schema A) (items : list json)
  : SafeParseResult (list A) :=
  match items with
  | [] => ParseSuccess []
  | item :: rest => ap (map cons (element (Some item))) (arrayItems element rest)
  end.

Definition array {A} (element : Schema A) : Schema (list A) := fun v =>
  match v with
  | Some (JArray items) => arrayItems element items
  | _ => invalidType "array" v
  end.

(** [schema.optional()] *)
Definition optional {A} (schema : Schema A) : Schema (option A) := fun v =>
  match v with
  | None => ParseSuccess None
  | Some _ => map Some (schema v)
  end.

(** [z.object(shape)]: the shape reads the keys it declares; unknown keys
    are stripped. *)
Definition object {A} (shape : (string -> option json) -> SafeParseResult A)
  : Schema A := fun v =>
  match v with
  | Some (JObject fields) => shape (fun key => getField key fields)
  | _ => invalidType "object" v
  end.

End Zod.

Notation "f <$> r" := (Zod.map f r) (at level 61, left associativity).
Notation "rf <*> ra" := (Zod.ap rf ra) (at level 61, left associativity).

(* ------------------------------------------------------------------ *)
(** ** The manifest schema ([solverReceiptV0.ts], lines 6-43) *)

Module ArtifactEntry.
Record t := { path : string; sha256 : string; bytes : Z; contentType : string }.
End ArtifactEntry.

(** [DeliveredArtifact] has the same four fields. *)
Module DeliveredArtifact := ArtifactEntry.

Module PolicyDecision.
Record t := { allowed : bool; reasons : list string }.
End PolicyDecision.

Module ExecutionSummary.
Record t := { status : string; error : option string }.
End ExecutionSummary.

Module SolverMetadata.
Record t := { service : string; serviceVersion : string; gitCommit : option string }.
End SolverMetadata.

Module SolverReceiptV0.
Record t := {
  manifestVersion : string;
  intentId : string;
  runId : string;
  jobType : string;
  createdAt : string;
  artifacts : list ArtifactEntry.t;
  policyDecision : PolicyDecision.t;
  executionSummary : ExecutionSummary.t;
  solver : SolverMetadata.t
}.
End SolverReceiptV0.

Definition isLowerHex (c : ascii) : bool :=
  let n := nat_of_ascii c in
  ((48 <=? n) && (n <=? 57) || (97 <=? n) && (n <=? 102))%nat.

(** The regular expression [/^[a-f0-9]{64}$/]. *)
Definition sha256Regex (s : string) : bool :=
  (String.length s =? 64)%nat && forallb isLowerHex (list_ascii_of_string s).

Section ManifestSchema.

(** The regular expression behind zod's [datetime()] check. *)
Variable datetimeRegex : string -> bool.

Definition ArtifactEntrySchema : Zod.Schema ArtifactEntry.t :=
  Zod.object (fun get =>
    ArtifactEntry.Build_t
      <$> Zod.string_ (get "path")
      <*> Zod.stringCheck sha256Regex "Invalid" (get "sha256")
      <*> Zod.intNonnegative (get "bytes")
      <*> Zod.string_ (get "contentType")).

Definition PolicyDecisionSchema : Zod.Schema PolicyDecision.t :=
  Zod.object (fun get =>
    PolicyDecision.Build_t
      <$> Zod.boolean (get "allowed")
      <*> Zod.array Zod.string_ (get "reasons")).

Definition ExecutionSummarySchema : Zod.Schema ExecutionSummary.t :=
  Zod.object (fun get =>
    ExecutionSummary.Build_t
      <$> Zod.enum ["SUCCESS"; "FAILED"; "REFUSED"] (get "status")
      <*> Zod.optional Zod.string_ (get "error")).

Definition SolverMetadataSchema : Zod.Schema SolverMetadata.t :=
  Zod.object (fun get =>
    SolverMetadata.Build_t
      <$> Zod.literal "irsb-solver" (get "service")
      <*> Zod.string_ (get "serviceVersion")
      <*> Zod.optional Zod.string_ (get "gitCommit")).

Definition SolverReceiptV0Schema : Zod.Schema SolverReceiptV0.t :=
  Zod.object (fun get =>
    SolverReceiptV0.Build_t
      <$> Zod.literal "0.1.0" (get "manifestVersion")
      <*> Zod.string_ (get "intentId")
      <*> Zod.string_ (get "runId")
      <*> Zod.string_ (get "jobType")
      <*> Zod.stringCheck datetimeRegex "Invalid datetime" (get "createdAt")
      <*> Zod.array ArtifactEntrySchema (get "artifacts")
      <*> PolicyDecisionSchema (get "policyDecision")
      <*> ExecutionSummarySchema (get "executionSummary")
      <*> SolverMetadataSchema (get "solver")).

(** [SolverReceiptV0Schema.safeParse(obj)] *)
Definition safeParse (obj : json) : Zod.SafeParseResult SolverReceiptV0.t :=
  SolverReceiptV0Schema (Some obj).

End ManifestSchema.

(* ------------------------------------------------------------------ *)
(** ** Canonical serialization ([utils/canonical.ts]) *)

Module Canonical.

Definition hexDigit (n : nat) : ascii :=
  ascii_of_nat (if (n <? 10)%nat then 48 + n else 87 + n).

(** The escapes of [JSON.stringify]. *)
Definition escapeChar (c : ascii) : string :=
  let n := nat_of_ascii c in
  if (n =? 34)%nat then str1 backslash +++ str1 dquote
  else if (n =? 92)%nat then str1 backslash +++ str1 backslash
  else if (n =? 8)%nat then str1 backslash +++ "b"
  else if (n =? 9)%nat then str1 backslash +++ "t"
  else if (n =? 10)%nat then str1 backslash +++ "n"
  else if (n =? 12)%nat then str1 backslash +++ "f"
  else if (n =? 13)%nat then str1 backslash +++ "r"
  else if (n <? 32)%nat then
    str1 backslash +++ "u00" +++ str1 (hexDigit (n / 16)) +++ str1 (hexDigit (n mod 16))
  else str1 c.

Fixpoint escape (s : string) : string :=
  match s with
  | EmptyString => EmptyString
  | String c rest => escapeChar c +++ escape rest
  end.

Definition quote (s : string) : string :=
  str1 dquote +++ escape s +++ str1 dquote.

(** Digits after the decimal point, by long division; a double prints at
    most 17 significant digits. *)
Fixpoint fractionDigits (fuel : nat) (remainder denominator : Z) : string :=
  match fuel with
  | O => EmptyString
  | S fuel' =>
      if (remainder =? 0)%Z then EmptyString
      else
        let r10 := (remainder * 10)%Z in
        ofZ (r10 / denominator) +++ fractionDigits fuel' (r10 mod denominator) denominator
  end.

Definition numberToString (q : Q) : string :=
  let n := Qnum q in
  let d := Zpos (Qden q) in
  if (n mod d =? 0)%Z then ofZ (n / d)
  else
    let a := Z.abs n in
    (if (n <? 0)%Z then "-" else EmptyString)
      +++ ofZ (a / d) +++ "." +++ fractionDigits 17 (a mod d) d.

Definition compareKeys (a b : string * string) : comparison :=
  String.compare (fst a) (fst b).

(** Modelled from the spec: [canonicalJson] of [utils/canonical.ts], which
    is not among the sources.  The specification describes it as the JSON
    text with object keys sorted lexicographically at every nesting level
    and no whitespace. *)
Fixpoint canonicalJson (v : json) : string :=
  match v with
  | JNull => "null"
  | JBool true => "true"
  | JBool false => "false"
  | JNumber q => numberToString q
  | JString s => quote s
  | JArray items => "[" +++ join "," (List.map canonicalJson items) +++ "]"
  | JObject fields =>
      let rendered :=
        List.map (fun kv => match kv with (k, x) => (k, canonicalJson x) end) fields in
      "{" +++ join ","
                (List.map (fun kv => quote (fst kv) +++ ":" +++ snd kv)
                          (JsArray.sort compareKeys rendered))
          +++ "}"
  end.

End Canonical.

(* ------------------------------------------------------------------ *)
(** ** The environment the code runs in *)

(** The outcome of a call that may throw. *)
Inductive Throws (A : Type) : Type :=
| Returned (value : A)
| Threw (errorMessage : string).
Arguments Returned {A} value.
Arguments Threw {A} errorMessage.

Record Runtime := {
  (** [process.cwd()] *)
  cwd : string;
  (** [sha256Hex] of [utils/canonical.ts]: the lowercase hexadecimal
      SHA-256 digest of a buffer or string. *)
  sha256Hex : string -> string;
  (** [JSON.parse]; [None] when it throws. *)
  JSON_parse : string -> option json;
  (** the regular expression behind zod's [datetime()] *)
  datetimeRegex : string -> bool
}.

Record FileSystem := {
  existsSync : string -> bool;
  (** [statSync(p).size] *)
  statSync : string -> Throws Z;
  readFileSync : string -> Throws string
}.

(* ------------------------------------------------------------------ *)
(** ** Normalized receipts ([solverReceiptV0.ts], lines 47-105) *)

Module NormalizedReceipt.
Record t := {
  receiptId : string;
  receiptVersion : string;
  intentId : string;
  runId : string;
  jobType : string;
  status : string;
  manifestPath : string;
  manifestSha256 : string;
  delivered : list DeliveredArtifact.t
}.
End NormalizedReceipt.

Section Normalize.

Context {collation : Collation}.
Variable rt : Runtime.

Definition compareByPath (a b : ArtifactEntry.t) : comparison :=
  localeCompare (ArtifactEntry.path a) (ArtifactEntry.path b).

(** The object literal whose canonical form is hashed into a receipt id. *)
Definition receiptIdInput (intentId runId jobType manifestSha256 : string) : json :=
  JObject [("intentId", JString intentId);
           ("runId", JString runId);
           ("jobType", JString jobType);
           ("manifestSha256", JString manifestSha256)].

Definition normalizeReceipt (manifest : SolverReceiptV0.t)
           (manifestSha256 : string) : NormalizedReceipt.t :=
  let delivered :=
    List.map (fun a =>
                {| DeliveredArtifact.path := ArtifactEntry.path a;
                   DeliveredArtifact.sha256 := ArtifactEntry.sha256 a;
                   DeliveredArtifact.bytes := ArtifactEntry.bytes a;
                   DeliveredArtifact.contentType := ArtifactEntry.contentType a |})
             (JsArray.sort compareByPath (SolverReceiptV0.artifacts manifest)) in
  let receiptId :=
    sha256Hex rt
      (Canonical.canonicalJson
         (receiptIdInput (SolverReceiptV0.intentId manifest)
                         (SolverReceiptV0.runId manifest)
                         (SolverReceiptV0.jobType manifest)
                         manifestSha256)) in
  {| NormalizedReceipt.receiptId := receiptId;
     NormalizedReceipt.receiptVersion := SolverReceiptV0.manifestVersion manifest;
     NormalizedReceipt.intentId := SolverReceiptV0.intentId manifest;
     NormalizedReceipt.runId := SolverReceiptV0.runId manifest;
     NormalizedReceipt.jobType := SolverReceiptV0.jobType manifest;
     NormalizedReceipt.status :=
       ExecutionSummary.status (SolverReceiptV0.executionSummary manifest);
     NormalizedReceipt.manifestPath := "evidence/manifest.json";
     NormalizedReceipt.manifestSha256 := manifestSha256;
     NormalizedReceipt.delivered := delivered |}.

End Normalize.

(* ------------------------------------------------------------------ *)
(** ** Verification results ([verifyEvidence.ts], lines 10-42) *)

Inductive FailureCode : Type :=
| ARTIFACT_HASH_MISMATCH
| ARTIFACT_NOT_FOUND
| ARTIFACT_SIZE_MISMATCH
| ARTIFACT_TOO_LARGE
| DELIVERED_MISMATCH
| MANIFEST_HASH_MISMATCH
| MANIFEST_NOT_FOUND
| MANIFEST_PARSE_FAIL
| MANIFEST_READ_ERROR
| MANIFEST_SCHEMA_INVALID
| MANIFEST_TOO_LARGE
| UNSAFE_PATH.

(** The string each code is at run time. *)
Definition codeString (c : FailureCode) : string :=
  match c with
  | ARTIFACT_HASH_MISMATCH => "ARTIFACT_HASH_MISMATCH"
  | ARTIFACT_NOT_FOUND => "ARTIFACT_NOT_FOUND"
  | ARTIFACT_SIZE_MISMATCH => "ARTIFACT_SIZE_MISMATCH"
  | ARTIFACT_TOO_LARGE => "ARTIFACT_TOO_LARGE"
  | DELIVERED_MISMATCH => "DELIVERED_MISMATCH"
  | MANIFEST_HASH_MISMATCH => "MANIFEST_HASH_MISMATCH"
  | MANIFEST_NOT_FOUND => "MANIFEST_NOT_FOUND"
  | MANIFEST_PARSE_FAIL => "MANIFEST_PARSE_FAIL"
  | MANIFEST_READ_ERROR => "MANIFEST_READ_ERROR"
  | MANIFEST_SCHEMA_INVALID => "MANIFEST_SCHEMA_INVALID"
  | MANIFEST_TOO_LARGE => "MANIFEST_TOO_LARGE"
  | UNSAFE_PATH => "UNSAFE_PATH"
  end.

Definition codeEqb (a b : FailureCode) : bool :=
  String.eqb (codeString a) (codeString b).

Module VerificationFailure.
Record t := { code : FailureCode; message : string; path : option string }.
End VerificationFailure.

Module EvidenceLink.
Record t := { type : string; ref : string }.
End EvidenceLink.

Module VerificationResult.
Record t := {
  ok : bool;
  failures : list VerificationFailure.t;
  evidenceLinks : list EvidenceLink.t
}.
End VerificationResult.

Module VerifyOptions.
Record t := { maxManifestBytes : option Z; maxArtifactBytes : option Z }.
End VerifyOptions.

Definition DEFAULT_MAX_MANIFEST_BYTES : Z := 2 * 1024 * 1024.
Definition DEFAULT_MAX_ARTIFACT_BYTES : Z := 10 * 1024 * 1024.

(** [a ?? b] *)
Definition orElse {A} (a : option A) (b : A) : A :=
  match a with Some x => x | None => b end.

(** A template literal prints an absent value as [undefined]. *)
Definition showOptional (o : option string) : string := orElse o "undefined".

(** [!p] is true for [null] and for the empty string. *)
Definition truthyString (o : option string) : option string :=
  match o with
  | Some s => if isEmpty s then None else Some s
  | None => None
  end.

(* ------------------------------------------------------------------ *)
(** ** [verifyEvidence] and [buildResult] ([verifyEvidence.ts], lines 74-309) *)

Section Verify.

Context {collation : Collation}.
Variable rt : Runtime.
Variable fs : FileSystem.

Definition failure (c : FailureCode) (msg : string) (p : option string)
  : VerificationFailure.t :=
  {| VerificationFailure.code := c;
     VerificationFailure.message := msg;
     VerificationFailure.path := p |}.

Definition link (t r : string) : EvidenceLink.t :=
  {| EvidenceLink.type := t; EvidenceLink.ref := r |}.

(** The comparator of [buildResult]. *)
Definition compareFailures (a b : VerificationFailure.t) : comparison :=
  match localeCompare (codeString (VerificationFailure.code a))
                      (codeString (VerificationFailure.code b)) with
  | Eq => localeCompare (orElse (VerificationFailure.path a) EmptyString)
                        (orElse (VerificationFailure.path b) EmptyString)
  | codeDiff => codeDiff
  end.

Definition buildResult (failures : list VerificationFailure.t)
           (evidenceLinks : list EvidenceLink.t) : VerificationResult.t :=
  let sorted := JsArray.sort compareFailures failures in
  {| VerificationResult.ok := (List.length sorted =? 0)%nat;
     VerificationResult.failures := sorted;
     VerificationResult.evidenceLinks := evidenceLinks |}.

(** The body of the loop over [receipt.delivered]: the failures and
    evidence links recorded so far, extended by the checks of one
    artifact. *)
Definition verifyArtifact (runDir : string) (maxArtifactBytes : Z)
           (state : list VerificationFailure.t * list EvidenceLink.t)
           (artifact : DeliveredArtifact.t)
  : list VerificationFailure.t * list EvidenceLink.t :=
  let '(failures, evidenceLinks) := state in
  let path := DeliveredArtifact.path artifact in
  let artPathCheck := validateRelativePath path in
  if negb (valid artPathCheck) then
    (failures ++ [failure UNSAFE_PATH
                    ("Artifact path unsafe: " +++ showOptional (reason artPathCheck))
                    (Some path)],
     evidenceLinks)
  else
    match truthyString (safeJoin (cwd rt) runDir path) with
    | None =>
        (failures ++ [failure UNSAFE_PATH "Artifact path escapes run directory"
                              (Some path)],
         evidenceLinks)
    | Some artAbsPath =>
        if negb (existsSync fs artAbsPath) then
          (failures ++ [failure ARTIFACT_NOT_FOUND
                          ("Artifact not found: " +++ path) (Some path)],
           evidenceLinks)
        else
          match statSync fs artAbsPath with
          | Threw _ =>
              (failures ++ [failure ARTIFACT_NOT_FOUND
                              ("Cannot stat artifact: " +++ path) (Some path)],
               evidenceLinks)
          | Returned artSize =>
              if artSize >? maxArtifactBytes then
                (failures ++ [failure ARTIFACT_TOO_LARGE
                                ("Artifact " +++ ofZ artSize +++ " bytes exceeds limit "
                                 +++ ofZ maxArtifactBytes) (Some path)],
                 evidenceLinks)
              else
                let failures :=
                  if negb (artSize =? DeliveredArtifact.bytes artifact) then
                    failures ++ [failure ARTIFACT_SIZE_MISMATCH
                                   ("Artifact size mismatch for " +++ path
                                    +++ ": expected "
                                    +++ ofZ (DeliveredArtifact.bytes artifact)
                                    +++ ", got " +++ ofZ artSize) (Some path)]
                  else failures in
                match readFileSync fs artAbsPath with
                | Threw _ =>
                    (failures ++ [failure ARTIFACT_NOT_FOUND
                                    ("Cannot read artifact: " +++ path) (Some path)],
                     evidenceLinks)
                | Returned artBytes =>
                    let actualArtHash := sha256Hex rt artBytes in
                    let failures :=
                      if negb (String.eqb actualArtHash
                                          (DeliveredArtifact.sha256 artifact)) then
                        failures ++ [failure ARTIFACT_HASH_MISMATCH
                                       ("Artifact hash mismatch for " +++ path
                                        +++ ": expected "
                                        +++ DeliveredArtifact.sha256 artifact
                                        +++ ", got " +++ actualArtHash) (Some path)]
                      else failures in
                    (failures,
                     evidenceLinks
                       ++ [link "artifactSha256" (DeliveredArtifact.sha256 artifact)])
                end
          end
    end.

Definition pathsJoined (artifacts : list ArtifactEntry.t) : string :=
  join "," (List.map ArtifactEntry.path (JsArray.sort compareByPath artifacts)).

Definition issueMessages (issues : list Zod.ZodIssue) : string :=
  join "; " (List.map Zod.message issues).

Definition verifyEvidence (receipt : NormalizedReceipt.t) (runDir : string)
           (options : option VerifyOptions.t) : VerificationResult.t :=
  let maxManifestBytes :=
    orElse (match options with
            | Some o => VerifyOptions.maxManifestBytes o
            | None => None
            end) DEFAULT_MAX_MANIFEST_BYTES in
  let maxArtifactBytes :=
    orElse (match options with
            | Some o => VerifyOptions.maxArtifactBytes o
            | None => None
            end) DEFAULT_MAX_ARTIFACT_BYTES in
  let failures : list VerificationFailure.t := [] in
  let evidenceLinks :=
    [link "receiptId" (NormalizedReceipt.receiptId receipt);
     link "manifestSha256" (NormalizedReceipt.manifestSha256 receipt)] in
  (* 1. manifest path safety *)
  let manifestRelPath := NormalizedReceipt.manifestPath receipt in
  let pathCheck := validateRelativePath manifestRelPath in
  if negb (valid pathCheck) then
    buildResult
      (failures ++ [failure UNSAFE_PATH
                      ("Manifest path unsafe: " +++ showOptional (reason pathCheck))
                      (Some manifestRelPath)])
      evidenceLinks
  else
  match truthyString (safeJoin (cwd rt) runDir manifestRelPath) with
  | None =>
      buildResult
        (failures ++ [failure UNSAFE_PATH "Manifest path escapes run directory"
                              (Some manifestRelPath)])
        evidenceLinks
  | Some manifestAbsPath =>
  (* 2. manifest exists *)
  if negb (existsSync fs manifestAbsPath) then
    buildResult
      (failures ++ [failure MANIFEST_NOT_FOUND
                      ("Manifest not found: " +++ manifestRelPath)
                      (Some manifestRelPath)])
      evidenceLinks
  else
  (* 3. manifest size *)
  match statSync fs manifestAbsPath with
  | Threw err =>
      buildResult
        (failures ++ [failure MANIFEST_READ_ERROR
                        ("Cannot stat manifest: " +++ err) (Some manifestRelPath)])
        evidenceLinks
  | Returned manifestSize =>
  if manifestSize >? maxManifestBytes then
    buildResult
      (failures ++ [failure MANIFEST_TOO_LARGE
                      ("Manifest " +++ ofZ manifestSize +++ " bytes exceeds limit "
                       +++ ofZ maxManifestBytes) (Some manifestRelPath)])
      evidenceLinks
  else
  (* 4. manifest bytes and hash *)
  match readFileSync fs manifestAbsPath with
  | Threw err =>
      buildResult
        (failures ++ [failure MANIFEST_READ_ERROR
                        ("Cannot read manifest: " +++ err) (Some manifestRelPath)])
        evidenceLinks
  | Returned manifestBytes =>
  let actualManifestHash := sha256Hex rt manifestBytes in
  if negb (String.eqb actualManifestHash (NormalizedReceipt.manifestSha256 receipt)) then
    buildResult
      (failures ++ [failure MANIFEST_HASH_MISMATCH
                      ("Manifest hash mismatch: expected "
                       +++ NormalizedReceipt.manifestSha256 receipt
                       +++ ", got " +++ actualManifestHash) (Some manifestRelPath)])
      evidenceLinks
  else
  (* 5. parse *)
  match JSON_parse rt manifestBytes with
  | None =>
      buildResult
        (failures ++ [failure MANIFEST_PARSE_FAIL "Manifest is not valid JSON"
                              (Some manifestRelPath)])
        evidenceLinks
  | Some manifestObj =>
  (* 6. schema *)
  match safeParse (datetimeRegex rt) manifestObj with
  | Zod.ParseFailure issues =>
      buildResult
        (failures ++ [failure MANIFEST_SCHEMA_INVALID
                        ("Manifest schema invalid: " +++ issueMessages issues)
                        (Some manifestRelPath)])
        evidenceLinks
  | Zod.ParseSuccess manifest =>
  (* 7. delivered[] against the manifest's artifacts *)
  let manifestPaths := pathsJoined (SolverReceiptV0.artifacts manifest) in
  let deliveredPaths := pathsJoined (NormalizedReceipt.delivered receipt) in
  let failures :=
    if negb (String.eqb manifestPaths deliveredPaths) then
      failures ++ [failure DELIVERED_MISMATCH
                     "Receipt delivered[] does not match manifest artifacts" None]
    else failures in
  (* 8. every artifact *)
  let '(failures, evidenceLinks) :=
    fold_left (verifyArtifact runDir maxArtifactBytes)
              (NormalizedReceipt.delivered receipt)
              (failures, evidenceLinks) in
  buildResult failures evidenceLinks
  end end end end end.

End Verify.

(* ------------------------------------------------------------------ *)
(** ** Signals ([deriveBehaviorSignals.ts]) *)

Inductive Severity : Type := LOW | HIGH | CRITICAL.

Definition severityString (s : Severity) : string :=
  match s with LOW => "LOW" | HIGH => "HIGH" | CRITICAL => "CRITICAL" end.

Module Signal.
Record t := {
  signalId : string;
  severity : Severity;
  weight : Q;
  observedAt : Z;
  evidence : list EvidenceLink.t
}.
End Signal.

Module SignalDef.
Record t := {
  signalId : string;
  severity : Severity;
  weight : Q;
  codes : list FailureCode
}.
End SignalDef.

Definition signalDef (id : string) (s : Severity) (w : Q) (codes : list FailureCode)
  : SignalDef.t :=
  {| SignalDef.signalId := id; SignalDef.severity := s;
     SignalDef.weight := w; SignalDef.codes := codes |}.

Definition SIGNAL_DEFS : list SignalDef.t :=
  [ signalDef "BE_MANIFEST_NOT_FOUND" CRITICAL 1 [MANIFEST_NOT_FOUND];
    signalDef "BE_MANIFEST_HASH_MISMATCH" CRITICAL 1 [MANIFEST_HASH_MISMATCH];
    signalDef "BE_MANIFEST_PARSE_FAIL" HIGH (8 # 10)
              [MANIFEST_PARSE_FAIL; MANIFEST_READ_ERROR];
    signalDef "BE_MANIFEST_SCHEMA_INVALID" HIGH (8 # 10) [MANIFEST_SCHEMA_INVALID];
    signalDef "BE_MANIFEST_TOO_LARGE" HIGH (8 # 10) [MANIFEST_TOO_LARGE];
    signalDef "BE_ARTIFACT_MISSING" CRITICAL 1 [ARTIFACT_NOT_FOUND];
    signalDef "BE_ARTIFACT_HASH_MISMATCH" CRITICAL 1 [ARTIFACT_HASH_MISMATCH];
    signalDef "BE_ARTIFACT_SIZE_MISMATCH" HIGH (8 # 10) [ARTIFACT_SIZE_MISMATCH];
    signalDef "BE_UNSAFE_PATH" CRITICAL 1 [UNSAFE_PATH];
    signalDef "BE_DELIVERED_MISMATCH" CRITICAL 1 [DELIVERED_MISMATCH] ].

(** A [Map<FailureCode, VerificationFailure[]>], in insertion order. *)
Module FailureMap.

Definition t : Type := list (FailureCode * list VerificationFailure.t).

Fixpoint get (m : t) (key : FailureCode) : option (list VerificationFailure.t) :=
  match m with
  | [] => None
  | (k, v) :: rest => if codeEqb k key then Some v else get rest key
  end.

Fixpoint set (m : t) (key : FailureCode) (value : list VerificationFailure.t) : t :=
  match m with
  | [] => [(key, value)]
  | (k, v) :: rest =>
      if codeEqb k key then (k, value) :: rest else (k, v) :: set rest key value
  end.

End FailureMap.

Section Derive.

Context {collation : Collation}.

Definition compareEvidence (a b : EvidenceLink.t) : comparison :=
  match localeCompare (EvidenceLink.type a) (EvidenceLink.type b) with
  | Eq => localeCompare (EvidenceLink.ref a) (EvidenceLink.ref b)
  | typeCmp => typeCmp
  end.

Definition evidenceEqb (a b : EvidenceLink.t) : bool :=
  String.eqb (EvidenceLink.type a) (EvidenceLink.type b)
  && String.eqb (EvidenceLink.ref a) (EvidenceLink.ref b).

(** Of links with the same [type] and [ref], the first is kept. *)
Fixpoint dedupeEvidence (evidence : list EvidenceLink.t) : list EvidenceLink.t :=
  match evidence with
  | [] => []
  | l :: rest =>
      l :: List.filter (fun x => negb (evidenceEqb l x)) (dedupeEvidence rest)
  end.

(** Modelled from the spec: [sortEvidence] of [utils/sort.ts], which is not
    among the sources.  The specification has evidence links deduplicated
    and sorted by [(type, ref)] before they are included in a signal. *)
Definition sortEvidence (evidence : list EvidenceLink.t) : list EvidenceLink.t :=
  JsArray.sort compareEvidence (dedupeEvidence evidence).

(** The loop that groups [result.failures] by code. *)
Definition groupByCode (failures : list VerificationFailure.t) : FailureMap.t :=
  fold_left
    (fun failuresByCode failure =>
       let existing :=
         orElse (FailureMap.get failuresByCode (VerificationFailure.code failure)) [] in
       FailureMap.set failuresByCode (VerificationFailure.code failure)
                      (existing ++ [failure]))
    failures [].

(** [f.path] as a condition: present and not the empty string. *)
Definition hasPath (f : VerificationFailure.t) : bool :=
  match truthyString (VerificationFailure.path f) with
  | Some _ => true
  | None => false
  end.

Definition failurePathLink (f : VerificationFailure.t) : EvidenceLink.t :=
  {| EvidenceLink.type := "failurePath";
     EvidenceLink.ref := orElse (VerificationFailure.path f) EmptyString |}.

Definition baseEvidenceOf (receipt : NormalizedReceipt.t) : list EvidenceLink.t :=
  [ {| EvidenceLink.type := "receiptId";
       EvidenceLink.ref := NormalizedReceipt.receiptId receipt |};
    {| EvidenceLink.type := "manifestSha256";
       EvidenceLink.ref := NormalizedReceipt.manifestSha256 receipt |} ].

(** One iteration of the loop over [SIGNAL_DEFS]. *)
Definition deriveOne (failuresByCode : FailureMap.t)
           (baseEvidence : list EvidenceLink.t) (observedAt : Z)
           (signals : list Signal.t) (def : SignalDef.t) : list Signal.t :=
  let matchingFailures :=
    flat_map (fun c => orElse (FailureMap.get failuresByCode c) [])
             (SignalDef.codes def) in
  if (List.length matchingFailures =? 0)%nat then signals
  else
    let failureEvidence :=
      List.map failurePathLink (List.filter hasPath matchingFailures) in
    signals ++
      [ {| Signal.signalId := SignalDef.signalId def;
           Signal.severity := SignalDef.severity def;
           Signal.weight := SignalDef.weight def;
           Signal.observedAt := observedAt;
           Signal.evidence := sortEvidence (baseEvidence ++ failureEvidence) |} ].

Definition deriveBehaviorSignals (result : VerificationResult.t)
           (receipt : NormalizedReceipt.t) (observedAt : Z) : list Signal.t :=
  let signals : list Signal.t := [] in
  let baseEvidence := baseEvidenceOf receipt in
  if VerificationResult.ok result then
    signals ++
      [ {| Signal.signalId := "BE_VERIFIED_OK";
           Signal.severity := LOW;
           Signal.weight := 1 # 10;
           Signal.observedAt := observedAt;
           Signal.evidence :=
             sortEvidence (baseEvidence ++ VerificationResult.evidenceLinks result) |} ]
  else
    let failuresByCode := groupByCode (VerificationResult.failures result) in
    fold_left (deriveOne failuresByCode baseEvidence observedAt) SIGNAL_DEFS signals.

End Derive.

(* ------------------------------------------------------------------ *)
(** ** The ingest pipeline ([ingestReceipt.ts]) *)

Module Snapshot.
Record t := {
  snapshotId : string;
  agentId : string;
  observedAt : Z;
  signals : list Signal.t
}.
End Snapshot.

Module IngestResult.
Record t := {
  receiptId : string;
  snapshotId : string;
  reportId : string;
  ok : bool;
  overallRisk : Q;
  alertCount : nat
}.
End IngestResult.

(** The storage and scoring collaborators, which the pipeline only calls. *)
Record Store := {
  Db : Type;
  Agent : Type;
  RiskReport : Type;
  Alert : Type;
  upsertAgent : Db -> string -> Db;
  insertSnapshot : Db -> Snapshot.t -> Db;
  getAgent : Db -> string -> option Agent;
  getLatestSnapshots : Db -> string -> list Snapshot.t;
  scoreAgent : option Agent -> list Snapshot.t -> Z -> RiskReport * list Alert;
  insertRiskReport : Db -> RiskReport -> Db;
  insertAlerts : Db -> list Alert -> Db;
  reportIdOf : RiskReport -> string;
  overallRiskOf : RiskReport -> Q
}.

Definition evidenceJson (l : EvidenceLink.t) : json :=
  JObject [("type", JString (EvidenceLink.type l));
           ("ref", JString (EvidenceLink.ref l))].

(** A signal as the object the code builds, keys in creation order. *)
Definition signalJson (s : Signal.t) : json :=
  JObject [("signalId", JString (Signal.signalId s));
           ("severity", JString (severityString (Signal.severity s)));
           ("weight", JNumber (Signal.weight s));
           ("observedAt", JNumber (inject_Z (Signal.observedAt s)));
           ("evidence", JArray (List.map evidenceJson (Signal.evidence s)))].

(** The object [{ agentId, signals }] whose canonical form is hashed into
    the snapshot id. *)
Definition snapshotIdInput (agentId : string) (signals : list Signal.t) : json :=
  JObject [("agentId", JString agentId);
           ("signals", JArray (List.map signalJson signals))].

Section Ingest.

Context {collation : Collation}.
Variable rt : Runtime.
Variable fs : FileSystem.
Variable store : Store.

Definition compareSignals (a b : Signal.t) : comparison :=
  match localeCompare (Signal.signalId a) (Signal.signalId b) with
  | Eq =>
      match Z.compare (Signal.observedAt a) (Signal.observedAt b) with
      | Eq => localeCompare
                (Canonical.canonicalJson (JArray (List.map evidenceJson (Signal.evidence a))))
                (Canonical.canonicalJson (JArray (List.map evidenceJson (Signal.evidence b))))
      | c => c
      end
  | c => c
  end.

(** Modelled from the spec: [sortSignals] of [utils/sort.ts], which is not
    among the sources.  The specification has the signal list sorted by
    [signalId], then [observedAt], then the serialized evidence. *)
Definition sortSignals (signals : list Signal.t) : list Signal.t :=
  JsArray.sort compareSignals signals.

Definition safeParseManifest (rawBytes : string) : SolverReceiptV0.t + string :=
  match JSON_parse rt rawBytes with
  | None => inr "Invalid JSON"
  | Some obj =>
      match safeParse (datetimeRegex rt) obj with
      | Zod.ParseFailure issues => inr (issueMessages issues)
      | Zod.ParseSuccess data => inl data
      end
  end.

Definition inferRunDir (absReceiptPath : string) : string :=
  let dir := NodePath.dirname absReceiptPath in
  let parent := NodePath.dirname dir in
  if endsWith "/evidence" dir || endsWith (str1 backslash +++ "evidence") dir
  then parent
  else dir.

(** Steps 1-8 of [ingestReceipt]: everything up to the snapshot, given the
    bytes of the receipt file and the time [observedAt]. *)
Definition ingestSignals (absReceiptPath : string) (rawBytes : string)
           (runDir : option string) (observedAt : Z)
  : string * bool * list Signal.t :=
  let manifestSha256 := sha256Hex rt rawBytes in
  let '(receiptId, ok, signals) :=
    match safeParseManifest rawBytes with
    | inr parseError =>
        (sha256Hex rt
           (Canonical.canonicalJson
              (receiptIdInput "unknown" "unknown" "unknown" manifestSha256)),
         false,
         [ {| Signal.signalId := "BE_RECEIPT_SCHEMA_INVALID";
              Signal.severity := HIGH;
              Signal.weight := 8 # 10;
              Signal.observedAt := observedAt;
              Signal.evidence :=
                [ {| EvidenceLink.type := "manifestSha256";
                     EvidenceLink.ref := manifestSha256 |};
                  {| EvidenceLink.type := "parseError";
                     EvidenceLink.ref := parseError |} ] |} ])
    | inl data =>
        let receipt := normalizeReceipt rt data manifestSha256 in
        let effectiveRunDir := orElse runDir (inferRunDir absReceiptPath) in
        let result := verifyEvidence rt fs receipt effectiveRunDir None in
        (NormalizedReceipt.receiptId receipt,
         VerificationResult.ok result,
         deriveBehaviorSignals result receipt observedAt)
    end in
  (receiptId, ok, sortSignals signals).

(** [ingestReceipt(db, agentId, receiptPath, runDir?)].  [clock1] and
    [clock2] are what the two calls of [Date.now()] return; the result is
    [Threw] when reading the receipt file throws. *)
Definition ingestReceipt (db : Db store) (agentId receiptPath : string)
           (runDir : option string) (clock1 clock2 : Z)
  : Throws (Db store * IngestResult.t) :=
  let observedAt := clock1 / 1000 in
  let absReceiptPath := NodePath.resolve (cwd rt) [receiptPath] in
  match readFileSync fs absReceiptPath with
  | Threw err => Threw err
  | Returned rawBytes =>
      let '(receiptId, ok, signals) :=
        ingestSignals absReceiptPath rawBytes runDir observedAt in
      let snapshotId :=
        sha256Hex rt (Canonical.canonicalJson (snapshotIdInput agentId signals)) in
      let db := upsertAgent store db agentId in
      let db :=
        insertSnapshot store db
          {| Snapshot.snapshotId := snapshotId;
             Snapshot.agentId := agentId;
             Snapshot.observedAt := observedAt;
             Snapshot.signals := signals |} in
      let agent := getAgent store db agentId in
      let snapshots := getLatestSnapshots store db agentId in
      let generatedAt := clock2 / 1000 in
      let '(report, newAlerts) := scoreAgent store agent snapshots generatedAt in
      let db := insertRiskReport store db report in
      let db :=
        if (0 <? List.length newAlerts)%nat then insertAlerts store db newAlerts
        else db in
      Returned
        (db,
         {| IngestResult.receiptId := receiptId;
            IngestResult.snapshotId := snapshotId;
            IngestResult.reportId := reportIdOf store report;
            IngestResult.ok := ok;
            IngestResult.overallRisk := overallRiskOf store report;
            IngestResult.alertCount := List.length newAlerts |})
  end.

End Ingest.

(* ------------------------------------------------------------------ *)
(** ** Retry and circuit breaker ([resilience/src/index.ts])

    A promise that has settled is [Fulfilled] with a value or [Rejected]
    with the value thrown.  An async function that is called several times
    is given by the outcome of each call, indexed from 0.  The readings of
    [Date.now()] are passed explicitly, one argument per reading.  The
    callbacks [onRetry] and [onStateChange] only observe: the calls they
    receive are returned as lists, oldest first.  Counters, thresholds and
    times are integers.  A protected call ([execute], [resilient]) is
    modelled from start to end, with no other call on the same breaker in
    between; the breaker's methods themselves are synchronous, so any
    interleaving of calls is a sequence of them. *)

Module Resilience.

Inductive Settled (T E : Type) : Type :=
| Fulfilled (value : T)
| Rejected (error : E).

Arguments Fulfilled {T E} value.
Arguments Rejected {T E} error.

Module RetryConfig.
Record t (E : Type) : Type :=
  { maxRetries : option Z;
    baseDelayMs : option Z;
    maxDelayMs : option Z;
    jitterFactor : option Q;
    isRetryable : option (E -> bool) }.
End RetryConfig.

Module RetryResult.
Record t (T E : Type) : Type :=
  { success : bool;
    value : option T;
    error : option E;
    attempts : Z;
    totalDelayMs : Z }.
End RetryResult.

(** One retry: the arguments [onRetry] is called with; [delayMs] is also
    the time slept before the next attempt. *)
Module Retry.
Record t (E : Type) : Type :=
  { attempt : Z;
    error : E;
    delayMs : Z }.
End Retry.

Section RetryLoop.

Variables T E : Type.

(** [error.message] when [error instanceof Error]. *)
Variable messageOf : E -> option string.
Variable toLowerCase : string -> string.

(** [calculateDelay(attempt, baseDelayMs, maxDelayMs, jitterFactor)]: the
    result depends on [Math.random()]; each attempt asks for it once. *)
Variable calculateDelay : Z -> Z -> Z -> Q -> Z.

Definition isDefaultRetryable (error : E) : bool :=
  match messageOf error with
  | Some m =>
      let message := toLowerCase m in
      (includes "network" message
       || includes "timeout" message
       || includes "econnrefused" message
       || includes "econnreset" message
       || includes "socket hang up" message
       || includes "fetch failed" message)
      || (includes "rate limit" message
          || includes "429" message
          || includes "too many requests" message)
      || (includes "internal server error" message
          || includes "502" message
          || includes "503" message
          || includes "504" message
          || includes "bad gateway" message
          || includes "service unavailable" message)
  | None => false
  end.

(** The [for] loop of [withRetry]: [iterations] bounds the passes that the
    loop condition [attempt <= maxRetries] still allows. *)
Fixpoint retryLoop (fn : Z -> Settled T E) (maxRetries : Z)
         (delayOf : Z -> Z) (isRetryable : E -> bool)
         (iterations : nat) (attempt : Z) (lastError : option E)
         (totalDelayMs : Z) (retries : list (Retry.t E))
  : RetryResult.t T E * list (Retry.t E) :=
  match iterations with
  | O =>
      ({| RetryResult.success := false;
          RetryResult.value := None;
          RetryResult.error := lastError;
          RetryResult.attempts := attempt;
          RetryResult.totalDelayMs := totalDelayMs |}, retries)
  | S iterations =>
      let actualAttempts := attempt + 1 in
      match fn attempt with
      | Fulfilled value =>
          ({| RetryResult.success := true;
              RetryResult.value := Some value;
              RetryResult.error := None;
              RetryResult.attempts := actualAttempts;
              RetryResult.totalDelayMs := totalDelayMs |}, retries)
      | Rejected error =>
          if (attempt <? maxRetries) && isRetryable error then
            let delayMs := delayOf attempt in
            retryLoop fn maxRetries delayOf isRetryable iterations
                      (attempt + 1) (Some error) (totalDelayMs + delayMs)
                      (retries ++ [ {| Retry.attempt := attempt + 1;
                                       Retry.error := error;
                                       Retry.delayMs := delayMs |} ])
          else
            ({| RetryResult.success := false;
                RetryResult.value := None;
                RetryResult.error := Some error;
                RetryResult.attempts := actualAttempts;
                RetryResult.totalDelayMs := totalDelayMs |}, retries)
      end
  end.

Definition withRetry (fn : Z -> Settled T E) (config : RetryConfig.t E)
  : RetryResult.t T E * list (Retry.t E) :=
  let maxRetries := orElse (RetryConfig.maxRetries config) 3 in
  let baseDelayMs := orElse (RetryConfig.baseDelayMs config) 1000 in
  let maxDelayMs := orElse (RetryConfig.maxDelayMs config) 30000 in
  let jitterFactor := orElse (RetryConfig.jitterFactor config) (1 # 10) in
  let isRetryable := orElse (RetryConfig.isRetryable config) isDefaultRetryable in
  retryLoop fn maxRetries
            (fun attempt => calculateDelay attempt baseDelayMs maxDelayMs jitterFactor)
            isRetryable (Z.to_nat (maxRetries + 1)) 0 None 0 [].

(** [result.success ? return result.value : throw result.error] *)
Definition settle (result : RetryResult.t T E) : Settled (option T) (option E) :=
  if RetryResult.success result then Fulfilled (RetryResult.value result)
  else Rejected (RetryResult.error result).

Definition retryable (fn : Z -> Settled T E) (config : RetryConfig.t E)
  : Settled (option T) (option E) * list (Retry.t E) :=
  let (result, retries) := withRetry fn config in
  (settle result, retries).

End RetryLoop.

(** *** Circuit breaker *)

Inductive CircuitState : Type := CLOSED | OPEN | HALF_OPEN.

Definition stateEqb (a b : CircuitState) : bool :=
  match a, b with
  | CLOSED, CLOSED | OPEN, OPEN | HALF_OPEN, HALF_OPEN => true
  | _, _ => false
  end.

Module CircuitBreakerConfig.
Record t (E : Type) : Type :=
  { failureThreshold : option Z;
    resetTimeoutMs : option Z;
    successThreshold : option Z;
    isFailure : option (E -> bool) }.
End CircuitBreakerConfig.

(** [Required<CircuitBreakerConfig>], the constructor's [this.config]. *)
Module Config.
Record t (E : Type) : Type :=
  { failureThreshold : Z;
    resetTimeoutMs : Z;
    successThreshold : Z;
    isFailure : E -> bool }.
End Config.

Module CircuitBreaker.
Record t (E : Type) : Type :=
  { state : CircuitState;
    failures : Z;
    successes : Z;
    lastFailureTime : Z;
    config : Config.t E;
    (** the calls [onStateChange(from, to)] made so far *)
    stateChanges : list (CircuitState * CircuitState) }.
End CircuitBreaker.

(** What a protected call throws. *)
Inductive Thrown (E : Type) : Type :=
| CircuitOpenError (remainingMs failures : Z)
| Raised (error : E).

Arguments CircuitOpenError {E} remainingMs failures.
Arguments Raised {E} error.

Section Breaker.

Variable E : Type.

Definition newCircuitBreaker (config : CircuitBreakerConfig.t E) : CircuitBreaker.t E :=
  {| CircuitBreaker.state := CLOSED;
     CircuitBreaker.failures := 0;
     CircuitBreaker.successes := 0;
     CircuitBreaker.lastFailureTime := 0;
     CircuitBreaker.config :=
       {| Config.failureThreshold :=
            orElse (CircuitBreakerConfig.failureThreshold config) 5;
          Config.resetTimeoutMs :=
            orElse (CircuitBreakerConfig.resetTimeoutMs config) 30000;
          Config.successThreshold :=
            orElse (CircuitBreakerConfig.successThreshold config) 2;
          Config.isFailure :=
            orElse (CircuitBreakerConfig.isFailure config) (fun _ => true) |};
     CircuitBreaker.stateChanges := [] |}.

Definition getState (this : CircuitBreaker.t E) : CircuitState :=
  CircuitBreaker.state this.

Definition getFailures (this : CircuitBreaker.t E) : Z :=
  CircuitBreaker.failures this.

Definition transitionTo (this : CircuitBreaker.t E) (newState : CircuitState)
  : CircuitBreaker.t E :=
  if stateEqb (CircuitBreaker.state this) newState then this
  else
    let oldState := CircuitBreaker.state this in
    {| CircuitBreaker.state := newState;
       CircuitBreaker.failures :=
         match newState with
         | CLOSED => 0
         | _ => CircuitBreaker.failures this
         end;
       CircuitBreaker.successes :=
         match newState with
         | CLOSED | HALF_OPEN => 0
         | OPEN => CircuitBreaker.successes this
         end;
       CircuitBreaker.lastFailureTime := CircuitBreaker.lastFailureTime this;
       CircuitBreaker.config := CircuitBreaker.config this;
       CircuitBreaker.stateChanges :=
         CircuitBreaker.stateChanges this ++ [(oldState, newState)] |}.

Definition isAllowed (this : CircuitBreaker.t E) (now : Z)
  : bool * CircuitBreaker.t E :=
  match CircuitBreaker.state this with
  | CLOSED => (true, this)
  | OPEN =>
      let elapsed := now - CircuitBreaker.lastFailureTime this in
      if Config.resetTimeoutMs (CircuitBreaker.config this) <=? elapsed
      then (true, transitionTo this HALF_OPEN)
      else (false, this)
  | HALF_OPEN => (true, this)
  end.

Definition getRemainingTimeout (this : CircuitBreaker.t E) (now : Z) : Z :=
  match CircuitBreaker.state this with
  | OPEN =>
      let elapsed := now - CircuitBreaker.lastFailureTime this in
      Z.max 0 (Config.resetTimeoutMs (CircuitBreaker.config this) - elapsed)
  | _ => 0
  end.

Definition withSuccesses (this : CircuitBreaker.t E) (n : Z) : CircuitBreaker.t E :=
  {| CircuitBreaker.state := CircuitBreaker.state this;
     CircuitBreaker.failures := CircuitBreaker.failures this;
     CircuitBreaker.successes := n;
     CircuitBreaker.lastFailureTime := CircuitBreaker.lastFailureTime this;
     CircuitBreaker.config := CircuitBreaker.config this;
     CircuitBreaker.stateChanges := CircuitBreaker.stateChanges this |}.

Definition withFailures (this : CircuitBreaker.t E) (n : Z) (lastFailureTime : Z)
  : CircuitBreaker.t E :=
  {| CircuitBreaker.state := CircuitBreaker.state this;
     CircuitBreaker.failures := n;
     CircuitBreaker.successes := CircuitBreaker.successes this;
     CircuitBreaker.lastFailureTime := lastFailureTime;
     CircuitBreaker.config := CircuitBreaker.config this;
     CircuitBreaker.stateChanges := CircuitBreaker.stateChanges this |}.

Definition recordSuccess (this : CircuitBreaker.t E) : CircuitBreaker.t E :=
  match CircuitBreaker.state this with
  | HALF_OPEN =>
      let this := withSuccesses this (CircuitBreaker.successes this + 1) in
      if Config.successThreshold (CircuitBreaker.config this)
         <=? CircuitBreaker.successes this
      then transitionTo this CLOSED
      else this
  | CLOSED => withFailures this 0 (CircuitBreaker.lastFailureTime this)
  | OPEN => this
  end.

Definition recordFailure (this : CircuitBreaker.t E) (error : E) (now : Z)
  : CircuitBreaker.t E :=
  if negb (Config.isFailure (CircuitBreaker.config this) error) then this
  else
    let this := withFailures this (CircuitBreaker.failures this + 1) now in
    match CircuitBreaker.state this with
    | HALF_OPEN => transitionTo this OPEN
    | CLOSED =>
        if Config.failureThreshold (CircuitBreaker.config this)
           <=? CircuitBreaker.failures this
        then transitionTo this OPEN
        else this
    | OPEN => this
    end.

Definition reset (this : CircuitBreaker.t E) : CircuitBreaker.t E :=
  transitionTo this CLOSED.

(** [execute(fn)]: [fn] is the outcome of the call, used only when the call
    is made; [tAllowed], [tRemaining] and [tFailure] are the clock readings
    of [isAllowed], [getRemainingTimeout] and [recordFailure]. *)
Definition execute {T} (this : CircuitBreaker.t E) (fn : Settled T E)
           (tAllowed tRemaining tFailure : Z)
  : Settled T (Thrown E) * CircuitBreaker.t E :=
  let (allowed, this) := isAllowed this tAllowed in
  if negb allowed then
    (Rejected (CircuitOpenError (getRemainingTimeout this tRemaining)
                                (CircuitBreaker.failures this)), this)
  else
    match fn with
    | Fulfilled result => (Fulfilled result, recordSuccess this)
    | Rejected error => (Rejected (Raised error), recordFailure this error tFailure)
    end.

Definition withCircuitBreaker {A T} (fn : A -> Settled T E)
           (breaker : CircuitBreaker.t E) (args : A)
           (tAllowed tRemaining tFailure : Z)
  : Settled T (Thrown E) * CircuitBreaker.t E :=
  execute breaker (fn args) tAllowed tRemaining tFailure.

Definition RPC_CIRCUIT_BREAKER_CONFIG : CircuitBreakerConfig.t E :=
  {| CircuitBreakerConfig.failureThreshold := Some 5;
     CircuitBreakerConfig.resetTimeoutMs := Some 30000;
     CircuitBreakerConfig.successThreshold := Some 2;
     CircuitBreakerConfig.isFailure := None |}.

(** [{...a, ...b}] on one key: the later object wins when it has a value. *)
Definition spread {A} (a b : option A) : option A :=
  match b with Some _ => b | None => a end.

Definition createRpcCircuitBreaker (config : CircuitBreakerConfig.t E)
  : CircuitBreaker.t E :=
  newCircuitBreaker
    {| CircuitBreakerConfig.failureThreshold :=
         spread (CircuitBreakerConfig.failureThreshold RPC_CIRCUIT_BREAKER_CONFIG)
                (CircuitBreakerConfig.failureThreshold config);
       CircuitBreakerConfig.resetTimeoutMs :=
         spread (CircuitBreakerConfig.resetTimeoutMs RPC_CIRCUIT_BREAKER_CONFIG)
                (CircuitBreakerConfig.resetTimeoutMs config);
       CircuitBreakerConfig.successThreshold :=
         spread (CircuitBreakerConfig.successThreshold RPC_CIRCUIT_BREAKER_CONFIG)
                (CircuitBreakerConfig.successThreshold config);
       CircuitBreakerConfig.isFailure :=
         spread (CircuitBreakerConfig.isFailure RPC_CIRCUIT_BREAKER_CONFIG)
                (CircuitBreakerConfig.isFailure config) |}.

End Breaker.

(** *** The combined wrapper

    [withRetry] hands the breaker [result.error], which is absent when no
    attempt was made; the breaker therefore sees values of [option E]. *)

Section Resilient.

Variables T E : Type.
Variable messageOf : E -> option string.
Variable toLowerCase : string -> string.
Variable calculateDelay : Z -> Z -> Z -> Q -> Z.

Definition emptyRetryConfig : RetryConfig.t E :=
  {| RetryConfig.maxRetries := None;
     RetryConfig.baseDelayMs := None;
     RetryConfig.maxDelayMs := None;
     RetryConfig.jitterFactor := None;
     RetryConfig.isRetryable := None |}.

Definition resilient (fn : Z -> Settled T E)
           (retry : option (RetryConfig.t E))
           (circuitBreaker : option (CircuitBreaker.t (option E)))
           (tAllowed tRemaining tFailure : Z)
  : Settled (option T) (Thrown (option E))
    * option (CircuitBreaker.t (option E)) * list (Retry.t E) :=
  let retry := orElse retry emptyRetryConfig in
  let checked :=
    match circuitBreaker with
    | Some breaker =>
        let (allowed, breaker) := isAllowed breaker tAllowed in
        (allowed, Some breaker)
    | None => (true, None)
    end in
  match checked with
  | (false, circuitBreaker) =>
      (Rejected
         (CircuitOpenError
            (match circuitBreaker with
             | Some breaker => getRemainingTimeout breaker tRemaining
             | None => 0
             end)
            (match circuitBreaker with
             | Some breaker => getFailures breaker
             | None => 0
             end)),
       circuitBreaker, [])
  | (true, circuitBreaker) =>
      let (result, retries) :=
        withRetry messageOf toLowerCase calculateDelay fn retry in
      let circuitBreaker :=
        match circuitBreaker with
        | Some breaker =>
            Some (if RetryResult.success result then recordSuccess breaker
                  else recordFailure breaker (RetryResult.error result) tFailure)
        | None => None
        end in
      (if RetryResult.success result
       then Fulfilled (RetryResult.value result)
       else Rejected (Raised (RetryResult.error result)),
       circuitBreaker, retries)
  end.

Definition RPC_RETRY_CONFIG : RetryConfig.t E :=
  {| RetryConfig.maxRetries := Some 3;
     RetryConfig.baseDelayMs := Some 1000;
     RetryConfig.maxDelayMs := Some 10000;
     RetryConfig.jitterFactor := Some (2 # 10);
     RetryConfig.isRetryable :=
       Some (isDefaultRetryable messageOf toLowerCase) |}.

Definition resilientRpc (fn : Z -> Settled T E)
           (circuitBreaker : option (CircuitBreaker.t (option E)))
           (tAllowed tRemaining tFailure : Z) :=
  resilient fn (Some RPC_RETRY_CONFIG) circuitBreaker tAllowed tRemaining tFailure.

End Resilient.

End Resilience.

(* ------------------------------------------------------------------ *)
(** * Specification and proofs

    Everything above is the embedding of the program.  What follows states
    the properties of the specification and proves them. *)

(* ------------------------------------------------------------------ *)
(** ** Facts about the string primitives *)

Lemma startsWith_refl s : startsWith s s = true.
Proof.
  induction s as [|c s IH]; simpl; [reflexivity|].
  now rewrite Ascii.eqb_refl, IH.
Qed.

Lemma startsWith_app p s : startsWith p (p +++ s) = true.
Proof.
  induction p as [|c p IH]; simpl; [reflexivity|].
  now rewrite Ascii.eqb_refl, IH.
Qed.

Lemma startsWith_spec p s :
  startsWith p s = true <-> exists r, s = p +++ r.
Proof.
  split.
  - revert s; induction p as [|c p IH]; intros s H; simpl in *.
    + now exists s.
    + destruct s as [|d s]; [discriminate|].
      apply andb_true_iff in H as [Hc Hp].
      apply Ascii.eqb_eq in Hc; subst d.
      destruct (IH _ Hp) as [r ->]. now exists r.
  - intros [r ->]. apply startsWith_app.
Qed.

Example normalize_ex1 : NodePath.normalize "a/../b" = "b".
Proof. reflexivity. Qed.
Example normalize_ex2 : NodePath.normalize "../secret.txt" = "../secret.txt".
Proof. reflexivity. Qed.
Example normalize_ex3 : NodePath.normalize "a//b/./c/" = "a/b/c/".
Proof. reflexivity. Qed.
Example normalize_ex4 : NodePath.normalize "a/../../b" = "../b".
Proof. reflexivity. Qed.
Example resolve_ex1 : NodePath.resolve "/home/wt" ["runs/r1"; "evidence/manifest.json"]
                      = "/home/wt/runs/r1/evidence/manifest.json".
Proof. reflexivity. Qed.
Example resolve_ex2 : NodePath.resolve "/home/wt" ["/run"; "../etc"] = "/etc".
Proof. reflexivity. Qed.
Example dirname_ex1 : NodePath.dirname "/runs/r1/evidence/manifest.json" = "/runs/r1/evidence".
Proof. reflexivity. Qed.
Example dirname_ex2 : NodePath.dirname "/runs/r1/evidence" = "/runs/r1".
Proof. reflexivity. Qed.
Example dirname_ex3 : NodePath.dirname "/manifest.json" = "/".
Proof. reflexivity. Qed.
Example dirname_ex4 : NodePath.dirname "a/b/" = "a".
Proof. reflexivity. Qed.
Example dirname_ex5 : NodePath.dirname "a" = ".".
Proof. reflexivity. Qed.
Example safeJoin_ex1 : safeJoin "/home/wt" "/run" "a/../b" = Some "/run/b".
Proof. reflexivity. Qed.
Example safeJoin_ex2 : safeJoin "/home/wt" "/run" "../etc" = None.
Proof. reflexivity. Qed.

(* ------------------------------------------------------------------ *)
(** ** Path containment *)

(** [p] has a [..] segment. *)
Definition hasDotDotSegment (p : string) : bool :=
  existsb (String.eqb NodePath.dotdot) (split slash p).

(** Walking the segments of [p] from a directory [depth] levels below the
    starting point, some [..] steps above the starting point. *)
Fixpoint climbsAbove (depth : nat) (segs : list string) : bool :=
  match segs with
  | [] => false
  | seg :: rest =>
      if String.eqb seg EmptyString || String.eqb seg "." then
        climbsAbove depth rest
      else if String.eqb seg NodePath.dotdot then
        match depth with
        | O => true
        | S d => climbsAbove d rest
        end
      else climbsAbove (S depth) rest
  end.

Section NormalizeClimb.

Import NodePath.

(** The innermost-first stack ends in a [..] that nothing can pop. *)
Definition bottomDots (stack : list string) : Prop :=
  exists l, stack = l ++ [dotdot].

Lemma bottomDots_step stack seg :
  bottomDots stack -> bottomDots (normalizeStep true stack seg).
Proof.
  intros [l ->]. unfold normalizeStep.
  destruct (String.eqb seg EmptyString || String.eqb seg "."); [now exists l|].
  destruct (String.eqb seg dotdot).
  - destruct l as [|top below]; simpl.
    + now exists [dotdot].
    + destruct (String.eqb top dotdot).
      * now exists (dotdot :: top :: below).
      * now exists below.
  - now exists (seg :: l).
Qed.

Lemma bottomDots_fold segs : forall stack,
  bottomDots stack -> bottomDots (fold_left (normalizeStep true) segs stack).
Proof.
  induction segs as [|seg segs IH]; intros stack H; simpl; [exact H|].
  apply IH, bottomDots_step, H.
Qed.

(** The stack is [depth] ordinary segments on top of [..] segments only. *)
Definition stackShape (depth : nat) (stack : list string) : Prop :=
  exists ordinary ups,
    stack = ordinary ++ ups /\ List.length ordinary = depth /\
    Forall (fun s => String.eqb s dotdot = false) ordinary /\
    Forall (fun s => s = dotdot) ups.

Lemma allDots_bottomDots (ups : list string) :
  Forall (fun s => s = dotdot) ups -> ups <> [] -> bottomDots ups.
Proof.
  intros Hall Hne.
  destruct (exists_last Hne) as (l & u & ->).
  apply Forall_app in Hall as [_ Hu].
  inversion Hu; subst. now exists l.
Qed.

Lemma climbs_bottomDots segs : forall depth stack,
  stackShape depth stack ->
  climbsAbove depth segs = true ->
  bottomDots (fold_left (normalizeStep true) segs stack).
Proof.
  induction segs as [|seg segs IH]; intros depth stack Hs Hc; simpl in *;
    [discriminate|].
  unfold normalizeStep at 2.
  destruct (String.eqb seg EmptyString || String.eqb seg ".");
    [now apply IH with depth|].
  destruct (String.eqb seg dotdot) eqn:Hdd.
  - destruct Hs as (ordinary & ups & -> & Hlen & Hord & Hups).
    destruct depth as [|d].
    + destruct ordinary; [|discriminate]. simpl.
      apply bottomDots_fold.
      destruct ups as [|u ups]; [now exists []|].
      inversion Hups; subst. rewrite String.eqb_refl.
      apply allDots_bottomDots; [|discriminate].
      now repeat constructor.
    + destruct ordinary as [|top ordinary]; [discriminate|].
      inversion Hord; subst. simpl.
      match goal with H : String.eqb top dotdot = false |- _ => rewrite H end.
      apply IH with d; [|exact Hc].
      exists ordinary, ups. repeat split; auto.
  - apply IH with (S depth); [|exact Hc].
    destruct Hs as (ordinary & ups & -> & Hlen & Hord & Hups).
    exists (seg :: ordinary), ups. repeat split; simpl; auto.
Qed.

Lemma join_dotdot_head rest :
  startsWith ".." (join "/" (dotdot :: rest)) = true.
Proof. destruct rest; reflexivity. Qed.

(** A relative path that climbs above its starting directory normalizes to
    a path that begins with [..]. *)
Lemma normalize_climbs (p : string) :
  isAbsolute p = false ->
  climbsAbove 0 (split slash p) = true ->
  startsWith ".." (normalize p) = true.
Proof.
  intros Habs Hc.
  assert (Hn : startsWith ".." (normalizeString p true) = true).
  { unfold normalizeString, normalizeSegments.
    destruct (climbs_bottomDots (split slash p) (depth := 0) (stack := []))
      as [l Hl]; [now exists [], [] | exact Hc |].
    rewrite Hl, rev_app_distr. apply join_dotdot_head. }
  unfold normalize. rewrite Habs. simpl negb.
  destruct p as [|c p]; [discriminate Hc|]. simpl isEmpty. cbv iota.
  apply startsWith_spec in Hn as [r Hr]. rewrite Hr. simpl.
  destruct (hasTrailingSlash (String c p)); reflexivity.
Qed.

End NormalizeClimb.

(* ------------------------------------------------------------------ *)
(** ** Path containment: theorems *)

Lemma validate_rejects_absolute (p : string) :
  NodePath.isAbsolute p = true -> valid (validateRelativePath p) = false.
Proof.
  intros H. unfold validateRelativePath.
  destruct (isEmpty p); [reflexivity|]. now rewrite H.
Qed.

Lemma validate_rejects_climb (p : string) :
  climbsAbove 0 (split slash p) = true ->
  valid (validateRelativePath p) = false.
Proof.
  intros H. unfold validateRelativePath.
  destruct (isEmpty p); [reflexivity|].
  destruct (NodePath.isAbsolute p) eqn:Habs; [reflexivity|].
  now rewrite (normalize_climbs p Habs H).
Qed.

Lemma safeJoin_contained (cwd base p joined : string) :
  safeJoin cwd base p = Some joined ->
  joined = NodePath.resolve cwd [base] \/
  startsWith (NodePath.resolve cwd [base] +++ "/") joined = true.
Proof.
  unfold safeJoin.
  destruct (startsWith _ _) eqn:Hpre; simpl.
  - intros [= <-]. now right.
  - destruct (String.eqb _ _) eqn:Heq; simpl; [|discriminate].
    intros [= <-]. left. now apply String.eqb_eq.
Qed.

(** C2, as stated, fails: [a/../b] has a [..] segment, yet it passes
    [validateRelativePath] and [safeJoin] resolves it (to a path inside the
    base directory). *)
Lemma dotdot_segment_accepted :
  ~ (forall cwd base p : string,
        hasDotDotSegment p = true \/ NodePath.isAbsolute p = true ->
        valid (validateRelativePath p) = false \/ safeJoin cwd base p = None).
Proof.
  intros H.
  destruct (H "/home/wt" "/run" "a/../b") as [Hv | Hj].
  - left. reflexivity.
  - discriminate Hv.
  - discriminate Hj.
Qed.

(** C2 (amended): a path that is absolute, or whose [..] segments climb
    above the directory it starts from, is reported invalid by
    [validateRelativePath]; and whatever the path, [safeJoin] returns a
    result only when that result is the resolved base directory itself or
    lies under it (it starts with the resolved base followed by [/]). *)
Theorem path_containment (cwd base p : string) :
  (NodePath.isAbsolute p = true \/ climbsAbove 0 (split slash p) = true ->
   valid (validateRelativePath p) = false) /\
  (forall joined, safeJoin cwd base p = Some joined ->
     joined = NodePath.resolve cwd [base] \/
     startsWith (NodePath.resolve cwd [base] +++ "/") joined = true).
Proof.
  split.
  - intros [H | H];
      [now apply validate_rejects_absolute | now apply validate_rejects_climb].
  - intros joined. apply safeJoin_contained.
Qed.

Lemma path_containment_witness :
  valid (validateRelativePath "../secret.txt") = false /\
  valid (validateRelativePath "/etc/passwd") = false /\
  safeJoin "/home/wt" "/run" "a/../../x" = None /\
  startsWith (NodePath.resolve "/home/wt" ["/run"] +++ "/") "/run/artifacts/report.txt" = true.
Proof.
  destruct (path_containment "/home/wt" "/run" "../secret.txt") as [H1 _].
  destruct (path_containment "/home/wt" "/run" "/etc/passwd") as [H2 _].
  destruct (path_containment "/home/wt" "/run" "artifacts/report.txt") as [_ H3].
  split; [apply H1; right; reflexivity|].
  split; [apply H2; left; reflexivity|].
  split; [reflexivity|].
  destruct (H3 "/run/artifacts/report.txt" eq_refl) as [E | E];
    [discriminate E | exact E].
Defined.

(* ------------------------------------------------------------------ *)
(** ** The structural contract of a manifest, in the specification's words

    [manifestConforms doc m]: the document [doc] is an object that carries
    every declared field with the declared type and constraint, and [m]
    holds exactly those values. *)

Definition optionalString (v : option json) (o : option string) : Prop :=
  match v, o with
  | None, None => True
  | Some (JString s), Some s' => s = s'
  | _, _ => False
  end.

Definition artifactConforms (v : json) (a : ArtifactEntry.t) : Prop :=
  exists fields q,
    v = JObject fields /\
    getField "path" fields = Some (JString (ArtifactEntry.path a)) /\
    getField "sha256" fields = Some (JString (ArtifactEntry.sha256 a)) /\
    sha256Regex (ArtifactEntry.sha256 a) = true /\
    getField "bytes" fields = Some (JNumber q) /\
    Zod.isInteger q = true /\ Zod.isNonnegative q = true /\
    ArtifactEntry.bytes a = (Qnum q / Zpos (Qden q))%Z /\
    getField "contentType" fields = Some (JString (ArtifactEntry.contentType a)).

Definition policyConforms (v : option json) (p : PolicyDecision.t) : Prop :=
  exists fields,
    v = Some (JObject fields) /\
    getField "allowed" fields = Some (JBool (PolicyDecision.allowed p)) /\
    getField "reasons" fields =
      Some (JArray (List.map JString (PolicyDecision.reasons p))).

Definition summaryConforms (v : option json) (e : ExecutionSummary.t) : Prop :=
  exists fields,
    v = Some (JObject fields) /\
    getField "status" fields = Some (JString (ExecutionSummary.status e)) /\
    In (ExecutionSummary.status e) ["SUCCESS"; "FAILED"; "REFUSED"] /\
    optionalString (getField "error" fields) (ExecutionSummary.error e).

Definition solverConforms (v : option json) (s : SolverMetadata.t) : Prop :=
  exists fields,
    v = Some (JObject fields) /\
    getField "service" fields = Some (JString "irsb-solver") /\
    SolverMetadata.service s = "irsb-solver" /\
    getField "serviceVersion" fields =
      Some (JString (SolverMetadata.serviceVersion s)) /\
    optionalString (getField "gitCommit" fields) (SolverMetadata.gitCommit s).

Definition manifestConforms (datetimeRegex : string -> bool)
           (doc : json) (m : SolverReceiptV0.t) : Prop :=
  exists fields items,
    doc = JObject fields /\
    getField "manifestVersion" fields = Some (JString "0.1.0") /\
    SolverReceiptV0.manifestVersion m = "0.1.0" /\
    getField "intentId" fields = Some (JString (SolverReceiptV0.intentId m)) /\
    getField "runId" fields = Some (JString (SolverReceiptV0.runId m)) /\
    getField "jobType" fields = Some (JString (SolverReceiptV0.jobType m)) /\
    getField "createdAt" fields = Some (JString (SolverReceiptV0.createdAt m)) /\
    datetimeRegex (SolverReceiptV0.createdAt m) = true /\
    getField "artifacts" fields = Some (JArray items) /\
    Forall2 artifactConforms items (SolverReceiptV0.artifacts m) /\
    policyConforms (getField "policyDecision" fields)
                   (SolverReceiptV0.policyDecision m) /\
    summaryConforms (getField "executionSummary" fields)
                    (SolverReceiptV0.executionSummary m) /\
    solverConforms (getField "solver" fields) (SolverReceiptV0.solver m).

(* ------------------------------------------------------------------ *)
(** ** Facts about the zod combinators *)

Module ZodFacts.
Import Zod.

(** A failure always carries at least one issue. *)
Definition hasIssue {A} (r : SafeParseResult A) : Prop :=
  match r with
  | ParseFailure [] => False
  | _ => True
  end.

Lemma map_success {A B} (f : A -> B) r b :
  f <$> r = ParseSuccess b <-> exists a, r = ParseSuccess a /\ b = f a.
Proof.
  destruct r as [a|i]; simpl; split.
  - intros [= <-]. now exists a.
  - intros (a' & [= <-] & ->). reflexivity.
  - discriminate.
  - intros (a' & [=] & _).
Qed.

Lemma ap_success {A B} (rf : SafeParseResult (A -> B)) ra b :
  rf <*> ra = ParseSuccess b <->
  exists f a, rf = ParseSuccess f /\ ra = ParseSuccess a /\ b = f a.
Proof.
  destruct rf as [f|i], ra as [a|j]; simpl; split;
    try discriminate;
    try (intros (f' & a' & [=] & [=] & _); fail).
  - intros [= <-]. now exists f, a.
  - intros (f' & a' & [= <-] & [= <-] & ->). reflexivity.
Qed.

Lemma invalidType_failure {A} expected v b :
  @invalidType A expected v = ParseSuccess b -> False.
Proof. destruct v; discriminate. Qed.

Lemma string_success v s :
  string_ v = ParseSuccess s <-> v = Some (JString s).
Proof.
  split.
  - destruct v as [[]|]; simpl; try discriminate. now intros [= ->].
  - now intros ->.
Qed.

Lemma stringCheck_success check what v s :
  stringCheck check what v = ParseSuccess s <->
  v = Some (JString s) /\ check s = true.
Proof.
  split.
  - destruct v as [[]|]; simpl; try discriminate.
    destruct (check s0) eqn:E; [|discriminate]. now intros [= <-].
  - intros [-> E]. simpl. now rewrite E.
Qed.

Lemma literal_success lit v s :
  literal lit v = ParseSuccess s <-> v = Some (JString lit) /\ s = lit.
Proof.
  split.
  - destruct v as [[]|]; simpl; try discriminate.
    destruct (String.eqb s0 lit) eqn:E; [|discriminate].
    apply String.eqb_eq in E; subst. now intros [= <-].
  - intros [-> ->]. simpl. now rewrite String.eqb_refl.
Qed.

Lemma existsb_eqb_In (s : string) options :
  existsb (String.eqb s) options = true <-> In s options.
Proof.
  rewrite existsb_exists. split.
  - intros (x & Hin & E). apply String.eqb_eq in E. now subst.
  - intros Hin. exists s. split; [exact Hin | apply String.eqb_refl].
Qed.

Lemma enum_success options v s :
  enum options v = ParseSuccess s <-> v = Some (JString s) /\ In s options.
Proof.
  split.
  - destruct v as [[]|]; simpl; try discriminate;
      try (now intros H; apply invalidType_failure in H).
    destruct (existsb (String.eqb s0) options) eqn:E; [|discriminate].
    intros [= <-]. split; [reflexivity | now apply existsb_eqb_In].
  - intros [-> Hin]. simpl. apply existsb_eqb_In in Hin. now rewrite Hin.
Qed.

Lemma boolean_success v b :
  boolean v = ParseSuccess b <-> v = Some (JBool b).
Proof.
  split.
  - destruct v as [[]|]; simpl; try discriminate. now intros [= ->].
  - now intros ->.
Qed.

Lemma intNonnegative_success v n :
  intNonnegative v = ParseSuccess n <->
  exists q, v = Some (JNumber q) /\ isInteger q = true /\
            isNonnegative q = true /\ n = (Qnum q / Zpos (Qden q))%Z.
Proof.
  split.
  - destruct v as [[]|]; simpl; try discriminate.
    destruct (isInteger q) eqn:Ei, (isNonnegative q) eqn:En; simpl;
      try discriminate.
    intros [= <-]. now exists q.
  - intros (q & -> & Ei & En & ->). simpl. now rewrite Ei, En.
Qed.

Lemma arrayItems_success {A} (element : Schema A) items l :
  arrayItems element items = ParseSuccess l <->
  Forall2 (fun item a => element (Some item) = ParseSuccess a) items l.
Proof.
  revert l. induction items as [|item items IH]; intros l; simpl.
  - split.
    + intros [= <-]. constructor.
    + intros H. inversion H. reflexivity.
  - rewrite ap_success. split.
    + intros (f & a & Hf & Ha & ->).
      apply map_success in Hf as (x & Hx & ->).
      constructor; [exact Hx | now apply IH].
    + intros H. inversion H as [|? y ? l' Hx Hl]; subst.
      exists (cons y), l'. repeat split.
      * now rewrite Hx.
      * now apply IH.
Qed.

Lemma array_success {A} (element : Schema A) v l :
  array element v = ParseSuccess l <->
  exists items, v = Some (JArray items) /\
    Forall2 (fun item a => element (Some item) = ParseSuccess a) items l.
Proof.
  split.
  - destruct v as [[]|]; simpl; try discriminate.
    intros H. exists items. split; [reflexivity | now apply arrayItems_success].
  - intros (items & -> & H). now apply arrayItems_success.
Qed.

Lemma optional_string_success v o :
  optional string_ v = ParseSuccess o <-> optionalString v o.
Proof.
  unfold optional, optionalString. split.
  - destruct v as [[]|]; simpl; try discriminate.
    + now intros [= <-].
    + now intros [= <-].
  - destruct v as [[]|], o; simpl; try tauto. now intros ->.
Qed.

Lemma object_success {A} (shape : (string -> option json) -> SafeParseResult A) v a :
  object shape v = ParseSuccess a <->
  exists fields, v = Some (JObject fields) /\
                 shape (fun key => getField key fields) = ParseSuccess a.
Proof.
  split.
  - destruct v as [[]|]; simpl; try discriminate.
    intros H. now exists fields.
  - intros (fields & -> & H). exact H.
Qed.

(** *** Failures are never empty *)

Lemma hasIssue_map {A B} (f : A -> B) r : hasIssue r -> hasIssue (f <$> r).
Proof. now destruct r. Qed.

Lemma hasIssue_ap {A B} (rf : SafeParseResult (A -> B)) ra :
  hasIssue rf -> hasIssue ra -> hasIssue (rf <*> ra).
Proof.
  destruct rf as [f|[|i il]], ra as [a|[|j jl]]; simpl; tauto.
Qed.

Lemma hasIssue_invalidType {A} expected v : hasIssue (@invalidType A expected v).
Proof. now destruct v. Qed.

Lemma hasIssue_string v : hasIssue (string_ v).
Proof. now destruct v as [[]|]. Qed.

Lemma hasIssue_stringCheck check what v : hasIssue (stringCheck check what v).
Proof. destruct v as [[]|]; simpl; auto. now destruct (check s). Qed.

Lemma hasIssue_literal lit v : hasIssue (literal lit v).
Proof. destruct v as [[]|]; simpl; auto. now destruct (String.eqb s lit). Qed.

Lemma hasIssue_enum options v : hasIssue (enum options v).
Proof.
  destruct v as [[]|]; simpl; auto.
  now destruct (existsb (String.eqb s) options).
Qed.

Lemma hasIssue_boolean v : hasIssue (boolean v).
Proof. now destruct v as [[]|]. Qed.

Lemma hasIssue_intNonnegative v : hasIssue (intNonnegative v).
Proof.
  destruct v as [[]|]; simpl; auto.
  now destruct (isInteger q), (isNonnegative q).
Qed.

Lemma hasIssue_array {A} (element : Schema A) v :
  (forall w, hasIssue (element w)) -> hasIssue (array element v).
Proof.
  intros He. destruct v as [[]|]; simpl; auto.
  induction items as [|item items IH]; simpl; [exact I|].
  apply hasIssue_ap; [apply hasIssue_map, He | exact IH].
Qed.

Lemma hasIssue_optional {A} (schema : Schema A) v :
  (forall w, hasIssue (schema w)) -> hasIssue (optional schema v).
Proof.
  intros Hs. destruct v; simpl; [apply hasIssue_map, Hs | exact I].
Qed.

Lemma hasIssue_object {A} (shape : (string -> option json) -> SafeParseResult A) v :
  (forall get, hasIssue (shape get)) -> hasIssue (object shape v).
Proof. intros Hs. destruct v as [[]|]; simpl; auto. Qed.

End ZodFacts.

Create HintDb zod.

#[export] Hint Resolve
  ZodFacts.hasIssue_map ZodFacts.hasIssue_ap ZodFacts.hasIssue_invalidType
  ZodFacts.hasIssue_string ZodFacts.hasIssue_stringCheck
  ZodFacts.hasIssue_literal ZodFacts.hasIssue_enum ZodFacts.hasIssue_boolean
  ZodFacts.hasIssue_intNonnegative ZodFacts.hasIssue_array
  ZodFacts.hasIssue_optional ZodFacts.hasIssue_object : zod.

(* ------------------------------------------------------------------ *)
(** ** Schema validation is all-or-nothing *)

Module SchemaFacts.
Import Zod ZodFacts.

Ltac zinv :=
  repeat match goal with
  | H : _ <*> _ = ParseSuccess _ |- _ =>
      apply ap_success in H; destruct H as (? & ? & ? & ? & ?)
  | H : _ <$> _ = ParseSuccess _ |- _ =>
      apply map_success in H; destruct H as (? & ? & ?)
  | H : object _ _ = ParseSuccess _ |- _ =>
      apply object_success in H; destruct H as (? & ? & ?)
  | H : string_ _ = ParseSuccess _ |- _ => apply string_success in H
  | H : stringCheck _ _ _ = ParseSuccess _ |- _ =>
      apply stringCheck_success in H; destruct H as (? & ?)
  | H : literal _ _ = ParseSuccess _ |- _ =>
      apply literal_success in H; destruct H as (? & ?)
  | H : enum _ _ = ParseSuccess _ |- _ =>
      apply enum_success in H; destruct H as (? & ?)
  | H : boolean _ = ParseSuccess _ |- _ => apply boolean_success in H
  | H : intNonnegative _ = ParseSuccess _ |- _ =>
      apply intNonnegative_success in H; destruct H as (? & ? & ? & ? & ?)
  | H : optional string_ _ = ParseSuccess _ |- _ =>
      apply optional_string_success in H
  | H : array _ _ = ParseSuccess _ |- _ =>
      apply array_success in H; destruct H as (? & ? & ?)
  | H : Some _ = Some _ |- _ => injection H as H
  | H : JObject _ = JObject _ |- _ => injection H as H
  end; subst.

Lemma strings_Forall2 items l :
  Forall2 (fun item a => string_ (Some item) = ParseSuccess a) items l <->
  items = List.map JString l.
Proof.
  split.
  - induction 1 as [|item a items l H _ IH]; [reflexivity|].
    apply string_success in H. injection H as ->. simpl. now rewrite IH.
  - intros ->. induction l; simpl; constructor; auto.
Qed.

Lemma artifact_success v a :
  ArtifactEntrySchema (Some v) = ParseSuccess a <-> artifactConforms v a.
Proof.
  unfold ArtifactEntrySchema, artifactConforms. split.
  - intros H. zinv. simpl in *.
    match goal with
    | Hb : getField "bytes" ?f = Some (JNumber ?q) |- _ => exists f, q
    end.
    repeat split; assumption.
  - intros (fields & q & -> & Hp & Hs & Hre & Hb & Hi & Hn & Hv & Hc).
    simpl. rewrite Hp, Hs, Hb, Hc. simpl. rewrite Hre, Hi, Hn. simpl.
    rewrite <- Hv. now destruct a.
Qed.

Lemma policy_success v p :
  PolicyDecisionSchema v = ParseSuccess p <-> policyConforms v p.
Proof.
  unfold PolicyDecisionSchema, policyConforms. split.
  - intros H. zinv. simpl in *.
    match goal with
    | Hf : Forall2 _ _ _ |- _ => apply strings_Forall2 in Hf; subst
    end.
    eexists. repeat split; eassumption.
  - intros (fields & -> & Ha & Hr).
    simpl. rewrite Ha, Hr. simpl.
    rewrite (proj2 (arrayItems_success string_ _ _)
               (proj2 (strings_Forall2 _ _) eq_refl)).
    now destruct p.
Qed.

Lemma summary_success v e :
  ExecutionSummarySchema v = ParseSuccess e <-> summaryConforms v e.
Proof.
  unfold ExecutionSummarySchema, summaryConforms. split.
  - intros H. zinv. simpl in *.
    eexists. repeat split; eassumption.
  - intros (fields & -> & Hs & Hin & Ho).
    simpl. rewrite Hs.
    rewrite (proj2 (enum_success _ _ _) (conj eq_refl Hin)).
    rewrite (proj2 (optional_string_success _ _) Ho). simpl.
    now destruct e.
Qed.

Lemma solver_success v s :
  SolverMetadataSchema v = ParseSuccess s <-> solverConforms v s.
Proof.
  unfold SolverMetadataSchema, solverConforms. split.
  - intros H. zinv. simpl in *.
    eexists. repeat split; eassumption.
  - intros (fields & -> & Hs & Hsv & Hv & Ho).
    simpl. rewrite Hs, Hv.
    rewrite (proj2 (optional_string_success _ _) Ho). simpl.
    destruct s; simpl in *. now subst.
Qed.

Lemma artifacts_Forall2 items l :
  Forall2 (fun item a => ArtifactEntrySchema (Some item) = ParseSuccess a) items l
  <-> Forall2 artifactConforms items l.
Proof.
  split; intros H; eapply Forall2_impl; try exact H;
    intros item a; apply artifact_success.
Qed.

Lemma manifest_success re doc m :
  safeParse re doc = ParseSuccess m <-> manifestConforms re doc m.
Proof.
  unfold safeParse, SolverReceiptV0Schema, manifestConforms. split.
  - intros H.
    apply object_success in H as (fields & [= ->] & H).
    repeat (apply ap_success in H; destruct H as (? & ? & H & ? & ?)).
    apply map_success in H as (? & H & ?). subst.
    match goal with
    | Hp : PolicyDecisionSchema _ = _,
      He : ExecutionSummarySchema _ = _,
      Hs : SolverMetadataSchema _ = _ |- _ =>
        apply policy_success in Hp; apply summary_success in He;
        apply solver_success in Hs
    end.
    zinv. simpl in *.
    match goal with
    | Hf : Forall2 _ ?items _ |- _ =>
        apply artifacts_Forall2 in Hf; exists fields, items
    end.
    repeat split; assumption.
  - intros (fields & items & -> & Hv & Hv' & Hi & Hr & Hj & Hc & Hd & Ha
            & Hf & Hp & He & Hs).
    simpl. rewrite Hv, Hi, Hr, Hj, Hc, Ha. simpl. rewrite Hd.
    rewrite (proj2 (arrayItems_success _ _ _) (proj2 (artifacts_Forall2 _ _) Hf)).
    rewrite (proj2 (policy_success _ _) Hp).
    rewrite (proj2 (summary_success _ _) He).
    rewrite (proj2 (solver_success _ _) Hs). simpl.
    destruct m; simpl in *. now subst.
Qed.

Lemma safeParse_hasIssue re doc : hasIssue (safeParse re doc).
Proof.
  unfold safeParse, SolverReceiptV0Schema, ArtifactEntrySchema,
    PolicyDecisionSchema, ExecutionSummarySchema, SolverMetadataSchema.
  apply hasIssue_object. intros get.
  repeat first
    [ apply hasIssue_ap | apply hasIssue_map | apply hasIssue_object; intros ?
    | apply hasIssue_array; intros ? | apply hasIssue_optional; intros ? ];
    auto with zod.
Qed.

End SchemaFacts.

(** C3: schema validation is total and all-or-nothing.  For every document,
    [safeParse] either succeeds with a manifest that satisfies the whole
    declared contract ([manifestVersion] is ["0.1.0"], every artifact hash
    matches [^[a-f0-9]{64}$], every [bytes] is a non-negative integer,
    [status] is one of the three literals, [solver.service] is
    ["irsb-solver"], ...), or it fails with at least one issue, and then no
    manifest at all conforms to the document: nothing is accepted in part. *)
Theorem schema_validation_all_or_nothing
        (datetimeRegex : string -> bool) (doc : json) :
  (exists m, safeParse datetimeRegex doc = Zod.ParseSuccess m /\
             manifestConforms datetimeRegex doc m) \/
  (exists issues, safeParse datetimeRegex doc = Zod.ParseFailure issues /\
                  issues <> [] /\
                  forall m, ~ manifestConforms datetimeRegex doc m).
Proof.
  destruct (safeParse datetimeRegex doc) as [m|issues] eqn:E.
  - left. exists m. split; [reflexivity|].
    now apply SchemaFacts.manifest_success.
  - right. exists issues. split; [reflexivity|]. split.
    + pose proof (SchemaFacts.safeParse_hasIssue datetimeRegex doc) as H.
      rewrite E in H. intros ->. exact H.
    + intros m Hm. apply SchemaFacts.manifest_success in Hm. congruence.
Qed.

Section SchemaExamples.

Variable datetimeRegex : string -> bool.

Definition hex64 (c : ascii) : string :=
  string_of_list_ascii (List.repeat c 64).

Definition exampleArtifact (path hash : string) (size : Z) : json :=
  JObject [("path", JString path); ("sha256", JString hash);
           ("bytes", JNumber (inject_Z size)); ("contentType", JString "text/plain")].

Definition exampleManifest (version service status : string)
           (artifacts : list json) : json :=
  JObject [("manifestVersion", JString version);
           ("intentId", JString "intent-001");
           ("runId", JString "run-001");
           ("jobType", JString "diagnostic");
           ("createdAt", JString "2025-01-15T12:00:00Z");
           ("artifacts", JArray artifacts);
           ("policyDecision", JObject [("allowed", JBool true); ("reasons", JArray [])]);
           ("executionSummary", JObject [("status", JString status)]);
           ("solver", JObject [("service", JString service);
                               ("serviceVersion", JString "1.0.0")])].

Hypothesis datetime_ok : datetimeRegex "2025-01-15T12:00:00Z" = true.

Example good_manifest_accepted :
  exists m,
    safeParse datetimeRegex
      (exampleManifest "0.1.0" "irsb-solver" "SUCCESS"
         [exampleArtifact "a.txt" (hex64 "a") 5]) = Zod.ParseSuccess m /\
    SolverReceiptV0.intentId m = "intent-001".
Proof.
  eexists. unfold safeParse, SolverReceiptV0Schema. simpl.
  rewrite datetime_ok. simpl. split; reflexivity.
Qed.

Example bad_hash_rejected :
  exists issues,
    safeParse datetimeRegex
      (exampleManifest "0.1.0" "irsb-solver" "SUCCESS"
         [exampleArtifact "a.txt" "not-a-hash" 5]) = Zod.ParseFailure issues.
Proof.
  eexists. unfold safeParse, SolverReceiptV0Schema. simpl.
  rewrite datetime_ok. simpl. reflexivity.
Qed.

Example negative_bytes_rejected :
  exists issues,
    safeParse datetimeRegex
      (exampleManifest "0.1.0" "irsb-solver" "SUCCESS"
         [exampleArtifact "a.txt" (hex64 "a") (-1)]) = Zod.ParseFailure issues.
Proof.
  eexists. unfold safeParse, SolverReceiptV0Schema. simpl.
  rewrite datetime_ok. simpl. reflexivity.
Qed.

Example fractional_bytes_rejected :
  exists issues,
    safeParse datetimeRegex
      (exampleManifest "0.1.0" "irsb-solver" "SUCCESS"
         [JObject [("path", JString "a.txt"); ("sha256", JString (hex64 "a"));
                   ("bytes", JNumber (3 # 2)); ("contentType", JString "text/plain")]])
    = Zod.ParseFailure issues.
Proof.
  eexists. unfold safeParse, SolverReceiptV0Schema. simpl.
  rewrite datetime_ok. simpl. reflexivity.
Qed.

Example wrong_version_rejected :
  exists issues,
    safeParse datetimeRegex (exampleManifest "0.2.0" "irsb-solver" "SUCCESS" [])
    = Zod.ParseFailure issues.
Proof.
  eexists. unfold safeParse, SolverReceiptV0Schema. simpl.
  rewrite datetime_ok. simpl. reflexivity.
Qed.

Example wrong_status_rejected :
  exists issues,
    safeParse datetimeRegex (exampleManifest "0.1.0" "irsb-solver" "DONE" [])
    = Zod.ParseFailure issues.
Proof.
  eexists. unfold safeParse, SolverReceiptV0Schema. simpl.
  rewrite datetime_ok. simpl. reflexivity.
Qed.

Example wrong_service_rejected :
  exists issues,
    safeParse datetimeRegex (exampleManifest "0.1.0" "other-solver" "SUCCESS" [])
    = Zod.ParseFailure issues.
Proof.
  eexists. unfold safeParse, SolverReceiptV0Schema. simpl.
  rewrite datetime_ok. simpl. reflexivity.
Qed.

End SchemaExamples.

Example canonical_ex1 :
  Canonical.canonicalJson
    (JObject [("b", JNumber (1 # 10)); ("a", JArray [JNumber 3; JNull; JString "x"])])
  = "{" +++ Canonical.quote "a" +++ ":[3,null," +++ Canonical.quote "x" +++ "],"
        +++ Canonical.quote "b" +++ ":0.1}".
Proof. reflexivity. Qed.

(* ------------------------------------------------------------------ *)
(** ** The same document up to the insertion order of keys *)

Inductive optionRel {A : Type} (R : A -> A -> Prop) : option A -> option A -> Prop :=
| optionRel_None : optionRel R None None
| optionRel_Some a b : R a b -> optionRel R (Some a) (Some b).

(** [sameJson a b]: [a] and [b] are the same JSON value, except that at
    every nesting level the keys of an object may have been inserted in a
    different order: looking a key up gives the same answer in both. *)
Inductive sameJson : json -> json -> Prop :=
| same_null : sameJson JNull JNull
| same_bool b : sameJson (JBool b) (JBool b)
| same_number q : sameJson (JNumber q) (JNumber q)
| same_string s : sameJson (JString s) (JString s)
| same_array items1 items2 :
    Forall2 sameJson items1 items2 -> sameJson (JArray items1) (JArray items2)
| same_object fields1 fields2 :
    (forall key, optionRel sameJson (getField key fields1) (getField key fields2)) ->
    sameJson (JObject fields1) (JObject fields2).

Module KeyOrder.
Import Zod.

Definition respects {A} (schema : Schema A) : Prop :=
  forall v1 v2, optionRel sameJson v1 v2 -> schema v1 = schema v2.

Ltac same_inv :=
  match goal with
  | H : optionRel sameJson _ _ |- _ =>
      inversion H as [|? ? Hs]; subst; clear H;
      [reflexivity | inversion Hs; subst; simpl; try reflexivity]
  end.

Lemma respects_string : respects string_.
Proof. intros v1 v2 H. same_inv. Qed.

Lemma respects_stringCheck check what : respects (stringCheck check what).
Proof. intros v1 v2 H. same_inv. Qed.

Lemma respects_literal lit : respects (literal lit).
Proof. intros v1 v2 H. same_inv. Qed.

Lemma respects_enum options : respects (enum options).
Proof. intros v1 v2 H. same_inv. Qed.

Lemma respects_boolean : respects boolean.
Proof. intros v1 v2 H. same_inv. Qed.

Lemma respects_intNonnegative : respects intNonnegative.
Proof. intros v1 v2 H. same_inv. Qed.

Lemma respects_optional {A} (schema : Schema A) :
  respects schema -> respects (optional schema).
Proof.
  intros Hs v1 v2 H. unfold optional.
  inversion H; subst; [reflexivity|].
  f_equal. apply Hs. now constructor.
Qed.

Lemma arrayItems_sameJson {A} (element : Schema A) items1 items2 :
  respects element -> Forall2 sameJson items1 items2 ->
  arrayItems element items1 = arrayItems element items2.
Proof.
  intros He Hf.
  induction Hf as [|x y l1 l2 Hxy _ IH]; simpl; [reflexivity|].
  rewrite (He (Some x) (Some y)) by now constructor.
  now rewrite IH.
Qed.

Lemma respects_array {A} (element : Schema A) :
  respects element -> respects (array element).
Proof.
  intros He v1 v2 H.
  inversion H as [|a b Hs]; subst; [reflexivity|].
  inversion Hs; subst; simpl; try reflexivity.
  now apply arrayItems_sameJson.
Qed.

Lemma respects_object {A} (shape : (string -> option json) -> SafeParseResult A) :
  (forall get1 get2,
      (forall key, optionRel sameJson (get1 key) (get2 key)) ->
      shape get1 = shape get2) ->
  respects (object shape).
Proof.
  intros Hshape v1 v2 H.
  inversion H as [|a b Hs]; subst; [reflexivity|].
  inversion Hs; subst; simpl; try reflexivity.
  now apply Hshape.
Qed.

Ltac shape_congruence :=
  let get1 := fresh "get1" in
  let get2 := fresh "get2" in
  let Hget := fresh "Hget" in
  intros get1 get2 Hget;
  repeat match goal with
         | |- _ <*> _ = _ <*> _ => f_equal
         | |- _ <$> _ = _ <$> _ => f_equal
         end.

Lemma respects_artifact : respects ArtifactEntrySchema.
Proof.
  apply respects_object. shape_congruence.
  - apply respects_string, Hget.
  - apply respects_stringCheck, Hget.
  - apply respects_intNonnegative, Hget.
  - apply respects_string, Hget.
Qed.

Lemma respects_policy : respects PolicyDecisionSchema.
Proof.
  apply respects_object. shape_congruence.
  - apply respects_boolean, Hget.
  - apply respects_array, Hget. apply respects_string.
Qed.

Lemma respects_summary : respects ExecutionSummarySchema.
Proof.
  apply respects_object. shape_congruence.
  - apply respects_enum, Hget.
  - apply respects_optional, Hget. apply respects_string.
Qed.

Lemma respects_solver : respects SolverMetadataSchema.
Proof.
  apply respects_object. shape_congruence.
  - apply respects_literal, Hget.
  - apply respects_string, Hget.
  - apply respects_optional, Hget. apply respects_string.
Qed.

Lemma respects_manifest re : respects (SolverReceiptV0Schema re).
Proof.
  apply respects_object. shape_congruence.
  - apply respects_literal, Hget.
  - apply respects_string, Hget.
  - apply respects_string, Hget.
  - apply respects_string, Hget.
  - apply respects_stringCheck, Hget.
  - apply respects_array, Hget. apply respects_artifact.
  - apply respects_policy, Hget.
  - apply respects_summary, Hget.
  - apply respects_solver, Hget.
Qed.

(** Validation does not see the order in which keys were inserted. *)
Lemma safeParse_sameJson re doc1 doc2 :
  sameJson doc1 doc2 -> safeParse re doc1 = safeParse re doc2.
Proof.
  intros H. unfold safeParse. apply respects_manifest. now constructor.
Qed.

End KeyOrder.

(* ------------------------------------------------------------------ *)
(** ** Sorting facts *)

Module JsArrayFacts.
Section Sort.

Variable A : Type.
Variable compareFn : A -> A -> comparison.


(** [a] does not come after [b]. *)
Definition inOrder (a b : A) : Prop := compareFn a b <> Gt.

Lemma notAfter_inOrder a b : JsArray.notAfter compareFn a b = true <-> inOrder a b.
Proof.
  unfold JsArray.notAfter, inOrder.
  destruct (compareFn a b); split; congruence.
Qed.

Lemma insert_perm x l : Permutation (JsArray.insert compareFn x l) (x :: l).
Proof.
  induction l as [|y l IH]; simpl; [reflexivity|].
  destruct (JsArray.notAfter compareFn x y); [reflexivity|].
  rewrite IH. apply perm_swap.
Qed.

Lemma sort_perm l : Permutation (JsArray.sort compareFn l) l.
Proof.
  induction l as [|x l IH]; simpl; [reflexivity|].
  rewrite insert_perm. now constructor.
Qed.

Lemma sort_In x l : In x (JsArray.sort compareFn l) <-> In x l.
Proof.
  split; apply Permutation_in; [apply sort_perm | symmetry; apply sort_perm].
Qed.

Lemma sort_length l : List.length (JsArray.sort compareFn l) = List.length l.
Proof. apply Permutation_length, sort_perm. Qed.

Lemma sort_nil_iff l : JsArray.sort compareFn l = [] <-> l = [].
Proof.
  split; [|now intros ->].
  intros H. pose proof (sort_length l) as Hl. rewrite H in Hl.
  destruct l; [reflexivity | discriminate].
Qed.

(** A comparator never says "after" in both directions. *)
Hypothesis compareFn_total : forall a b, compareFn a b = Gt -> compareFn b a <> Gt.

Lemma insert_HdRel a x l :
  inOrder a x -> HdRel inOrder a l -> HdRel inOrder a (JsArray.insert compareFn x l).
Proof.
  intros Hax Hal. destruct l as [|y l]; simpl; [now constructor|].
  destruct (JsArray.notAfter compareFn x y); constructor; auto.
  now inversion Hal.
Qed.

Lemma insert_sorted x l : Sorted inOrder l -> Sorted inOrder (JsArray.insert compareFn x l).
Proof.
  induction 1 as [|y l Hs IH Hhd]; simpl; [repeat constructor|].
  destruct (JsArray.notAfter compareFn x y) eqn:E.
  - constructor; [now constructor|]. constructor. now apply notAfter_inOrder.
  - constructor; [exact IH|].
    apply insert_HdRel; [|exact Hhd].
    apply compareFn_total. unfold JsArray.notAfter in E.
    now destruct (compareFn x y).
Qed.

Lemma sort_sorted l : Sorted inOrder (JsArray.sort compareFn l).
Proof.
  induction l as [|x l IH]; simpl; [constructor | now apply insert_sorted].
Qed.

End Sort.
End JsArrayFacts.

(* ------------------------------------------------------------------ *)
(** ** Byte-order collation

    The ordering of strings by their code units is one consistent
    collation; the worked examples below run with it. *)

Module ByteOrder.

Lemma compare_refl (a : string) : String.compare a a = Eq.
Proof. now apply String_as_OT.cmp_eq. Qed.

Lemma compare_antisym (a b : string) :
  String.compare b a = CompOpp (String.compare a b).
Proof. apply String.compare_antisym. Qed.

Lemma compare_trans (a b c : string) :
  String.compare a b <> Gt -> String.compare b c <> Gt -> String.compare a c <> Gt.
Proof.
  intros Hab Hbc.
  destruct (String.compare a b) eqn:Eab; [| |congruence].
  - apply String_as_OT.cmp_eq in Eab. now subst.
  - destruct (String.compare b c) eqn:Ebc; [| |congruence].
    + apply String_as_OT.cmp_eq in Ebc. subst. congruence.
    + apply String_as_OT.cmp_lt in Eab, Ebc.
      pose proof (String_as_OT.lt_trans _ _ _ Eab Ebc) as Hac.
      apply String_as_OT.cmp_lt in Hac.
      unfold String_as_OT.cmp in Hac. congruence.
Qed.

Definition collation : Collation :=
  {| localeCompare := String.compare;
     localeCompare_refl := compare_refl;
     localeCompare_antisym := compare_antisym;
     localeCompare_trans := compare_trans |}.

End ByteOrder.

(* ------------------------------------------------------------------ *)
(** ** Structural induction on JSON values and key-order lemmas *)

Section JsonInduction.

Variable P : json -> Prop.
Hypothesis Hnull : P JNull.
Hypothesis Hbool : forall b, P (JBool b).
Hypothesis Hnumber : forall q, P (JNumber q).
Hypothesis Hstring : forall s, P (JString s).
Hypothesis Harray : forall items, Forall P items -> P (JArray items).
Hypothesis Hobject :
  forall fields, Forall (fun kv => P (snd kv)) fields -> P (JObject fields).

Fixpoint json_induction (v : json) : P v :=
  match v with
  | JNull => Hnull
  | JBool b => Hbool b
  | JNumber q => Hnumber q
  | JString s => Hstring s
  | JArray items =>
      Harray
        ((fix all (l : list json) : Forall P l :=
            match l with
            | [] => Forall_nil P
            | x :: rest => Forall_cons x (json_induction x) (all rest)
            end) items)
  | JObject fields =>
      Hobject
        ((fix all (l : list (string * json)) : Forall (fun kv => P (snd kv)) l :=
            match l with
            | [] => Forall_nil _
            | kv :: rest =>
                Forall_cons kv
                  (match kv as kv0 return P (snd kv0) with
                   | (_, x) => json_induction x
                   end)
                  (all rest)
            end) fields)
  end.

End JsonInduction.

Lemma sameJson_refl (v : json) : sameJson v v.
Proof.
  induction v using json_induction; try constructor.
  - induction H; constructor; auto.
  - intros key. induction H as [|[k x] fields Hx _ IH]; simpl.
    + constructor.
    + destruct (String.eqb k key); [now constructor | exact IH].
Qed.

Lemma getField_In key v fields :
  NoDup (List.map fst fields) -> In (key, v) fields -> getField key fields = Some v.
Proof.
  induction fields as [|[k x] fields IH]; simpl; intros Hnd Hin; [contradiction|].
  inversion Hnd as [|? ? Hk Hnd']; subst.
  destruct Hin as [[= -> ->] | Hin].
  - now rewrite String.eqb_refl.
  - destruct (String.eqb k key) eqn:E; [|now apply IH].
    apply String.eqb_eq in E; subst. exfalso. apply Hk.
    now apply (in_map fst) in Hin.
Qed.

Lemma getField_Some key v fields :
  getField key fields = Some v -> In (key, v) fields.
Proof.
  induction fields as [|[k x] fields IH]; simpl; [discriminate|].
  destruct (String.eqb k key) eqn:E.
  - apply String.eqb_eq in E; subst. intros [= ->]. now left.
  - intros H. right. now apply IH.
Qed.

Lemma getField_None key fields :
  getField key fields = None <-> ~ In key (List.map fst fields).
Proof.
  induction fields as [|[k x] fields IH]; simpl; [tauto|].
  destruct (String.eqb k key) eqn:E.
  - apply String.eqb_eq in E. split; [discriminate | tauto].
  - apply String.eqb_neq in E. tauto.
Qed.

(** Inserting the same distinct keys in another order does not change what
    a lookup returns. *)
Lemma getField_permutation key fields1 fields2 :
  NoDup (List.map fst fields1) -> Permutation fields1 fields2 ->
  getField key fields1 = getField key fields2.
Proof.
  intros Hnd Hp.
  assert (Hnd2 : NoDup (List.map fst fields2))
    by (eapply Permutation_NoDup; [apply Permutation_map, Hp | exact Hnd]).
  destruct (getField key fields1) as [v|] eqn:E.
  - symmetry. apply getField_In; [exact Hnd2|].
    eapply Permutation_in; [exact Hp | now apply getField_Some].
  - symmetry. apply getField_None. apply getField_None in E.
    intros Hin. apply E.
    eapply Permutation_in; [symmetry; apply Permutation_map, Hp | exact Hin].
Qed.

Lemma sameJson_permuted fields1 fields2 :
  NoDup (List.map fst fields1) -> Permutation fields1 fields2 ->
  sameJson (JObject fields1) (JObject fields2).
Proof.
  intros Hnd Hp. constructor. intros key.
  rewrite <- (getField_permutation key Hnd Hp).
  destruct (getField key fields1); constructor. apply sameJson_refl.
Qed.

Lemma codeEqb_eq a b : codeEqb a b = true <-> a = b.
Proof.
  split; [|intros ->; apply String.eqb_refl].
  destruct a, b; simpl; intros H; try reflexivity; discriminate H.
Qed.

(* ------------------------------------------------------------------ *)
(** ** Facts about [buildResult] and [verifyEvidence] *)

(** The order on [(code, path ?? EmptyString)] that compares the code and
    then the path with [localeCompare], spelled out. *)
Definition failureLe {collation : Collation} (a b : VerificationFailure.t) : Prop :=
  let codeA := codeString (VerificationFailure.code a) in
  let codeB := codeString (VerificationFailure.code b) in
  let pathA := orElse (VerificationFailure.path a) EmptyString in
  let pathB := orElse (VerificationFailure.path b) EmptyString in
  localeCompare codeA codeB = Lt \/
  (localeCompare codeA codeB = Eq /\ localeCompare pathA pathB <> Gt).

(** The manifest-level checks (steps 1-6 of [verifyEvidence]) all pass and
    the file on disk parses to [manifest]. *)
Definition manifestVerified (rt : Runtime) (fs : FileSystem)
           (receipt : NormalizedReceipt.t) (runDir : string)
           (maxManifestBytes : Z) (manifest : SolverReceiptV0.t) : Prop :=
  valid (validateRelativePath (NormalizedReceipt.manifestPath receipt)) = true /\
  exists manifestAbsPath manifestSize manifestBytes manifestObj,
    truthyString (safeJoin (cwd rt) runDir (NormalizedReceipt.manifestPath receipt))
      = Some manifestAbsPath /\
    existsSync fs manifestAbsPath = true /\
    statSync fs manifestAbsPath = Returned manifestSize /\
    (manifestSize >? maxManifestBytes) = false /\
    readFileSync fs manifestAbsPath = Returned manifestBytes /\
    sha256Hex rt manifestBytes = NormalizedReceipt.manifestSha256 receipt /\
    JSON_parse rt manifestBytes = Some manifestObj /\
    safeParse (datetimeRegex rt) manifestObj = Zod.ParseSuccess manifest.

Definition maxManifestBytesOf (options : option VerifyOptions.t) : Z :=
  orElse (match options with
          | Some o => VerifyOptions.maxManifestBytes o
          | None => None
          end) DEFAULT_MAX_MANIFEST_BYTES.

Definition maxArtifactBytesOf (options : option VerifyOptions.t) : Z :=
  orElse (match options with
          | Some o => VerifyOptions.maxArtifactBytes o
          | None => None
          end) DEFAULT_MAX_ARTIFACT_BYTES.

Section VerifyFacts.

Context {collation : Collation}.
Variable rt : Runtime.
Variable fs : FileSystem.

Lemma compareFailures_total a b :
  compareFailures a b = Gt -> compareFailures b a <> Gt.
Proof.
  unfold compareFailures.
  rewrite (localeCompare_antisym (codeString (VerificationFailure.code a))).
  destruct (localeCompare (codeString (VerificationFailure.code a))
                          (codeString (VerificationFailure.code b))); simpl;
    try congruence.
  rewrite (localeCompare_antisym (orElse (VerificationFailure.path a) EmptyString)).
  destruct (localeCompare (orElse (VerificationFailure.path a) EmptyString)
                          (orElse (VerificationFailure.path b) EmptyString)); simpl;
    congruence.
Qed.

Lemma compareFailures_failureLe a b :
  compareFailures a b <> Gt <-> failureLe a b.
Proof.
  unfold compareFailures, failureLe. cbv zeta.
  destruct (localeCompare (codeString (VerificationFailure.code a))
                          (codeString (VerificationFailure.code b))).
  - split; [intros H; right; now split | intros [H | [_ H]]; [discriminate | exact H]].
  - split; [now left | congruence].
  - split; [congruence | intros [H | [H _]]; discriminate].
Qed.

Lemma buildResult_sorted failures evidenceLinks :
  Sorted failureLe (VerificationResult.failures (buildResult failures evidenceLinks)).
Proof.
  simpl.
  pose proof (JsArrayFacts.sort_sorted compareFailures compareFailures_total failures) as H.
  induction H as [|x l Hs IH Hhd]; constructor; auto.
  destruct Hhd; constructor. now apply compareFailures_failureLe.
Qed.

Lemma buildResult_ok failures evidenceLinks :
  VerificationResult.ok (buildResult failures evidenceLinks) = true <->
  VerificationResult.failures (buildResult failures evidenceLinks) = [].
Proof.
  simpl. rewrite Nat.eqb_eq. apply length_zero_iff_nil.
Qed.

Lemma buildResult_links failures evidenceLinks :
  VerificationResult.evidenceLinks (buildResult failures evidenceLinks) = evidenceLinks.
Proof. reflexivity. Qed.

Lemma buildResult_In x failures evidenceLinks :
  In x (VerificationResult.failures (buildResult failures evidenceLinks)) <->
  In x failures.
Proof. simpl. apply JsArrayFacts.sort_In. Qed.

(** Every path through [verifyEvidence] ends in [buildResult]. *)
Lemma verifyEvidence_buildResult receipt runDir options :
  exists failures evidenceLinks,
    verifyEvidence rt fs receipt runDir options = buildResult failures evidenceLinks.
Proof.
  unfold verifyEvidence.
  repeat match goal with
         | |- context [match ?x with _ => _ end] => destruct x
         end; eauto.
Qed.

(** What one artifact contributes, starting from nothing. *)
Definition artifactFindings (runDir : string) (maxArtifactBytes : Z)
           (artifact : DeliveredArtifact.t)
  : list VerificationFailure.t * list EvidenceLink.t :=
  verifyArtifact rt fs runDir maxArtifactBytes ([], []) artifact.

Lemma verifyArtifact_appends runDir maxArtifactBytes failures evidenceLinks artifact :
  verifyArtifact rt fs runDir maxArtifactBytes (failures, evidenceLinks) artifact =
  (failures ++ fst (artifactFindings runDir maxArtifactBytes artifact),
   evidenceLinks ++ snd (artifactFindings runDir maxArtifactBytes artifact)).
Proof.
  unfold artifactFindings, verifyArtifact.
  repeat match goal with
         | |- context [match ?x with _ => _ end] => destruct x
         | |- context [if ?x then _ else _] => destruct x
         end; simpl; rewrite ?app_nil_r, <- ?app_assoc; reflexivity.
Qed.

Lemma verifyArtifact_fold runDir maxArtifactBytes delivered : forall failures evidenceLinks,
  fold_left (verifyArtifact rt fs runDir maxArtifactBytes) delivered
            (failures, evidenceLinks) =
  (failures ++ flat_map (fun a => fst (artifactFindings runDir maxArtifactBytes a)) delivered,
   evidenceLinks ++ flat_map (fun a => snd (artifactFindings runDir maxArtifactBytes a)) delivered).
Proof.
  induction delivered as [|a delivered IH]; intros failures evidenceLinks;
    cbn [fold_left flat_map].
  - now rewrite !app_nil_r.
  - rewrite verifyArtifact_appends, IH, <- !app_assoc. reflexivity.
Qed.

(** The failure step 7 records, if any. *)
Definition deliveredCheck (manifest : SolverReceiptV0.t) (receipt : NormalizedReceipt.t)
  : list VerificationFailure.t :=
  if negb (String.eqb (pathsJoined (SolverReceiptV0.artifacts manifest))
                      (pathsJoined (NormalizedReceipt.delivered receipt)))
  then [failure DELIVERED_MISMATCH
                "Receipt delivered[] does not match manifest artifacts" None]
  else [].

(** Once the manifest-level checks pass, the result is assembled from the
    delivered-list check and the findings of every delivered artifact. *)
Lemma verifyEvidence_artifact_stage receipt runDir options manifest :
  manifestVerified rt fs receipt runDir (maxManifestBytesOf options) manifest ->
  verifyEvidence rt fs receipt runDir options =
  buildResult
    (deliveredCheck manifest receipt
       ++ flat_map (fun a => fst (artifactFindings runDir (maxArtifactBytesOf options) a))
                   (NormalizedReceipt.delivered receipt))
    ([link "receiptId" (NormalizedReceipt.receiptId receipt);
      link "manifestSha256" (NormalizedReceipt.manifestSha256 receipt)]
       ++ flat_map (fun a => snd (artifactFindings runDir (maxArtifactBytesOf options) a))
                   (NormalizedReceipt.delivered receipt)).
Proof.
  intros (Hvalid & abs & size & bytes & obj & Hjoin & Hex & Hstat & Hsize
          & Hread & Hhash & Hparse & Hschema).
  unfold verifyEvidence.
  fold (maxManifestBytesOf options). fold (maxArtifactBytesOf options).
  rewrite Hvalid. simpl negb. cbv iota.
  rewrite Hjoin, Hex. simpl negb. cbv iota.
  rewrite Hstat, Hsize, Hread, Hhash, String.eqb_refl. simpl negb. cbv iota.
  rewrite Hparse, Hschema.
  unfold deliveredCheck.
  destruct (negb _); simpl app; rewrite verifyArtifact_fold; reflexivity.
Qed.

End VerifyFacts.

(* ------------------------------------------------------------------ *)
(** ** A worked environment

    A small file system, a stand-in digest and a table-driven [JSON.parse],
    used to run the code on concrete inputs.  The digest is not SHA-256; it
    only has the right shape (64 lowercase hexadecimal characters). *)

Module Example.

Definition digest (s : string) : string :=
  hex64 (Canonical.hexDigit (String.length s mod 16)).

Definition artifact (path hash : string) (size : Z) : ArtifactEntry.t :=
  {| ArtifactEntry.path := path; ArtifactEntry.sha256 := hash;
     ArtifactEntry.bytes := size; ArtifactEntry.contentType := "text/plain" |}.

(** run-001: one artifact, [artifacts/report.txt], declared with 5 bytes
    and hash [aaa...]. *)
Definition manifestText1 : string := "manifest.json of run-001".
Definition manifestDoc1 : json :=
  exampleManifest "0.1.0" "irsb-solver" "SUCCESS"
    [exampleArtifact "artifacts/report.txt" (hex64 "a") 5].

(** run-002: one artifact whose path contains a comma. *)
Definition manifestText2 : string := "manifest.json of run-002.".
Definition manifestDoc2 : json :=
  exampleManifest "0.1.0" "irsb-solver" "SUCCESS"
    [exampleArtifact "a,b" (hex64 "a") 5].

(** run-003: a truncated manifest. *)
Definition manifestText3 : string := "{".

Definition files : list (string * string) :=
  [ ("/runs/run-001/evidence/manifest.json", manifestText1);
    ("/runs/run-001/artifacts/report.txt", "tampered report");
    ("/runs/run-002/evidence/manifest.json", manifestText2);
    ("/runs/run-002/a", "hello");
    ("/runs/run-003/evidence/manifest.json", manifestText3) ].

Fixpoint lookup (path : string) (table : list (string * string)) : option string :=
  match table with
  | [] => None
  | (p, content) :: rest => if String.eqb p path then Some content else lookup path rest
  end.

Definition fs : FileSystem :=
  {| existsSync := fun p => match lookup p files with Some _ => true | None => false end;
     statSync := fun p =>
       match lookup p files with
       | Some content => Returned (Z.of_nat (String.length content))
       | None => Threw "ENOENT: no such file or directory"
       end;
     readFileSync := fun p =>
       match lookup p files with
       | Some content => Returned content
       | None => Threw "ENOENT: no such file or directory"
       end |}.

Definition rt : Runtime :=
  {| cwd := "/home/wt";
     sha256Hex := digest;
     JSON_parse := fun text =>
       if String.eqb text manifestText1 then Some manifestDoc1
       else if String.eqb text manifestText2 then Some manifestDoc2
       else None;
     datetimeRegex := String.eqb "2025-01-15T12:00:00Z" |}.

Definition manifest1 : SolverReceiptV0.t :=
  {| SolverReceiptV0.manifestVersion := "0.1.0";
     SolverReceiptV0.intentId := "intent-001";
     SolverReceiptV0.runId := "run-001";
     SolverReceiptV0.jobType := "diagnostic";
     SolverReceiptV0.createdAt := "2025-01-15T12:00:00Z";
     SolverReceiptV0.artifacts := [artifact "artifacts/report.txt" (hex64 "a") 5];
     SolverReceiptV0.policyDecision :=
       {| PolicyDecision.allowed := true; PolicyDecision.reasons := [] |};
     SolverReceiptV0.executionSummary :=
       {| ExecutionSummary.status := "SUCCESS"; ExecutionSummary.error := None |};
     SolverReceiptV0.solver :=
       {| SolverMetadata.service := "irsb-solver";
          SolverMetadata.serviceVersion := "1.0.0";
          SolverMetadata.gitCommit := None |} |}.

Definition manifest2 : SolverReceiptV0.t :=
  {| SolverReceiptV0.manifestVersion := "0.1.0";
     SolverReceiptV0.intentId := "intent-001";
     SolverReceiptV0.runId := "run-001";
     SolverReceiptV0.jobType := "diagnostic";
     SolverReceiptV0.createdAt := "2025-01-15T12:00:00Z";
     SolverReceiptV0.artifacts := [artifact "a,b" (hex64 "a") 5];
     SolverReceiptV0.policyDecision :=
       {| PolicyDecision.allowed := true; PolicyDecision.reasons := [] |};
     SolverReceiptV0.executionSummary :=
       {| ExecutionSummary.status := "SUCCESS"; ExecutionSummary.error := None |};
     SolverReceiptV0.solver :=
       {| SolverMetadata.service := "irsb-solver";
          SolverMetadata.serviceVersion := "1.0.0";
          SolverMetadata.gitCommit := None |} |}.

(** The receipt of run-001, as [normalizeReceipt] produces it. *)
Definition receipt1 : NormalizedReceipt.t :=
  normalizeReceipt (collation := ByteOrder.collation) rt manifest1 (digest manifestText1).

(** A receipt for run-002 that claims two artifacts, [a] and [b], where the
    manifest on disk declares the single artifact [a,b]. *)
Definition receipt2 : NormalizedReceipt.t :=
  {| NormalizedReceipt.receiptId := digest "receipt of run-002";
     NormalizedReceipt.receiptVersion := "0.1.0";
     NormalizedReceipt.intentId := "intent-001";
     NormalizedReceipt.runId := "run-001";
     NormalizedReceipt.jobType := "diagnostic";
     NormalizedReceipt.status := "SUCCESS";
     NormalizedReceipt.manifestPath := "evidence/manifest.json";
     NormalizedReceipt.manifestSha256 := digest manifestText2;
     NormalizedReceipt.delivered :=
       [artifact "a" (digest "hello") 5; artifact "b" (hex64 "b") 7] |}.

Definition verify (receipt : NormalizedReceipt.t) (runDir : string) : VerificationResult.t :=
  verifyEvidence (collation := ByteOrder.collation) rt fs receipt runDir None.

Definition codesOf (r : VerificationResult.t) : list (FailureCode * option string) :=
  List.map (fun f => (VerificationFailure.code f, VerificationFailure.path f))
           (VerificationResult.failures r).

(** A store that keeps the snapshots it is given and scores nothing. *)
Definition store : Store :=
  {| Db := list Snapshot.t;
     Agent := string;
     RiskReport := string * Q;
     Alert := string;
     upsertAgent := fun db _ => db;
     insertSnapshot := fun db snapshot => snapshot :: db;
     getAgent := fun _ agentId => Some agentId;
     getLatestSnapshots := fun db _ => db;
     scoreAgent := fun _ _ _ => (("report-0", 0%Q), []);
     insertRiskReport := fun db _ => db;
     insertAlerts := fun db _ => db;
     reportIdOf := fst;
     overallRiskOf := snd |}.

End Example.

Example run001_findings :
  Example.codesOf (Example.verify Example.receipt1 "/runs/run-001") =
  [ (ARTIFACT_HASH_MISMATCH, Some "artifacts/report.txt");
    (ARTIFACT_SIZE_MISMATCH, Some "artifacts/report.txt") ].
Proof. vm_compute. reflexivity. Qed.

Example run002_findings :
  Example.codesOf (Example.verify Example.receipt2 "/runs/run-002") =
  [ (ARTIFACT_NOT_FOUND, Some "b") ].
Proof. vm_compute. reflexivity. Qed.


(* ------------------------------------------------------------------ *)
(** ** Properties of [verifyEvidence] *)

(** C7 (amended): the failures of every result of [verifyEvidence] are
    non-decreasing in the order of [buildResult]'s comparator, whatever
    order they were discovered in: [code] is compared with [localeCompare]
    and, for equal codes, [path ?? EmptyString] is compared with
    [localeCompare].  The order is that of the collation, which need not
    be the order of the code units. *)
Theorem failures_sorted {collation : Collation} (rt : Runtime) (fs : FileSystem)
        (receipt : NormalizedReceipt.t) (runDir : string)
        (options : option VerifyOptions.t) :
  Sorted failureLe
         (VerificationResult.failures (verifyEvidence rt fs receipt runDir options)).
Proof.
  destruct (verifyEvidence_buildResult rt fs receipt runDir options)
    as (failures & evidenceLinks & ->).
  apply buildResult_sorted.
Qed.

(** C8: in every result of [verifyEvidence], [ok] is true exactly when the
    list of failures is empty. *)
Theorem ok_iff_no_failures {collation : Collation} (rt : Runtime) (fs : FileSystem)
        (receipt : NormalizedReceipt.t) (runDir : string)
        (options : option VerifyOptions.t) :
  VerificationResult.ok (verifyEvidence rt fs receipt runDir options) = true <->
  VerificationResult.failures (verifyEvidence rt fs receipt runDir options) = [].
Proof.
  destruct (verifyEvidence_buildResult rt fs receipt runDir options)
    as (failures & evidenceLinks & ->).
  apply buildResult_ok.
Qed.

Section ArtifactChecks.

Context {collation : Collation}.
Variable rt : Runtime.
Variable fs : FileSystem.

(** Whatever one delivered artifact contributes ends up in the result. *)
Lemma artifact_findings_reported receipt runDir options manifest artifact :
  manifestVerified rt fs receipt runDir (maxManifestBytesOf options) manifest ->
  In artifact (NormalizedReceipt.delivered receipt) ->
  let findings := artifactFindings rt fs runDir (maxArtifactBytesOf options) artifact in
  let result := verifyEvidence rt fs receipt runDir options in
  (forall f, In f (fst findings) -> In f (VerificationResult.failures result)) /\
  (forall l, In l (snd findings) -> In l (VerificationResult.evidenceLinks result)).
Proof.
  intros Hm Hin findings result. subst result.
  rewrite (verifyEvidence_artifact_stage options Hm). split.
  - intros f Hf. apply buildResult_In, in_or_app. right.
    apply in_flat_map. now exists artifact.
  - intros l Hl. rewrite buildResult_links.
    apply in_or_app. right. apply in_flat_map. now exists artifact.
Qed.

(** When the comma-joined sorted path lists differ, [DELIVERED_MISMATCH] is
    recorded and the checks of every delivered artifact are still made:
    there is no early return. *)
Lemma delivered_mismatch_does_not_short_circuit receipt runDir options manifest :
  manifestVerified rt fs receipt runDir (maxManifestBytesOf options) manifest ->
  pathsJoined (SolverReceiptV0.artifacts manifest)
    <> pathsJoined (NormalizedReceipt.delivered receipt) ->
  let result := verifyEvidence rt fs receipt runDir options in
  In (failure DELIVERED_MISMATCH
              "Receipt delivered[] does not match manifest artifacts" None)
     (VerificationResult.failures result) /\
  forall artifact, In artifact (NormalizedReceipt.delivered receipt) ->
    let findings := artifactFindings rt fs runDir (maxArtifactBytesOf options) artifact in
    (forall f, In f (fst findings) -> In f (VerificationResult.failures result)) /\
    (forall l, In l (snd findings) -> In l (VerificationResult.evidenceLinks result)).
Proof.
  intros Hm Hdiff result. split.
  - subst result. rewrite (verifyEvidence_artifact_stage options Hm).
    apply buildResult_In, in_or_app. left. unfold deliveredCheck.
    apply String.eqb_neq in Hdiff. rewrite Hdiff. now left.
  - intros artifact Hin. now apply artifact_findings_reported with manifest.
Qed.

(** [DELIVERED_MISMATCH] is decided by the comma-joined strings alone. *)
Lemma delivered_mismatch_iff_joined_differ receipt runDir options manifest :
  manifestVerified rt fs receipt runDir (maxManifestBytesOf options) manifest ->
  (In DELIVERED_MISMATCH
      (List.map VerificationFailure.code
                (VerificationResult.failures (verifyEvidence rt fs receipt runDir options)))
   <-> pathsJoined (SolverReceiptV0.artifacts manifest)
         <> pathsJoined (NormalizedReceipt.delivered receipt)).
Proof.
  intros Hm. split.
  - intros Hin Heq. apply in_map_iff in Hin as (f & Hcode & Hf).
    rewrite (verifyEvidence_artifact_stage options Hm) in Hf.
    apply buildResult_In, in_app_or in Hf. destruct Hf as [Hf | Hf].
    + unfold deliveredCheck in Hf. rewrite Heq, String.eqb_refl in Hf.
      exact Hf.
    + apply in_flat_map in Hf as (a & _ & Hf).
      unfold artifactFindings, verifyArtifact in Hf.
      repeat match type of Hf with
             | context [match ?x with _ => _ end] => destruct x
             | context [if ?x then _ else _] => destruct x
             end;
        simpl in Hf; intuition (subst; discriminate).
  - intros Hdiff.
    destruct (delivered_mismatch_does_not_short_circuit options Hm Hdiff) as [H _].
    apply in_map_iff. eexists. split; [|exact H]. reflexivity.
Qed.

End ArtifactChecks.



(** C5, at its failing input.  The manifest of run-002 declares the single
    artifact path [a,b]; the receipt claims the two artifacts [a] and [b].
    The sorted path lists differ, yet their comma-joined forms are both
    [a,b], so [verifyEvidence] records no [DELIVERED_MISMATCH]: the only
    failure is the missing file [b].  (The per-artifact checks do run for
    both delivered entries.) *)
Theorem delivered_mismatch_missed_for_comma_path :
  let sortedPaths artifacts :=
    List.map ArtifactEntry.path
             (JsArray.sort (compareByPath (collation := ByteOrder.collation)) artifacts) in
  manifestVerified Example.rt Example.fs Example.receipt2 "/runs/run-002"
                   DEFAULT_MAX_MANIFEST_BYTES Example.manifest2 /\
  sortedPaths (SolverReceiptV0.artifacts Example.manifest2) = ["a,b"] /\
  sortedPaths (NormalizedReceipt.delivered Example.receipt2) = ["a"; "b"] /\
  Example.codesOf (Example.verify Example.receipt2 "/runs/run-002")
    = [(ARTIFACT_NOT_FOUND, Some "b")] /\
  VerificationResult.evidenceLinks (Example.verify Example.receipt2 "/runs/run-002")
    = [ link "receiptId" (NormalizedReceipt.receiptId Example.receipt2);
        link "manifestSha256" (NormalizedReceipt.manifestSha256 Example.receipt2);
        link "artifactSha256" (Example.digest "hello") ].
Proof.
  cbv zeta. split; [|split; [|split; [|split]]].
  - split; [reflexivity|].
    exists "/runs/run-002/evidence/manifest.json", 25, Example.manifestText2,
           Example.manifestDoc2.
    repeat split.
  - reflexivity.
  - reflexivity.
  - vm_compute. reflexivity.
  - vm_compute. reflexivity.
Qed.

(* ------------------------------------------------------------------ *)
(** ** Facts about [deriveBehaviorSignals] *)

Module FailureMapFacts.

Lemma get_set m key value c :
  FailureMap.get (FailureMap.set m key value) c =
  if codeEqb key c then Some value else FailureMap.get m c.
Proof.
  induction m as [|[k v] m IH]; simpl.
  - reflexivity.
  - destruct (codeEqb k key) eqn:Ekk; simpl.
    + apply codeEqb_eq in Ekk; subst k.
      now destruct (codeEqb key c).
    + rewrite IH.
      destruct (codeEqb k c) eqn:Ekc, (codeEqb key c) eqn:Ekeyc; try reflexivity.
      apply codeEqb_eq in Ekc, Ekeyc. subst.
      rewrite (proj2 (codeEqb_eq c c) eq_refl) in Ekk. discriminate.
Qed.

End FailureMapFacts.

(** The failures that carry the code [c], in their original order. *)
Definition failuresWithCode (c : FailureCode) (failures : list VerificationFailure.t)
  : list VerificationFailure.t :=
  List.filter (fun f => codeEqb (VerificationFailure.code f) c) failures.

Definition isFailurePath (l : EvidenceLink.t) : bool :=
  String.eqb (EvidenceLink.type l) "failurePath".

Definition hasSignalId (id : string) (s : Signal.t) : bool :=
  String.eqb (Signal.signalId s) id.

Section DeriveFacts.

Context {collation : Collation}.

Lemma groupByCode_snoc failures f :
  groupByCode (failures ++ [f]) =
  FailureMap.set (groupByCode failures) (VerificationFailure.code f)
    (orElse (FailureMap.get (groupByCode failures) (VerificationFailure.code f)) []
       ++ [f]).
Proof. unfold groupByCode. now rewrite fold_left_app. Qed.

(** Looking a code up in the grouping map returns the failures with that
    code. *)
Lemma groupByCode_get failures c :
  orElse (FailureMap.get (groupByCode failures) c) [] = failuresWithCode c failures.
Proof.
  induction failures as [|f failures IH] using rev_ind; [reflexivity|].
  rewrite groupByCode_snoc, FailureMapFacts.get_set.
  unfold failuresWithCode in *. rewrite filter_app. simpl.
  destruct (codeEqb (VerificationFailure.code f) c) eqn:E.
  - apply codeEqb_eq in E. subst c. simpl. now rewrite IH.
  - rewrite app_nil_r. exact IH.
Qed.

Lemma deriveOne_appends m base t signals def :
  deriveOne m base t signals def = signals ++ deriveOne m base t [] def.
Proof.
  unfold deriveOne.
  destruct (List.length _ =? 0)%nat; [now rewrite app_nil_r | reflexivity].
Qed.

Lemma deriveOne_fold m base t defs : forall signals,
  fold_left (deriveOne m base t) defs signals =
  signals ++ flat_map (deriveOne m base t []) defs.
Proof.
  induction defs as [|d defs IH]; intros signals; cbn [fold_left flat_map].
  - now rewrite app_nil_r.
  - rewrite IH, deriveOne_appends, <- app_assoc. reflexivity.
Qed.

(** The signal a definition produces, when it produces one. *)
Definition signalFor (failures : list VerificationFailure.t)
           (base : list EvidenceLink.t) (t : Z) (def : SignalDef.t) : Signal.t :=
  {| Signal.signalId := SignalDef.signalId def;
     Signal.severity := SignalDef.severity def;
     Signal.weight := SignalDef.weight def;
     Signal.observedAt := t;
     Signal.evidence :=
       sortEvidence
         (base ++ List.map failurePathLink
                    (List.filter hasPath
                       (flat_map (fun c => failuresWithCode c failures)
                                 (SignalDef.codes def)))) |}.

Lemma deriveOne_spec failures base t def :
  deriveOne (groupByCode failures) base t [] def =
  match flat_map (fun c => failuresWithCode c failures) (SignalDef.codes def) with
  | [] => []
  | _ :: _ => [signalFor failures base t def]
  end.
Proof.
  unfold deriveOne, signalFor.
  rewrite (flat_map_ext _ (fun c => failuresWithCode c failures))
    by (intros c; apply groupByCode_get).
  now destruct (flat_map _ _).
Qed.

(** A definition triggered by a single code. *)
Lemma deriveOne_single failures base t id sev w c :
  deriveOne (groupByCode failures) base t [] (signalDef id sev w [c]) =
  match failuresWithCode c failures with
  | [] => []
  | _ :: _ =>
      [ {| Signal.signalId := id;
           Signal.severity := sev;
           Signal.weight := w;
           Signal.observedAt := t;
           Signal.evidence :=
             sortEvidence
               (base ++ List.map failurePathLink
                          (List.filter hasPath (failuresWithCode c failures))) |} ]
  end.
Proof.
  rewrite deriveOne_spec. unfold signalFor. simpl. rewrite app_nil_r.
  reflexivity.
Qed.

Lemma derive_failed result receipt t :
  VerificationResult.ok result = false ->
  deriveBehaviorSignals result receipt t =
  flat_map (deriveOne (groupByCode (VerificationResult.failures result))
                      (baseEvidenceOf receipt) t [])
           SIGNAL_DEFS.
Proof.
  intros Hok. unfold deriveBehaviorSignals. rewrite Hok.
  now rewrite deriveOne_fold.
Qed.

Lemma evidenceEqb_eq a b : evidenceEqb a b = true <-> a = b.
Proof.
  destruct a as [ta ra], b as [tb rb]. unfold evidenceEqb. simpl.
  rewrite andb_true_iff, !String.eqb_eq. split.
  - intros [-> ->]. reflexivity.
  - intros [= -> ->]. auto.
Qed.

Lemma dedupeEvidence_In l evidence :
  In l (dedupeEvidence evidence) <-> In l evidence.
Proof.
  induction evidence as [|x rest IH]; simpl; [tauto|].
  rewrite filter_In, IH. cbv beta. split.
  - intros [H | [H _]]; auto.
  - intros [H | H]; [now left|].
    destruct (evidenceEqb x l) eqn:E.
    + left. now apply evidenceEqb_eq.
    + right. split; [exact H | reflexivity].
Qed.

Lemma dedupeEvidence_NoDup evidence : NoDup (dedupeEvidence evidence).
Proof.
  induction evidence as [|x rest IH]; simpl; constructor.
  - rewrite filter_In. cbv beta. intros [_ H].
    replace (evidenceEqb x x) with true in H; [discriminate H|].
    symmetry. now apply evidenceEqb_eq.
  - now apply NoDup_filter.
Qed.

(** Nothing is removed from a list without repetitions. *)
Lemma dedupeEvidence_id evidence :
  NoDup evidence -> dedupeEvidence evidence = evidence.
Proof.
  induction 1 as [|x rest Hx Hnd IH]; simpl; [reflexivity|].
  rewrite IH. f_equal. apply forallb_filter_id, forallb_forall.
  intros y Hy. apply negb_true_iff.
  destruct (evidenceEqb x y) eqn:E; [|reflexivity].
  apply evidenceEqb_eq in E. subst y. contradiction.
Qed.

Lemma filter_filter_length {A} (p q : A -> bool) l :
  (List.length (List.filter p (List.filter q l)) <= List.length (List.filter p l))%nat.
Proof.
  induction l as [|x l IH]; simpl; [apply Nat.le_refl|].
  destruct (q x); simpl; destruct (p x); simpl; lia.
Qed.

Lemma dedupeEvidence_filter_length p evidence :
  (List.length (List.filter p (dedupeEvidence evidence))
   <= List.length (List.filter p evidence))%nat.
Proof.
  induction evidence as [|x rest IH]; simpl; [apply Nat.le_refl|].
  pose proof (filter_filter_length p (fun y => negb (evidenceEqb x y))
                                   (dedupeEvidence rest)) as H.
  destruct (p x); simpl; lia.
Qed.

Lemma sortEvidence_In l evidence : In l (sortEvidence evidence) <-> In l evidence.
Proof.
  unfold sortEvidence. rewrite JsArrayFacts.sort_In. apply dedupeEvidence_In.
Qed.

Lemma sortEvidence_perm evidence :
  Permutation (sortEvidence evidence) (dedupeEvidence evidence).
Proof. apply JsArrayFacts.sort_perm. Qed.

Lemma filter_perm_length {A} (p : A -> bool) (l1 l2 : list A) :
  Permutation l1 l2 ->
  List.length (List.filter p l1) = List.length (List.filter p l2).
Proof.
  induction 1; simpl;
    repeat match goal with
           | |- context [p ?x] => destruct (p x)
           end; simpl; congruence.
Qed.

(** Failures with different non-empty paths give different links. *)
Lemma failurePathLinks_NoDup (failures : list VerificationFailure.t) :
  (forall f, In f failures -> hasPath f = true) ->
  NoDup (List.map VerificationFailure.path failures) ->
  NoDup (List.map failurePathLink failures).
Proof.
  induction failures as [|f rest IH]; intros Hall Hnd; simpl; [constructor|].
  inversion Hnd as [|x l Hx Hl]; subst. constructor.
  - intros Hin. apply Hx. apply in_map_iff in Hin as (g & Hg & Hin).
    apply in_map_iff. exists g. split; [|exact Hin].
    assert (Hf : hasPath f = true) by (apply Hall; now left).
    assert (Hgp : hasPath g = true) by (apply Hall; now right).
    unfold failurePathLink in Hg. injection Hg as Hg.
    unfold hasPath, truthyString in Hf, Hgp.
    destruct (VerificationFailure.path f) as [pf|]; [|discriminate Hf].
    destruct (VerificationFailure.path g) as [pg|]; [|discriminate Hgp].
    simpl in Hg. now subst.
  - apply IH; [|exact Hl]. intros g Hg. apply Hall. now right.
Qed.

Lemma filter_flat_map {A B} (p : B -> bool) (f : A -> list B) l :
  List.filter p (flat_map f l) = flat_map (fun x => List.filter p (f x)) l.
Proof.
  induction l as [|x l IH]; simpl; [reflexivity|].
  now rewrite filter_app, IH.
Qed.

Lemma filter_signals_by_id id m base t defs :
  List.filter (hasSignalId id) (flat_map (deriveOne m base t []) defs) =
  flat_map (deriveOne m base t [])
           (List.filter (fun d => String.eqb (SignalDef.signalId d) id) defs).
Proof.
  induction defs as [|d defs IH]; [reflexivity|].
  cbn [flat_map List.filter]. rewrite filter_app, IH.
  assert (Hd : List.filter (hasSignalId id) (deriveOne m base t [] d) =
               if String.eqb (SignalDef.signalId d) id
               then deriveOne m base t [] d else []).
  { unfold deriveOne.
    destruct (List.length _ =? 0)%nat; simpl.
    - now destruct (String.eqb _ _).
    - unfold hasSignalId. simpl. now destruct (String.eqb _ _). }
  rewrite Hd. now destruct (String.eqb (SignalDef.signalId d) id).
Qed.

Lemma failurePath_count base paths :
  List.filter isFailurePath base = [] ->
  List.length (List.filter isFailurePath (base ++ List.map failurePathLink paths))
  = List.length paths.
Proof.
  intros Hbase. rewrite filter_app, Hbase. simpl.
  induction paths as [|f paths IH]; simpl; [reflexivity | now rewrite IH].
Qed.

Lemma derived_ids_from_defs m base t defs id :
  In id (List.map Signal.signalId (flat_map (deriveOne m base t []) defs)) ->
  In id (List.map SignalDef.signalId defs).
Proof.
  induction defs as [|d defs IH]; cbn [flat_map List.map]; [trivial|].
  rewrite map_app, in_app_iff. intros [H | H]; [|right; now apply IH].
  left. unfold deriveOne in H.
  destruct (List.length _ =? 0)%nat; simpl in H; [contradiction|].
  now destruct H as [<- | []].
Qed.

Lemma derived_ids_NoDup m base t defs :
  NoDup (List.map SignalDef.signalId defs) ->
  NoDup (List.map Signal.signalId (flat_map (deriveOne m base t []) defs)).
Proof.
  induction defs as [|d defs IH]; cbn [flat_map List.map]; intros Hnd;
    [constructor|].
  inversion Hnd as [|? ? Hd Hrest]; subst.
  rewrite map_app. unfold deriveOne at 1.
  destruct (List.length _ =? 0)%nat; simpl; [now apply IH|].
  constructor; [|now apply IH].
  intros Hin. apply Hd. eapply derived_ids_from_defs, Hin.
Qed.

Lemma SIGNAL_DEFS_ids_NoDup : NoDup (List.map SignalDef.signalId SIGNAL_DEFS).
Proof.
  simpl. repeat (constructor; [simpl; intuition discriminate|]). constructor.
Qed.

(** No signal id is emitted twice. *)
Lemma derive_ids_NoDup result receipt t :
  NoDup (List.map Signal.signalId (deriveBehaviorSignals result receipt t)).
Proof.
  destruct (VerificationResult.ok result) eqn:Hok.
  - unfold deriveBehaviorSignals. rewrite Hok. simpl.
    constructor; [simpl; tauto | constructor].
  - rewrite (@derive_failed result receipt t Hok).
    apply derived_ids_NoDup, SIGNAL_DEFS_ids_NoDup.
Qed.

End DeriveFacts.

(* ------------------------------------------------------------------ *)
(** ** Properties of [deriveBehaviorSignals] *)

Definition hashMismatch (p : option string) : VerificationFailure.t :=
  {| VerificationFailure.code := ARTIFACT_HASH_MISMATCH;
     VerificationFailure.message := "Artifact hash mismatch";
     VerificationFailure.path := p |}.

(** C4, as stated, fails: of two [ARTIFACT_HASH_MISMATCH] failures, one
    without a path, the single [BE_ARTIFACT_HASH_MISMATCH] signal carries
    three evidence entries, one of which is a [failurePath]; neither count
    is two. *)
Lemma collapse_evidence_not_one_per_failure :
  ~ (forall (result : VerificationResult.t) (receipt : NormalizedReceipt.t) (t : Z),
        let n := List.length (failuresWithCode ARTIFACT_HASH_MISMATCH
                                (VerificationResult.failures result)) in
        (2 <= n)%nat ->
        exists s,
          List.filter (hasSignalId "BE_ARTIFACT_HASH_MISMATCH")
            (deriveBehaviorSignals (collation := ByteOrder.collation) result receipt t)
          = [s] /\
          (List.length (Signal.evidence s) = n \/
           List.length (List.filter isFailurePath (Signal.evidence s)) = n)).
Proof.
  intros H.
  specialize (H {| VerificationResult.ok := false;
                   VerificationResult.failures :=
                     [hashMismatch None; hashMismatch (Some "artifacts/a.txt")];
                   VerificationResult.evidenceLinks := [] |}
                Example.receipt2 0).
  destruct H as (s & Hs & Hn); [vm_compute; lia|].
  vm_compute in Hs. injection Hs as <-.
  vm_compute in Hn. destruct Hn as [Hn | Hn]; discriminate Hn.
Qed.

(** C4 (amended): for every result with [ok = false] in which N >= 2
    failures carry [ARTIFACT_HASH_MISMATCH], exactly one signal with id
    [BE_ARTIFACT_HASH_MISMATCH] is emitted.  Its evidence holds, without
    repetition, the two base links ([receiptId], [manifestSha256]) and the
    [failurePath] links of the matching failures that have a non-empty
    path, and nothing else: at most one [failurePath] entry per such
    failure, and exactly N when the N matching failures carry non-empty,
    pairwise different paths.  No signal id occurs twice in the output. *)
Theorem hash_mismatches_collapse {collation : Collation}
        (result : VerificationResult.t) (receipt : NormalizedReceipt.t) (t : Z) :
  VerificationResult.ok result = false ->
  let matching :=
    failuresWithCode ARTIFACT_HASH_MISMATCH (VerificationResult.failures result) in
  (2 <= List.length matching)%nat ->
  exists s,
    List.filter (hasSignalId "BE_ARTIFACT_HASH_MISMATCH")
                (deriveBehaviorSignals result receipt t) = [s] /\
    (forall l, In l (Signal.evidence s) <->
               In l (baseEvidenceOf receipt) \/
               exists f, In f matching /\ hasPath f = true /\ l = failurePathLink f) /\
    NoDup (Signal.evidence s) /\
    (List.length (List.filter isFailurePath (Signal.evidence s))
     <= List.length (List.filter hasPath matching))%nat /\
    ((forall f, In f matching -> hasPath f = true) ->
     NoDup (List.map VerificationFailure.path matching) ->
     List.length (List.filter isFailurePath (Signal.evidence s))
       = List.length matching) /\
    NoDup (List.map Signal.signalId (deriveBehaviorSignals result receipt t)).
Proof.
  intros Hok matching Hn. subst matching.
  rewrite (@derive_failed _ result receipt t Hok), filter_signals_by_id.
  change (List.filter
            (fun d => String.eqb (SignalDef.signalId d) "BE_ARTIFACT_HASH_MISMATCH")
            SIGNAL_DEFS)
    with [signalDef "BE_ARTIFACT_HASH_MISMATCH" CRITICAL 1 [ARTIFACT_HASH_MISMATCH]].
  cbn [flat_map]. rewrite app_nil_r, deriveOne_single.
  remember (failuresWithCode ARTIFACT_HASH_MISMATCH
              (VerificationResult.failures result)) as matching eqn:Em.
  destruct matching as [|f rest]; [simpl in Hn; lia|].
  clear Hn Em. set (matching := f :: rest).
  eexists. split; [reflexivity|]. cbn [Signal.evidence].
  set (links := baseEvidenceOf receipt
                  ++ List.map failurePathLink (List.filter hasPath matching)).
  assert (Hflat : List.length (List.filter isFailurePath links)
                  = List.length (List.filter hasPath matching))
    by (apply failurePath_count; reflexivity).
  split.
  { intros l. rewrite sortEvidence_In. unfold links. rewrite in_app_iff.
    split; (intros [H | H]; [now left | right]).
    - apply in_map_iff in H as (g & <- & Hg). apply filter_In in Hg as [Hg Hp].
      now exists g.
    - destruct H as (g & Hg & Hp & ->). apply in_map, filter_In. now split. }
  split.
  { apply (Permutation_NoDup (Permutation_sym (sortEvidence_perm links))).
    apply dedupeEvidence_NoDup. }
  split.
  { rewrite (filter_perm_length isFailurePath (sortEvidence_perm links)), <- Hflat.
    apply dedupeEvidence_filter_length. }
  split; [|apply derived_ids_NoDup, SIGNAL_DEFS_ids_NoDup].
  intros Hall Hpaths.
  assert (Hid : List.filter hasPath matching = matching)
    by (apply forallb_filter_id, forallb_forall; exact Hall).
  assert (Hnd : NoDup links).
  { unfold links. rewrite Hid. unfold baseEvidenceOf.
    pose proof (failurePathLinks_NoDup matching Hall Hpaths) as Hfl.
    assert (Hbase : forall l, In l (List.map failurePathLink matching) ->
                              EvidenceLink.type l = "failurePath").
    { intros l Hl. apply in_map_iff in Hl as (g & <- & _). reflexivity. }
    cbn [app]. constructor.
    - intros [H | H]; [discriminate H|]. apply Hbase in H. discriminate H.
    - constructor; [|exact Hfl]. intros H. apply Hbase in H. discriminate H. }
  rewrite (filter_perm_length isFailurePath (sortEvidence_perm links)).
  rewrite (dedupeEvidence_id Hnd), Hflat, Hid. reflexivity.
Qed.

(** Two mismatches reported for the same path share one [failurePath]
    entry. *)
Example mismatches_on_one_path_share_an_entry :
  List.map (fun s => List.map EvidenceLink.ref
                       (List.filter isFailurePath (Signal.evidence s)))
    (deriveBehaviorSignals (collation := ByteOrder.collation)
       {| VerificationResult.ok := false;
          VerificationResult.failures :=
            [hashMismatch (Some "artifacts/a.txt");
             hashMismatch (Some "artifacts/a.txt")];
          VerificationResult.evidenceLinks := [] |}
       Example.receipt1 1700000000)
  = [["artifacts/a.txt"]].
Proof. vm_compute. reflexivity. Qed.

Lemma hash_mismatches_collapse_witness :
  exists s,
    List.filter (hasSignalId "BE_ARTIFACT_HASH_MISMATCH")
      (deriveBehaviorSignals (collation := ByteOrder.collation)
         {| VerificationResult.ok := false;
            VerificationResult.failures :=
              [hashMismatch (Some "artifacts/a.txt");
               hashMismatch (Some "artifacts/b.txt")];
            VerificationResult.evidenceLinks := [] |}
         Example.receipt1 1700000000) = [s] /\
    List.length (List.filter isFailurePath (Signal.evidence s)) = 2%nat.
Proof.
  destruct (hash_mismatches_collapse (collation := ByteOrder.collation)
              {| VerificationResult.ok := false;
                 VerificationResult.failures :=
                   [hashMismatch (Some "artifacts/a.txt");
                    hashMismatch (Some "artifacts/b.txt")];
                 VerificationResult.evidenceLinks := [] |}
              Example.receipt1 1700000000 eq_refl)
    as (s & Hs & _ & _ & _ & Hall & _).
  - simpl. lia.
  - exists s. split; [exact Hs|]. apply Hall.
    + simpl. intros f [<- | [<- | []]]; reflexivity.
    + simpl. repeat constructor; simpl; intuition discriminate.
Defined.

(** The eleven signal ids the deriver can emit. *)
Definition DERIVED_SIGNAL_IDS : list string :=
  "BE_VERIFIED_OK" :: List.map SignalDef.signalId SIGNAL_DEFS.

Example derived_signal_ids :
  DERIVED_SIGNAL_IDS =
  [ "BE_VERIFIED_OK"; "BE_MANIFEST_NOT_FOUND"; "BE_MANIFEST_HASH_MISMATCH";
    "BE_MANIFEST_PARSE_FAIL"; "BE_MANIFEST_SCHEMA_INVALID"; "BE_MANIFEST_TOO_LARGE";
    "BE_ARTIFACT_MISSING"; "BE_ARTIFACT_HASH_MISMATCH"; "BE_ARTIFACT_SIZE_MISMATCH";
    "BE_UNSAFE_PATH"; "BE_DELIVERED_MISMATCH" ]
  /\ List.length DERIVED_SIGNAL_IDS = 11%nat /\ NoDup DERIVED_SIGNAL_IDS.
Proof.
  split; [reflexivity|]. split; [reflexivity|].
  unfold DERIVED_SIGNAL_IDS. simpl.
  repeat (constructor; [simpl; intuition discriminate|]). constructor.
Qed.

(** C10: every signal [deriveBehaviorSignals] returns, whether
    [BE_VERIFIED_OK] or derived from failures, carries in its evidence the
    [receiptId] link and the [manifestSha256] link of the receipt, and its
    [signalId] is one of the eleven ids of the deriver. *)
Theorem signals_carry_receipt_evidence {collation : Collation}
        (result : VerificationResult.t) (receipt : NormalizedReceipt.t)
        (observedAt : Z) (s : Signal.t) :
  In s (deriveBehaviorSignals result receipt observedAt) ->
  In {| EvidenceLink.type := "receiptId";
        EvidenceLink.ref := NormalizedReceipt.receiptId receipt |}
     (Signal.evidence s) /\
  In {| EvidenceLink.type := "manifestSha256";
        EvidenceLink.ref := NormalizedReceipt.manifestSha256 receipt |}
     (Signal.evidence s) /\
  In (Signal.signalId s) DERIVED_SIGNAL_IDS.
Proof.
  intros Hin.
  destruct (VerificationResult.ok result) eqn:Hok.
  - unfold deriveBehaviorSignals in Hin. rewrite Hok in Hin.
    destruct Hin as [<- | []]. cbn [Signal.evidence Signal.signalId].
    repeat split.
    + apply sortEvidence_In. left. reflexivity.
    + apply sortEvidence_In. right. left. reflexivity.
    + left. reflexivity.
  - rewrite (@derive_failed _ result receipt observedAt Hok) in Hin.
    apply in_flat_map in Hin as (def & Hdef & Hs).
    rewrite deriveOne_spec in Hs.
    destruct (flat_map _ _); [contradiction|].
    destruct Hs as [<- | []]. cbn [signalFor Signal.evidence Signal.signalId].
    repeat split.
    + apply sortEvidence_In. left. reflexivity.
    + apply sortEvidence_In. right. left. reflexivity.
    + right. now apply in_map.
Qed.

Lemma signals_carry_receipt_evidence_witness :
  let result := Example.verify Example.receipt1 "/runs/run-001" in
  let s := {| Signal.signalId := "BE_ARTIFACT_SIZE_MISMATCH";
              Signal.severity := HIGH;
              Signal.weight := 8 # 10;
              Signal.observedAt := 1700000000;
              Signal.evidence :=
                [ link "failurePath" "artifacts/report.txt";
                  link "manifestSha256" (Example.digest Example.manifestText1);
                  link "receiptId" (NormalizedReceipt.receiptId Example.receipt1) ] |} in
  In (link "receiptId" (NormalizedReceipt.receiptId Example.receipt1))
     (Signal.evidence s) /\
  In (link "manifestSha256" (NormalizedReceipt.manifestSha256 Example.receipt1))
     (Signal.evidence s) /\
  In (Signal.signalId s) DERIVED_SIGNAL_IDS.
Proof.
  intros result s.
  apply (signals_carry_receipt_evidence
           (collation := ByteOrder.collation) result Example.receipt1 1700000000 s).
  vm_compute. right. left. reflexivity.
Defined.

(* ------------------------------------------------------------------ *)
(** ** Receipt identifiers *)

Lemma receiptId_canonical_form {collation : Collation} (rt : Runtime)
      (m : SolverReceiptV0.t) (h : string) :
  NormalizedReceipt.receiptId (normalizeReceipt rt m h) =
  sha256Hex rt
    ("{" +++ join ","
           [ Canonical.quote "intentId" +++ ":"
               +++ Canonical.quote (SolverReceiptV0.intentId m);
             Canonical.quote "jobType" +++ ":"
               +++ Canonical.quote (SolverReceiptV0.jobType m);
             Canonical.quote "manifestSha256" +++ ":" +++ Canonical.quote h;
             Canonical.quote "runId" +++ ":"
               +++ Canonical.quote (SolverReceiptV0.runId m) ]
         +++ "}").
Proof. reflexivity. Qed.

(** C6: [receiptId] is deterministic and does not depend on the insertion
    order of the manifest's keys, at the top level or below.  If two
    documents are the same up to key order and the first validates to [m1],
    then the second validates too, and [normalizeReceipt] gives both the
    same [receiptId]: the hash of the canonical serialization (keys in
    lexicographic order, no whitespace) of
    [{intentId, runId, jobType, manifestSha256}]. *)
Theorem receiptId_deterministic {collation : Collation} (rt : Runtime)
        (doc1 doc2 : json) (m1 : SolverReceiptV0.t) (h : string) :
  sameJson doc1 doc2 ->
  safeParse (datetimeRegex rt) doc1 = Zod.ParseSuccess m1 ->
  exists m2,
    safeParse (datetimeRegex rt) doc2 = Zod.ParseSuccess m2 /\
    NormalizedReceipt.receiptId (normalizeReceipt rt m2 h)
      = NormalizedReceipt.receiptId (normalizeReceipt rt m1 h) /\
    NormalizedReceipt.receiptId (normalizeReceipt rt m1 h) =
      sha256Hex rt
        ("{" +++ join ","
               [ Canonical.quote "intentId" +++ ":"
                   +++ Canonical.quote (SolverReceiptV0.intentId m1);
                 Canonical.quote "jobType" +++ ":"
                   +++ Canonical.quote (SolverReceiptV0.jobType m1);
                 Canonical.quote "manifestSha256" +++ ":" +++ Canonical.quote h;
                 Canonical.quote "runId" +++ ":"
                   +++ Canonical.quote (SolverReceiptV0.runId m1) ]
             +++ "}").
Proof.
  intros Hsame Hparse.
  exists m1. split; [|split].
  - now rewrite <- (KeyOrder.safeParse_sameJson (datetimeRegex rt) Hsame).
  - reflexivity.
  - apply receiptId_canonical_form.
Qed.

(** The manifest of run-001 with its keys inserted in the opposite order. *)
Definition manifestDoc1Reversed : json :=
  match Example.manifestDoc1 with
  | JObject fields => JObject (List.rev fields)
  | other => other
  end.

Lemma manifestDoc1_reversed_same : sameJson Example.manifestDoc1 manifestDoc1Reversed.
Proof.
  apply sameJson_permuted.
  - simpl. repeat (constructor; [simpl; intuition discriminate|]). constructor.
  - apply Permutation_rev.
Qed.

Lemma receiptId_deterministic_witness :
  exists m2,
    safeParse (datetimeRegex Example.rt) manifestDoc1Reversed = Zod.ParseSuccess m2 /\
    NormalizedReceipt.receiptId
      (normalizeReceipt (collation := ByteOrder.collation) Example.rt m2
                        (Example.digest Example.manifestText1))
    = NormalizedReceipt.receiptId Example.receipt1.
Proof.
  destruct (receiptId_deterministic
              (collation := ByteOrder.collation) Example.rt
              (m1 := Example.manifest1) (Example.digest Example.manifestText1)
              manifestDoc1_reversed_same eq_refl)
    as (m2 & Hparse & Hid & _).
  exists m2. split; [exact Hparse | exact Hid].
Defined.

(* ------------------------------------------------------------------ *)
(** ** Snapshot identifiers *)

Module StringFacts.

Lemma append_inj_l (a x y : string) : a +++ x = a +++ y -> x = y.
Proof.
  induction a as [|c a IH]; simpl; [trivial|].
  intros [= H]. now apply IH.
Qed.

Lemma append_length (x y : string) :
  String.length (x +++ y) = (String.length x + String.length y)%nat.
Proof. induction x as [|c x IH]; simpl; [reflexivity | now rewrite IH]. Qed.

Lemma append_inj_r (b x y : string) : x +++ b = y +++ b -> x = y.
Proof.
  revert y. induction x as [|c x IH]; intros [|d y] H; simpl in H.
  - reflexivity.
  - apply (f_equal String.length) in H. simpl in H.
    rewrite append_length in H. lia.
  - apply (f_equal String.length) in H. simpl in H.
    rewrite append_length in H. lia.
  - injection H as -> H. f_equal. now apply IH.
Qed.

Lemma ofZ_inj (n m : Z) : ofZ n = ofZ m -> n = m.
Proof.
  unfold ofZ. intros H.
  apply DecimalZ.to_int_inj.
  assert (Hnil : forall z, Z.to_int z <> Decimal.Pos Decimal.Nil /\
                           Z.to_int z <> Decimal.Neg Decimal.Nil).
  { intros [|p|p]; simpl; split; try discriminate;
      intros [= E]; now apply DecimalPos.Unsigned.to_uint_nonnil in E. }
  destruct (Hnil n) as [Hn1 Hn2], (Hnil m) as [Hm1 Hm2].
  pose proof (NilZero.isi _ Hn1 Hn2) as En.
  pose proof (NilZero.isi _ Hm1 Hm2) as Em.
  rewrite H in En. congruence.
Qed.

Lemma numberToString_integer (n : Z) : Canonical.numberToString (inject_Z n) = ofZ n.
Proof.
  unfold Canonical.numberToString, inject_Z. simpl Qnum. simpl Qden.
  now rewrite Z.mod_1_r, Z.div_1_r.
Qed.

End StringFacts.

Section IngestFacts.

Context {collation : Collation}.
Variable rt : Runtime.
Variable fs : FileSystem.
Variable store : Store.

(** The string whose hash is the snapshot id of an ingest observed at [t]. *)
Definition snapshotHashInput (agentId absReceiptPath rawBytes : string)
           (runDir : option string) (t : Z) : string :=
  Canonical.canonicalJson
    (snapshotIdInput agentId (snd (ingestSignals rt fs absReceiptPath rawBytes runDir t))).

Lemma ingestReceipt_snapshotId db agentId receiptPath runDir clock1 clock2 rawBytes :
  readFileSync fs (NodePath.resolve (cwd rt) [receiptPath]) = Returned rawBytes ->
  exists db' r,
    ingestReceipt rt fs store db agentId receiptPath runDir clock1 clock2
      = Returned (db', r) /\
    IngestResult.snapshotId r =
      sha256Hex rt
        (snapshotHashInput agentId (NodePath.resolve (cwd rt) [receiptPath])
                           rawBytes runDir (clock1 / 1000)).
Proof.
  intros Hread. unfold ingestReceipt, snapshotHashInput. rewrite Hread.
  destruct (ingestSignals rt fs _ rawBytes runDir (clock1 / 1000))
    as [[receiptId ok] signals].
  destruct (scoreAgent store _ _ _) as [report newAlerts].
  eexists _, _. split; reflexivity.
Qed.

(** For a receipt file that is not valid JSON, the hash input spells out the
    observation time. *)
Lemma snapshotHashInput_invalid_json agentId absReceiptPath rawBytes runDir t t' :
  JSON_parse rt rawBytes = None ->
  snapshotHashInput agentId absReceiptPath rawBytes runDir t
    = snapshotHashInput agentId absReceiptPath rawBytes runDir t' ->
  t = t'.
Proof.
  intros Hparse H.
  unfold snapshotHashInput, ingestSignals, safeParseManifest in H.
  rewrite Hparse in H.
  cbn -[Canonical.quote Canonical.numberToString String.append] in H.
  repeat first [ apply StringFacts.append_inj_l in H
               | apply StringFacts.append_inj_r in H ].
  rewrite !StringFacts.numberToString_integer in H.
  now apply StringFacts.ofZ_inj.
Qed.

End IngestFacts.

(** C1, at its failing inputs.  Ingest a receipt file that is not valid
    JSON twice, the clock reading [clock1] the first time and [clock1']
    the second, in different seconds.  Both runs return, and each snapshot
    id is the hash of the canonical form of [{ agentId, signals }]; but the
    signals carry [observedAt], so the two hash inputs differ: the snapshot
    ids coincide only if the hash collides. *)
Theorem snapshot_id_hashes_observedAt {collation : Collation}
        (rt : Runtime) (fs : FileSystem) (store : Store) (db db' : Db store)
        (agentId receiptPath : string) (runDir : option string)
        (rawBytes : string) (clock1 clock2 clock1' clock2' : Z) :
  readFileSync fs (NodePath.resolve (cwd rt) [receiptPath]) = Returned rawBytes ->
  JSON_parse rt rawBytes = None ->
  clock1 / 1000 <> clock1' / 1000 ->
  let input t :=
    snapshotHashInput rt fs agentId (NodePath.resolve (cwd rt) [receiptPath])
                      rawBytes runDir t in
  exists db1 r1 db2 r2,
    ingestReceipt rt fs store db agentId receiptPath runDir clock1 clock2
      = Returned (db1, r1) /\
    ingestReceipt rt fs store db' agentId receiptPath runDir clock1' clock2'
      = Returned (db2, r2) /\
    IngestResult.snapshotId r1 = sha256Hex rt (input (clock1 / 1000)) /\
    IngestResult.snapshotId r2 = sha256Hex rt (input (clock1' / 1000)) /\
    input (clock1 / 1000) <> input (clock1' / 1000).
Proof.
  intros Hread Hparse Hclock input.
  destruct (@ingestReceipt_snapshotId _ rt fs store db agentId receiptPath runDir
              clock1 clock2 rawBytes Hread) as (db1 & r1 & Hrun1 & Hid1).
  destruct (@ingestReceipt_snapshotId _ rt fs store db' agentId receiptPath runDir
              clock1' clock2' rawBytes Hread) as (db2 & r2 & Hrun2 & Hid2).
  exists db1, r1, db2, r2. repeat split; try assumption.
  intros Heq. apply Hclock.
  exact (@snapshotHashInput_invalid_json _ rt fs agentId _ rawBytes runDir _ _
           Hparse Heq).
Qed.

Lemma snapshot_id_hashes_observedAt_witness :
  exists db1 r1 db2 r2,
    ingestReceipt (collation := ByteOrder.collation) Example.rt Example.fs Example.store
                  [] "solver-alpha" "/runs/run-003/evidence/manifest.json" None
                  1700000000000 1700000000500
      = Returned (db1, r1) /\
    ingestReceipt (collation := ByteOrder.collation) Example.rt Example.fs Example.store
                  [] "solver-alpha" "/runs/run-003/evidence/manifest.json" None
                  1700000060000 1700000060500
      = Returned (db2, r2) /\
    snapshotHashInput (collation := ByteOrder.collation) Example.rt Example.fs
                      "solver-alpha" "/runs/run-003/evidence/manifest.json" "{" None
                      1700000000
    <> snapshotHashInput (collation := ByteOrder.collation) Example.rt Example.fs
                      "solver-alpha" "/runs/run-003/evidence/manifest.json" "{" None
                      1700000060.
Proof.
  destruct (@snapshot_id_hashes_observedAt
              ByteOrder.collation Example.rt Example.fs
              Example.store [] [] "solver-alpha"
              "/runs/run-003/evidence/manifest.json" None "{"
              1700000000000 1700000000500 1700000060000 1700000060500
              eq_refl eq_refl)
    as (db1 & r1 & db2 & r2 & Hrun1 & Hrun2 & _ & _ & Hne).
  - vm_compute. discriminate.
  - exists db1, r1, db2, r2. split; [exact Hrun1|]. split; [exact Hrun2|].
    exact Hne.
Defined.

Example snapshot_input_run003 :
  snapshotHashInput (collation := ByteOrder.collation) Example.rt Example.fs
                    "solver-alpha" "/runs/run-003/evidence/manifest.json" "{" None
                    1700000000
  = "{" +++ Canonical.quote "agentId" +++ ":" +++ Canonical.quote "solver-alpha"
        +++ "," +++ Canonical.quote "signals" +++ ":[{"
        +++ Canonical.quote "evidence" +++ ":[{"
        +++ Canonical.quote "ref" +++ ":" +++ Canonical.quote (Example.digest "{")
        +++ "," +++ Canonical.quote "type" +++ ":" +++ Canonical.quote "manifestSha256"
        +++ "},{"
        +++ Canonical.quote "ref" +++ ":" +++ Canonical.quote "Invalid JSON"
        +++ "," +++ Canonical.quote "type" +++ ":" +++ Canonical.quote "parseError"
        +++ "}],"
        +++ Canonical.quote "observedAt" +++ ":1700000000,"
        +++ Canonical.quote "severity" +++ ":" +++ Canonical.quote "HIGH" +++ ","
        +++ Canonical.quote "signalId" +++ ":"
        +++ Canonical.quote "BE_RECEIPT_SCHEMA_INVALID" +++ ","
        +++ Canonical.quote "weight" +++ ":0.8}]}".
Proof. vm_compute. reflexivity. Qed.

(** The same dependence on time for a receipt that validates: the signals
    derived for run-001 carry [observedAt] as well. *)
Example snapshot_input_run001_varies :
  snapshotHashInput (collation := ByteOrder.collation) Example.rt Example.fs
                    "solver-alpha" "/runs/run-001/evidence/manifest.json"
                    Example.manifestText1 None 1700000000
  <> snapshotHashInput (collation := ByteOrder.collation) Example.rt Example.fs
                    "solver-alpha" "/runs/run-001/evidence/manifest.json"
                    Example.manifestText1 None 1700000060.
Proof. apply String.eqb_neq. vm_compute. reflexivity. Qed.

(* ------------------------------------------------------------------ *)
(** ** The failure order is a preorder *)

Section FailureOrder.

Context {collation : Collation}.

Lemma localeCompare_chain a b c :
  localeCompare a b <> Gt -> localeCompare b c <> Gt ->
  localeCompare a c = Lt \/
  (localeCompare a c = Eq /\ localeCompare a b = Eq /\ localeCompare b c = Eq).
Proof.
  intros Hab Hbc.
  pose proof (localeCompare_trans a b c Hab Hbc) as Hac.
  destruct (localeCompare a c) eqn:Eac; [right | now left | congruence].
  assert (Hca : localeCompare c a <> Gt)
    by (rewrite (localeCompare_antisym a c), Eac; discriminate).
  pose proof (localeCompare_trans c a b Hca Hab) as Hcb.
  pose proof (localeCompare_trans b c a Hbc Hca) as Hba.
  rewrite (localeCompare_antisym b c) in Hcb.
  rewrite (localeCompare_antisym a b) in Hba.
  split; [reflexivity|]. split.
  - destruct (localeCompare a b); simpl in *; congruence.
  - destruct (localeCompare b c); simpl in *; congruence.
Qed.

Lemma failureLe_trans a b c : failureLe a b -> failureLe b c -> failureLe a c.
Proof.
  unfold failureLe. cbv zeta.
  set (ca := codeString (VerificationFailure.code a)).
  set (cb := codeString (VerificationFailure.code b)).
  set (cc := codeString (VerificationFailure.code c)).
  intros Hab Hbc.
  assert (Hab' : localeCompare ca cb <> Gt)
    by (destruct Hab as [H | [H _]]; rewrite H; discriminate).
  assert (Hbc' : localeCompare cb cc <> Gt)
    by (destruct Hbc as [H | [H _]]; rewrite H; discriminate).
  destruct (localeCompare_chain ca cb cc Hab' Hbc') as [Hlt | (Heq & Eab & Ebc)];
    [now left|].
  right. split; [exact Heq|].
  destruct Hab as [H | [_ Hpab]]; [congruence|].
  destruct Hbc as [H | [_ Hpbc]]; [congruence|].
  eapply localeCompare_trans; eassumption.
Qed.

(** Every earlier failure is below every later one. *)
Lemma failures_strongly_sorted (rt : Runtime) (fs : FileSystem)
      (receipt : NormalizedReceipt.t) (runDir : string)
      (options : option VerifyOptions.t) :
  StronglySorted failureLe
    (VerificationResult.failures (verifyEvidence rt fs receipt runDir options)).
Proof.
  apply Sorted_StronglySorted.
  - intros a b c. apply failureLe_trans.
  - destruct (verifyEvidence_buildResult rt fs receipt runDir options)
      as (failures & evidenceLinks & ->).
    apply buildResult_sorted.
Qed.

End FailureOrder.

(* ------------------------------------------------------------------ *)
(** ** The deviations the specification lists are each rejected *)

Section ListedDeviations.

Variable datetimeRegex : string -> bool.
Variable fields : list (string * json).

Let rejected : Prop :=
  exists issues,
    safeParse datetimeRegex (JObject fields) = Zod.ParseFailure issues /\ issues <> [].

Lemma rejected_unless_conforms :
  (forall m, ~ manifestConforms datetimeRegex (JObject fields) m) -> rejected.
Proof.
  intros Hnone. unfold rejected.
  destruct (safeParse datetimeRegex (JObject fields)) as [m|issues] eqn:E.
  - apply SchemaFacts.manifest_success in E. now apply Hnone in E.
  - exists issues. split; [reflexivity|].
    pose proof (SchemaFacts.safeParse_hasIssue datetimeRegex (JObject fields)) as H.
    rewrite E in H. now intros ->.
Qed.

Lemma wrong_manifestVersion_rejected :
  getField "manifestVersion" fields <> Some (JString "0.1.0") -> rejected.
Proof.
  intros Hv. apply rejected_unless_conforms.
  intros m (fields' & items & [= <-] & Hversion & _). contradiction.
Qed.

Lemma wrong_service_literal_rejected solverFields s :
  getField "solver" fields = Some (JObject solverFields) ->
  getField "service" solverFields = Some (JString s) ->
  s <> "irsb-solver" -> rejected.
Proof.
  intros Hsolver Hservice Hs. apply rejected_unless_conforms.
  intros m (fields' & items & [= <-] & H).
  destruct H as (_ & _ & _ & _ & _ & _ & _ & _ & _ & _ & _ & Hconf).
  destruct Hconf as (sf & Hsf & Hsv & _).
  rewrite Hsolver in Hsf. injection Hsf as <-. congruence.
Qed.

Lemma status_outside_literals_rejected summaryFields s :
  getField "executionSummary" fields = Some (JObject summaryFields) ->
  getField "status" summaryFields = Some (JString s) ->
  ~ In s ["SUCCESS"; "FAILED"; "REFUSED"] -> rejected.
Proof.
  intros Hsummary Hstatus Hs. apply rejected_unless_conforms.
  intros m (fields' & items & [= <-] & H).
  destruct H as (_ & _ & _ & _ & _ & _ & _ & _ & _ & _ & Hconf & _).
  destruct Hconf as (sf & Hsf & Hst & Hin & _).
  rewrite Hsummary in Hsf. injection Hsf as <-. congruence.
Qed.

Lemma artifact_conforms_in items artifacts item :
  Forall2 artifactConforms items artifacts -> In item items ->
  exists a, artifactConforms item a.
Proof.
  induction 1 as [|x a items artifacts Hx _ IH]; intros Hin; [contradiction|].
  destruct Hin as [<- | Hin]; [now exists a | now apply IH].
Qed.

Lemma bad_artifact_hash_rejected items artifactFields s :
  getField "artifacts" fields = Some (JArray items) ->
  In (JObject artifactFields) items ->
  getField "sha256" artifactFields = Some (JString s) ->
  sha256Regex s = false -> rejected.
Proof.
  intros Harts Hin Hsha Hre. apply rejected_unless_conforms.
  intros m (fields' & items' & [= <-] & H).
  destruct H as (_ & _ & _ & _ & _ & _ & _ & Hitems & Hall & _).
  rewrite Harts in Hitems. injection Hitems as <-.
  destruct (@artifact_conforms_in _ _ _ Hall Hin) as (a & af & q & [= <-] & _ & Hs & Hok & _).
  rewrite Hsha in Hs. injection Hs as ->. congruence.
Qed.

Lemma bad_artifact_bytes_rejected items artifactFields q :
  getField "artifacts" fields = Some (JArray items) ->
  In (JObject artifactFields) items ->
  getField "bytes" artifactFields = Some (JNumber q) ->
  Zod.isInteger q = false \/ Zod.isNonnegative q = false -> rejected.
Proof.
  intros Harts Hin Hbytes Hq. apply rejected_unless_conforms.
  intros m (fields' & items' & [= <-] & H).
  destruct H as (_ & _ & _ & _ & _ & _ & _ & Hitems & Hall & _).
  rewrite Harts in Hitems. injection Hitems as <-.
  destruct (@artifact_conforms_in _ _ _ Hall Hin)
    as (a & af & q' & [= <-] & _ & _ & _ & Hb & Hi & Hn & _).
  rewrite Hbytes in Hb. injection Hb as <-.
  destruct Hq; congruence.
Qed.

End ListedDeviations.


(* ------------------------------------------------------------------ *)
(** * Further properties of the program *)

(* ------------------------------------------------------------------ *)
(** ** The outcomes of [verifyEvidence] *)

(** The codes a manifest-level check (steps 1-6) can report. *)
Definition manifestStageCode (c : FailureCode) : bool :=
  match c with
  | UNSAFE_PATH | MANIFEST_NOT_FOUND | MANIFEST_READ_ERROR | MANIFEST_TOO_LARGE
  | MANIFEST_HASH_MISMATCH | MANIFEST_PARSE_FAIL | MANIFEST_SCHEMA_INVALID => true
  | _ => false
  end.

(** The codes that only the manifest file itself can cause. *)
Definition manifestOnlyCode (c : FailureCode) : bool :=
  manifestStageCode c && negb (codeEqb c UNSAFE_PATH).

Definition baseLinks (receipt : NormalizedReceipt.t) : list EvidenceLink.t :=
  [ {| EvidenceLink.type := "receiptId";
       EvidenceLink.ref := NormalizedReceipt.receiptId receipt |};
    {| EvidenceLink.type := "manifestSha256";
       EvidenceLink.ref := NormalizedReceipt.manifestSha256 receipt |} ].

(** A delivered artifact that is on disk exactly as declared. *)
Definition artifactIntact (rt : Runtime) (fs : FileSystem) (runDir : string)
           (maxArtifactBytes : Z) (a : DeliveredArtifact.t) : Prop :=
  valid (validateRelativePath (DeliveredArtifact.path a)) = true /\
  exists artAbsPath artBytes,
    truthyString (safeJoin (cwd rt) runDir (DeliveredArtifact.path a)) = Some artAbsPath /\
    existsSync fs artAbsPath = true /\
    statSync fs artAbsPath = Returned (DeliveredArtifact.bytes a) /\
    (DeliveredArtifact.bytes a >? maxArtifactBytes) = false /\
    readFileSync fs artAbsPath = Returned artBytes /\
    sha256Hex rt artBytes = DeliveredArtifact.sha256 a.

Section VerifyOutcomes.

Context {collation : Collation}.
Variable rt : Runtime.
Variable fs : FileSystem.

Lemma buildResult_single f links :
  buildResult [f] links =
  {| VerificationResult.ok := false;
     VerificationResult.failures := [f];
     VerificationResult.evidenceLinks := links |}.
Proof. reflexivity. Qed.

(** Steps 1-6 either all pass, or the result is a single failure of a
    manifest-stage code on the manifest path, with the two base links. *)
Lemma manifest_stage receipt runDir options :
  (exists manifest,
      manifestVerified rt fs receipt runDir (maxManifestBytesOf options) manifest) \/
  (exists c msg,
      manifestStageCode c = true /\
      verifyEvidence rt fs receipt runDir options =
      buildResult [failure c msg (Some (NormalizedReceipt.manifestPath receipt))]
                  (baseLinks receipt)).
Proof.
  unfold verifyEvidence, manifestVerified.
  fold (maxManifestBytesOf options). fold (maxArtifactBytesOf options).
  destruct (valid (validateRelativePath (NormalizedReceipt.manifestPath receipt)))
    eqn:Hvalid; simpl negb; cbv iota;
    [|right; exists UNSAFE_PATH; eexists; split; reflexivity].
  destruct (truthyString _) as [abs|] eqn:Hjoin;
    [|right; exists UNSAFE_PATH; eexists; split; reflexivity].
  destruct (existsSync fs abs) eqn:Hex; simpl negb; cbv iota;
    [|right; exists MANIFEST_NOT_FOUND; eexists; split; reflexivity].
  destruct (statSync fs abs) as [size|err] eqn:Hstat;
    [|right; exists MANIFEST_READ_ERROR; eexists; split; reflexivity].
  destruct (size >? maxManifestBytesOf options) eqn:Hsize;
    [right; exists MANIFEST_TOO_LARGE; eexists; split; reflexivity|].
  destruct (readFileSync fs abs) as [bytes|err] eqn:Hread;
    [|right; exists MANIFEST_READ_ERROR; eexists; split; reflexivity].
  destruct (String.eqb (sha256Hex rt bytes) (NormalizedReceipt.manifestSha256 receipt))
    eqn:Hhash; simpl negb; cbv iota;
    [|right; exists MANIFEST_HASH_MISMATCH; eexists; split; reflexivity].
  destruct (JSON_parse rt bytes) as [obj|] eqn:Hparse;
    [|right; exists MANIFEST_PARSE_FAIL; eexists; split; reflexivity].
  destruct (safeParse (datetimeRegex rt) obj) as [manifest|issues] eqn:Hschema;
    [|right; exists MANIFEST_SCHEMA_INVALID; eexists; split; reflexivity].
  left. exists manifest. split; [reflexivity|].
  exists abs, size, bytes, obj. apply String.eqb_eq in Hhash.
  repeat split; assumption.
Qed.

(** What one artifact can contribute: a single blocking failure and no
    link, or a size mismatch followed by a read failure and no link, or at
    most a size and a hash mismatch together with its hash link. *)
Inductive ArtifactOutcome (a : DeliveredArtifact.t)
  : list VerificationFailure.t * list EvidenceLink.t -> Prop :=
| outcome_blocked c msg :
    In c [UNSAFE_PATH; ARTIFACT_NOT_FOUND; ARTIFACT_TOO_LARGE] ->
    ArtifactOutcome a ([failure c msg (Some (DeliveredArtifact.path a))], [])
| outcome_unreadable sizeFailure msg :
    (sizeFailure = [] \/
     exists m, sizeFailure =
               [failure ARTIFACT_SIZE_MISMATCH m (Some (DeliveredArtifact.path a))]) ->
    ArtifactOutcome a
      (sizeFailure ++ [failure ARTIFACT_NOT_FOUND msg (Some (DeliveredArtifact.path a))],
       [])
| outcome_hashed sizeFailure hashFailure :
    (sizeFailure = [] \/
     exists m, sizeFailure =
               [failure ARTIFACT_SIZE_MISMATCH m (Some (DeliveredArtifact.path a))]) ->
    (hashFailure = [] \/
     exists m, hashFailure =
               [failure ARTIFACT_HASH_MISMATCH m (Some (DeliveredArtifact.path a))]) ->
    ArtifactOutcome a
      (sizeFailure ++ hashFailure,
       [link "artifactSha256" (DeliveredArtifact.sha256 a)]).

Lemma artifactFindings_outcome runDir maxArtifactBytes a :
  ArtifactOutcome a (artifactFindings rt fs runDir maxArtifactBytes a).
Proof.
  unfold artifactFindings, verifyArtifact.
  destruct (valid _); simpl negb; cbv iota;
    [|apply outcome_blocked; simpl; tauto].
  destruct (truthyString _) as [abs|]; [|apply outcome_blocked; simpl; tauto].
  destruct (existsSync fs abs); simpl negb; cbv iota;
    [|apply outcome_blocked; simpl; tauto].
  destruct (statSync fs abs) as [size|err]; [|apply outcome_blocked; simpl; tauto].
  destruct (size >? maxArtifactBytes); [apply outcome_blocked; simpl; tauto|].
  destruct (readFileSync fs abs) as [bytes|err].
  - destruct (negb (size =? _)), (negb (String.eqb _ _)); simpl.
    + apply (outcome_hashed a (sizeFailure := [_]) (hashFailure := [_]));
        right; eexists; reflexivity.
    + apply (outcome_hashed a (sizeFailure := [_]) (hashFailure := []));
        [right; eexists; reflexivity | now left].
    + apply (outcome_hashed a (sizeFailure := []) (hashFailure := [_]));
        [now left | right; eexists; reflexivity].
    + apply (outcome_hashed a (sizeFailure := []) (hashFailure := []));
        now left.
  - destruct (negb (size =? _)); simpl.
    + apply (outcome_unreadable a (sizeFailure := [_])).
      right; eexists; reflexivity.
    + apply (outcome_unreadable a (sizeFailure := [])). now left.
Qed.

End VerifyOutcomes.

Section VerifyResults.

Context {collation : Collation}.
Variable rt : Runtime.
Variable fs : FileSystem.

Lemma outcome_codes a findings f :
  ArtifactOutcome a findings -> In f (fst findings) ->
  In (VerificationFailure.code f)
     [UNSAFE_PATH; ARTIFACT_NOT_FOUND; ARTIFACT_TOO_LARGE;
      ARTIFACT_SIZE_MISMATCH; ARTIFACT_HASH_MISMATCH] /\
  VerificationFailure.path f = Some (DeliveredArtifact.path a).
Proof.
  intros Ho Hin.
  destruct Ho as [c msg Hc | sf msg Hsf | sf hf Hsf Hhf]; simpl in Hin.
  - destruct Hin as [<- | []]. simpl in *. intuition (subst; auto).
  - apply in_app_or in Hin as [Hin | [<- | []]]; [|simpl; auto 10].
    destruct Hsf as [-> | [m ->]]; [contradiction|].
    destruct Hin as [<- | []]. simpl. auto 10.
  - apply in_app_or in Hin as [Hin | Hin].
    + destruct Hsf as [-> | [m ->]]; [contradiction|].
      destruct Hin as [<- | []]. simpl. auto 10.
    + destruct Hhf as [-> | [m ->]]; [contradiction|].
      destruct Hin as [<- | []]. simpl. auto 10.
Qed.

Lemma outcome_sizes a findings :
  ArtifactOutcome a findings ->
  (List.length (fst findings) <= 2)%nat /\
  (snd findings = [] \/
   snd findings = [link "artifactSha256" (DeliveredArtifact.sha256 a)]).
Proof.
  intros [c msg Hc | sf msg Hsf | sf hf Hsf Hhf]; simpl.
  - split; [lia | now left].
  - split; [|now left]. rewrite length_app.
    destruct Hsf as [-> | [m ->]]; simpl; lia.
  - split; [|now right]. rewrite length_app.
    destruct Hsf as [-> | [m ->]], Hhf as [-> | [m' ->]]; simpl; lia.
Qed.

Lemma deliveredCheck_cases manifest receipt :
  deliveredCheck manifest receipt = [] \/
  deliveredCheck manifest receipt =
    [failure DELIVERED_MISMATCH
             "Receipt delivered[] does not match manifest artifacts" None].
Proof. unfold deliveredCheck. destruct (negb _); auto. Qed.

Lemma flat_map_length_le {A B} (f : A -> list B) (n : nat) (l : list A) :
  (forall x, In x l -> List.length (f x) <= n)%nat ->
  (List.length (flat_map f l) <= n * List.length l)%nat.
Proof.
  induction l as [|x l IH]; intros H; simpl; [lia|].
  rewrite length_app.
  assert (List.length (f x) <= n)%nat by (apply H; now left).
  assert (List.length (flat_map f l) <= n * List.length l)%nat
    by (apply IH; intros y Hy; apply H; now right).
  lia.
Qed.

End VerifyResults.

(** An intact artifact yields no failure and its hash link, and only an
    intact artifact yields no failure. *)
Lemma intact_findings {collation : Collation} (rt : Runtime) (fs : FileSystem)
      (runDir : string) (maxArtifactBytes : Z) (a : DeliveredArtifact.t) :
  artifactIntact rt fs runDir maxArtifactBytes a ->
  artifactFindings rt fs runDir maxArtifactBytes a
  = ([], [link "artifactSha256" (DeliveredArtifact.sha256 a)]).
Proof.
  intros (Hvalid & abs & bytes & Hjoin & Hex & Hstat & Hlimit & Hread & Hhash).
  unfold artifactFindings, verifyArtifact.
  rewrite Hvalid, Hjoin, Hex, Hstat, Hlimit, Hread, Hhash.
  now rewrite Z.eqb_refl, String.eqb_refl.
Qed.

Lemma no_findings_intact {collation : Collation} (rt : Runtime) (fs : FileSystem)
      (runDir : string) (maxArtifactBytes : Z) (a : DeliveredArtifact.t) :
  fst (artifactFindings rt fs runDir maxArtifactBytes a) = [] ->
  artifactIntact rt fs runDir maxArtifactBytes a.
Proof.
  intros Ha. unfold artifactFindings, verifyArtifact in Ha.
  unfold artifactIntact.
  destruct (valid _); simpl negb in *; cbv iota in *; [|discriminate Ha].
  split; [reflexivity|].
  destruct (truthyString _) as [abs|]; [|discriminate Ha].
  destruct (existsSync fs abs) eqn:Hex; simpl negb in *; cbv iota in *;
    [|discriminate Ha].
  destruct (statSync fs abs) as [size|err] eqn:Hstat; [|discriminate Ha].
  destruct (size >? maxArtifactBytes) eqn:Hlimit; [discriminate Ha|].
  destruct (readFileSync fs abs) as [bytes|err] eqn:Hread.
  - destruct (size =? DeliveredArtifact.bytes a) eqn:Hsize; simpl in Ha;
      [|destruct (negb _); discriminate Ha].
    destruct (String.eqb (sha256Hex rt bytes) (DeliveredArtifact.sha256 a)) eqn:Hhash;
      simpl in Ha; [|discriminate Ha].
    apply Z.eqb_eq in Hsize. apply String.eqb_eq in Hhash. subst size.
    exists abs, bytes. repeat split; assumption.
  - simpl in Ha. destruct (negb _); discriminate Ha.
Qed.

(** X1: A failure of a code that only the manifest file can cause is never
    accompanied by anything else: it is the only failure, it names the
    manifest path, no artifact link has been recorded and [ok] is false. *)
Theorem manifest_failure_stands_alone {collation : Collation}
        (rt : Runtime) (fs : FileSystem) (receipt : NormalizedReceipt.t)
        (runDir : string) (options : option VerifyOptions.t)
        (f : VerificationFailure.t) :
  let result := verifyEvidence rt fs receipt runDir options in
  In f (VerificationResult.failures result) ->
  manifestOnlyCode (VerificationFailure.code f) = true ->
  VerificationResult.failures result = [f] /\
  VerificationFailure.path f = Some (NormalizedReceipt.manifestPath receipt) /\
  VerificationResult.evidenceLinks result = baseLinks receipt /\
  VerificationResult.ok result = false.
Proof.
  intros result Hin Hcode. subst result.
  destruct (manifest_stage rt fs receipt runDir options)
    as [[manifest Hm] | (c & msg & _ & Heq)].
  - exfalso.
    rewrite (@verifyEvidence_artifact_stage _ rt fs receipt runDir options manifest Hm)
      in Hin.
    apply buildResult_In, in_app_or in Hin. destruct Hin as [Hin | Hin].
    + destruct (deliveredCheck_cases manifest receipt) as [E | E];
        rewrite E in Hin; [contradiction|].
      destruct Hin as [<- | []]. discriminate Hcode.
    + apply in_flat_map in Hin as (a & _ & Hin).
      destruct (@outcome_codes a _ f
                  (artifactFindings_outcome rt fs runDir (maxArtifactBytesOf options) a)
                  Hin) as [Hc _].
      simpl in Hc.
      repeat (destruct Hc as [Hc | Hc]; [rewrite <- Hc in Hcode; discriminate Hcode|]).
      contradiction.
  - rewrite Heq in *. rewrite buildResult_single in *. simpl in *.
    destruct Hin as [<- | []]. auto.
Qed.

(** X2: Soundness of [ok]: a result with [ok = true] means that the manifest on
    disk has the hash the receipt claims and validates, that it lists the
    delivered paths, and that every delivered artifact is on disk under the
    run directory with the declared size and the declared hash. *)
Theorem ok_sound {collation : Collation}
        (rt : Runtime) (fs : FileSystem) (receipt : NormalizedReceipt.t)
        (runDir : string) (options : option VerifyOptions.t) :
  VerificationResult.ok (verifyEvidence rt fs receipt runDir options) = true ->
  exists manifest,
    manifestVerified rt fs receipt runDir (maxManifestBytesOf options) manifest /\
    pathsJoined (SolverReceiptV0.artifacts manifest)
      = pathsJoined (NormalizedReceipt.delivered receipt) /\
    Forall (artifactIntact rt fs runDir (maxArtifactBytesOf options))
           (NormalizedReceipt.delivered receipt).
Proof.
  intros Hok.
  destruct (manifest_stage rt fs receipt runDir options)
    as [[manifest Hm] | (c & msg & _ & Heq)];
    [|rewrite Heq in Hok; discriminate Hok].
  exists manifest. split; [exact Hm|].
  rewrite (@verifyEvidence_artifact_stage _ rt fs receipt runDir options manifest Hm)
    in Hok.
  apply buildResult_ok in Hok. simpl in Hok.
  apply JsArrayFacts.sort_nil_iff, app_eq_nil in Hok as [Hcheck Hall].
  split.
  - unfold deliveredCheck in Hcheck.
    destruct (String.eqb _ _) eqn:E; [now apply String.eqb_eq | discriminate].
  - apply Forall_forall. intros a Hin.
    apply no_findings_intact.
    destruct (fst (artifactFindings rt fs runDir (maxArtifactBytesOf options) a))
      as [|x l] eqn:E; [reflexivity|].
    assert (Hx : In x (flat_map
                        (fun a => fst (artifactFindings rt fs runDir
                                         (maxArtifactBytesOf options) a))
                        (NormalizedReceipt.delivered receipt))).
    { apply in_flat_map. exists a. split; [exact Hin|]. rewrite E. now left. }
    rewrite Hall in Hx. contradiction.
Qed.

Lemma flat_map_all_nil {A B} (f : A -> list B) (l : list A) :
  (forall a, In a l -> f a = []) -> flat_map f l = [].
Proof.
  induction l as [|a l IH]; intros H; simpl; [reflexivity|].
  rewrite (H a) by now left. apply IH. intros b Hb. apply H. now right.
Qed.

Lemma flat_map_singletons {A B} (f : A -> list B) (g : A -> B) (l : list A) :
  (forall a, In a l -> f a = [g a]) -> flat_map f l = List.map g l.
Proof.
  induction l as [|a l IH]; intros H; simpl; [reflexivity|].
  rewrite (H a) by now left. simpl. f_equal.
  apply IH. intros b Hb. apply H. now right.
Qed.

(** X3: Completeness of [ok]: when the manifest-level checks pass, the manifest
    lists the delivered paths and every delivered artifact is intact, the
    result has [ok = true], no failure, and as evidence the two base links
    followed by the hash link of each delivered artifact, in order. *)
Theorem ok_complete {collation : Collation}
        (rt : Runtime) (fs : FileSystem) (receipt : NormalizedReceipt.t)
        (runDir : string) (options : option VerifyOptions.t)
        (manifest : SolverReceiptV0.t) :
  manifestVerified rt fs receipt runDir (maxManifestBytesOf options) manifest ->
  pathsJoined (SolverReceiptV0.artifacts manifest)
    = pathsJoined (NormalizedReceipt.delivered receipt) ->
  Forall (artifactIntact rt fs runDir (maxArtifactBytesOf options))
         (NormalizedReceipt.delivered receipt) ->
  verifyEvidence rt fs receipt runDir options =
  {| VerificationResult.ok := true;
     VerificationResult.failures := [];
     VerificationResult.evidenceLinks :=
       baseLinks receipt
         ++ List.map (fun a => link "artifactSha256" (DeliveredArtifact.sha256 a))
                     (NormalizedReceipt.delivered receipt) |}.
Proof.
  intros Hm Hpaths Hall.
  rewrite (@verifyEvidence_artifact_stage _ rt fs receipt runDir options manifest Hm).
  unfold deliveredCheck. rewrite Hpaths, String.eqb_refl. simpl negb. cbv iota.
  assert (Hfind : forall a, In a (NormalizedReceipt.delivered receipt) ->
            artifactFindings rt fs runDir (maxArtifactBytesOf options) a =
            ([], [link "artifactSha256" (DeliveredArtifact.sha256 a)])).
  { intros a Hin. rewrite Forall_forall in Hall.
    apply intact_findings, Hall, Hin. }
  rewrite (@flat_map_all_nil _ _ _ (NormalizedReceipt.delivered receipt))
    by (intros a Ha; now rewrite (Hfind a Ha)).
  rewrite (@flat_map_singletons _ _ _
             (fun a => link "artifactSha256" (DeliveredArtifact.sha256 a))
             (NormalizedReceipt.delivered receipt))
    by (intros a Ha; now rewrite (Hfind a Ha)).
  reflexivity.
Qed.

(** X4: The shape of every result: the evidence starts with the two base links
    and continues with hash links of delivered artifacts only, at most one
    per artifact; there are at most [1 + 2 * delivered.length] failures;
    and a failure names the manifest path or the path of a delivered
    artifact, except [DELIVERED_MISMATCH], the only one without a path. *)
Theorem result_shape {collation : Collation}
        (rt : Runtime) (fs : FileSystem) (receipt : NormalizedReceipt.t)
        (runDir : string) (options : option VerifyOptions.t) :
  let result := verifyEvidence rt fs receipt runDir options in
  let delivered := NormalizedReceipt.delivered receipt in
  (exists artifactLinks,
      VerificationResult.evidenceLinks result = baseLinks receipt ++ artifactLinks /\
      (List.length artifactLinks <= List.length delivered)%nat /\
      forall l, In l artifactLinks ->
        exists a, In a delivered /\
                  l = link "artifactSha256" (DeliveredArtifact.sha256 a)) /\
  (List.length (VerificationResult.failures result)
     <= 1 + 2 * List.length delivered)%nat /\
  (forall f, In f (VerificationResult.failures result) ->
     match VerificationFailure.path f with
     | None => VerificationFailure.code f = DELIVERED_MISMATCH
     | Some p =>
         VerificationFailure.code f <> DELIVERED_MISMATCH /\
         (p = NormalizedReceipt.manifestPath receipt \/
          In p (List.map DeliveredArtifact.path delivered))
     end).
Proof.
  intros result delivered. subst result delivered.
  destruct (manifest_stage rt fs receipt runDir options)
    as [[manifest Hm] | (c & msg & Hc & Heq)].
  - rewrite (@verifyEvidence_artifact_stage _ rt fs receipt runDir options manifest Hm).
    set (findings := artifactFindings rt fs runDir (maxArtifactBytesOf options)).
    assert (Hout : forall a, ArtifactOutcome a (findings a))
      by (intros a; apply artifactFindings_outcome).
    split; [|split].
    + exists (flat_map (fun a => snd (findings a)) (NormalizedReceipt.delivered receipt)).
      split; [reflexivity|]. split.
      * rewrite <- (Nat.mul_1_l (List.length (NormalizedReceipt.delivered receipt))).
        apply flat_map_length_le. intros a _.
        destruct (outcome_sizes (Hout a)) as [_ [-> | ->]]; simpl; lia.
      * intros l Hl. apply in_flat_map in Hl as (a & Ha & Hl).
        exists a. split; [exact Ha|].
        destruct (outcome_sizes (Hout a)) as [_ [E | E]]; rewrite E in Hl;
          [contradiction | now destruct Hl as [<- | []]].
    + simpl VerificationResult.failures.
      rewrite JsArrayFacts.sort_length, length_app.
      assert (List.length (deliveredCheck manifest receipt) <= 1)%nat
        by (destruct (deliveredCheck_cases manifest receipt) as [-> | ->]; simpl; lia).
      assert (List.length
                (flat_map (fun a => fst (findings a))
                          (NormalizedReceipt.delivered receipt))
              <= 2 * List.length (NormalizedReceipt.delivered receipt))%nat
        by (apply flat_map_length_le; intros a _; apply (outcome_sizes (Hout a))).
      lia.
    + intros f Hf. apply buildResult_In, in_app_or in Hf. destruct Hf as [Hf | Hf].
      * destruct (deliveredCheck_cases manifest receipt) as [E | E];
          rewrite E in Hf; [contradiction|].
        destruct Hf as [<- | []]. reflexivity.
      * apply in_flat_map in Hf as (a & Ha & Hf).
        destruct (@outcome_codes a _ f (Hout a) Hf) as [Hcode ->].
        split.
        -- simpl in Hcode. intros E. rewrite E in Hcode.
           intuition discriminate.
        -- right. now apply in_map.
  - rewrite Heq, buildResult_single. simpl.
    split; [|split].
    + exists []. split; [reflexivity|].
      split; [apply Nat.le_0_l | intros l []].
    + lia.
    + intros f [<- | []]. simpl. split; [|now left].
      intros ->. discriminate Hc.
Qed.

(** [a] is [base] or lies below it. *)
Definition inside (base p : string) : Prop :=
  p = base \/ startsWith (base +++ "/") p = true.

(** Two file systems that look the same inside [base]. *)
Definition agreeInside (base : string) (fs1 fs2 : FileSystem) : Prop :=
  forall p, inside base p ->
    existsSync fs1 p = existsSync fs2 p /\
    statSync fs1 p = statSync fs2 p /\
    readFileSync fs1 p = readFileSync fs2 p.

Lemma truthy_safeJoin_inside cwd0 runDir p joined :
  truthyString (safeJoin cwd0 runDir p) = Some joined ->
  inside (NodePath.resolve cwd0 [runDir]) joined.
Proof.
  unfold truthyString.
  destruct (safeJoin cwd0 runDir p) as [j|] eqn:E; [|discriminate].
  destruct (isEmpty j); [discriminate|]. intros [= <-].
  now apply safeJoin_contained in E.
Qed.

(** X5: Confinement: [verifyEvidence] consults the file system only inside the
    resolved run directory.  Whatever lies outside (files, or their
    absence) cannot change the result. *)
Theorem verifyEvidence_confined {collation : Collation}
        (rt : Runtime) (fs1 fs2 : FileSystem) (receipt : NormalizedReceipt.t)
        (runDir : string) (options : option VerifyOptions.t) :
  agreeInside (NodePath.resolve (cwd rt) [runDir]) fs1 fs2 ->
  verifyEvidence rt fs1 receipt runDir options
  = verifyEvidence rt fs2 receipt runDir options.
Proof.
  intros Hagree.
  assert (Hart : forall maxBytes state a,
            verifyArtifact rt fs1 runDir maxBytes state a
            = verifyArtifact rt fs2 runDir maxBytes state a).
  { intros maxBytes [failures links] a. unfold verifyArtifact.
    destruct (valid _); [|reflexivity]. simpl negb. cbv iota.
    destruct (truthyString _) as [abs|] eqn:Hjoin; [|reflexivity].
    destruct (Hagree abs (truthy_safeJoin_inside _ _ _ Hjoin)) as (-> & -> & ->).
    reflexivity. }
  assert (Hfold : forall maxBytes l state,
            fold_left (verifyArtifact rt fs1 runDir maxBytes) l state
            = fold_left (verifyArtifact rt fs2 runDir maxBytes) l state).
  { intros maxBytes l. induction l as [|a l IH]; intros state; simpl;
      [reflexivity | now rewrite Hart, IH]. }
  unfold verifyEvidence.
  destruct (valid _); [|reflexivity]. simpl negb. cbv iota.
  destruct (truthyString _) as [abs|] eqn:Hjoin; [|reflexivity].
  destruct (Hagree abs (truthy_safeJoin_inside _ _ _ Hjoin)) as (-> & -> & ->).
  destruct (existsSync fs2 abs); [|reflexivity]. simpl negb. cbv iota.
  destruct (statSync fs2 abs); [|reflexivity].
  destruct (_ >? _); [reflexivity|].
  destruct (readFileSync fs2 abs); [|reflexivity].
  destruct (negb _); [reflexivity|].
  destruct (JSON_parse rt _); [|reflexivity].
  destruct (safeParse _ _); [|reflexivity].
  now rewrite Hfold.
Qed.

(* ------------------------------------------------------------------ *)
(** ** [normalizeReceipt] *)

Section NormalizeFacts.

Context {collation : Collation}.
Variable rt : Runtime.

(** [a] does not sort after [b]. *)
Definition pathLe (a b : ArtifactEntry.t) : Prop :=
  localeCompare (ArtifactEntry.path a) (ArtifactEntry.path b) <> Gt.

Lemma compareByPath_total a b :
  compareByPath a b = Gt -> compareByPath b a <> Gt.
Proof.
  unfold compareByPath. rewrite (localeCompare_antisym (ArtifactEntry.path a)).
  destruct (localeCompare (ArtifactEntry.path a) (ArtifactEntry.path b));
    simpl; congruence.
Qed.

Lemma pathLe_trans a b c : pathLe a b -> pathLe b c -> pathLe a c.
Proof. unfold pathLe. apply localeCompare_trans. Qed.

Lemma copy_artifacts (l : list ArtifactEntry.t) :
  List.map (fun a =>
              {| DeliveredArtifact.path := ArtifactEntry.path a;
                 DeliveredArtifact.sha256 := ArtifactEntry.sha256 a;
                 DeliveredArtifact.bytes := ArtifactEntry.bytes a;
                 DeliveredArtifact.contentType := ArtifactEntry.contentType a |}) l
  = l.
Proof.
  induction l as [|a l IH]; simpl; [reflexivity|].
  rewrite IH. now destruct a.
Qed.

Lemma delivered_is_sorted_artifacts manifest h :
  NormalizedReceipt.delivered (normalizeReceipt rt manifest h) =
  JsArray.sort compareByPath (SolverReceiptV0.artifacts manifest).
Proof. unfold normalizeReceipt. simpl. apply copy_artifacts. Qed.

End NormalizeFacts.

Section SortedLists.

Variable A : Type.
Variable compareFn : A -> A -> comparison.
Hypothesis compareFn_total : forall a b, compareFn a b = Gt -> compareFn b a <> Gt.

Lemma insert_below x l :
  HdRel (JsArrayFacts.inOrder compareFn) x l ->
  JsArray.insert compareFn x l = x :: l.
Proof.
  intros H. destruct l as [|y l]; [reflexivity|]. simpl.
  inversion H as [|? ? Hxy]; subst.
  apply JsArrayFacts.notAfter_inOrder in Hxy. now rewrite Hxy.
Qed.

(** Sorting a sorted list changes nothing. *)
Lemma sort_sorted_id l :
  Sorted (JsArrayFacts.inOrder compareFn) l -> JsArray.sort compareFn l = l.
Proof.
  induction 1 as [|x l Hs IH Hhd]; simpl; [reflexivity|].
  rewrite IH. now apply insert_below.
Qed.

Lemma sort_idempotent l :
  JsArray.sort compareFn (JsArray.sort compareFn l) = JsArray.sort compareFn l.
Proof. apply sort_sorted_id, JsArrayFacts.sort_sorted, compareFn_total. Qed.

Hypothesis compareFn_trans :
  forall a b c, JsArrayFacts.inOrder compareFn a b ->
                JsArrayFacts.inOrder compareFn b c ->
                JsArrayFacts.inOrder compareFn a c.
Hypothesis compareFn_refl : forall a, JsArrayFacts.inOrder compareFn a a.

(** Two sorted arrangements of the same elements coincide, provided no two
    different elements compare as equal. *)
Lemma sorted_permutation_unique l1 : forall l2,
  (forall a b, In a l1 -> In b l1 ->
               JsArrayFacts.inOrder compareFn a b ->
               JsArrayFacts.inOrder compareFn b a -> a = b) ->
  StronglySorted (JsArrayFacts.inOrder compareFn) l1 ->
  StronglySorted (JsArrayFacts.inOrder compareFn) l2 ->
  Permutation l1 l2 -> l1 = l2.
Proof.
  induction l1 as [|x l1 IH]; intros l2 Hdistinct Hs1 Hs2 Hp.
  - apply Permutation_nil in Hp. now subst.
  - destruct l2 as [|y l2];
      [apply Permutation_sym, Permutation_nil in Hp; discriminate|].
    inversion Hs1 as [|? ? Hs1' Hx]; subst.
    inversion Hs2 as [|? ? Hs2' Hy]; subst.
    assert (Hxy : x = y).
    { assert (Hyin : In y (x :: l1))
        by (eapply Permutation_in; [symmetry; exact Hp | now left]).
      assert (Hxin : In x (y :: l2))
        by (eapply Permutation_in; [exact Hp | now left]).
      apply Hdistinct; [now left | exact Hyin | |].
      - destruct Hyin as [<- | Hyin]; [apply compareFn_refl|].
        rewrite Forall_forall in Hx. now apply Hx.
      - destruct Hxin as [<- | Hxin]; [apply compareFn_refl|].
        rewrite Forall_forall in Hy. now apply Hy. }
    subst y. f_equal. apply IH; try assumption.
    + intros a b Ha Hb. apply Hdistinct; now right.
    + now apply Permutation_cons_inv in Hp.
Qed.

End SortedLists.

(** X6: [delivered] is the manifest's artifact list, rearranged into
    non-decreasing order of [path]: nothing is dropped, duplicated or
    altered. *)
Theorem delivered_sorted_permutation {collation : Collation} (rt : Runtime)
        (manifest : SolverReceiptV0.t) (h : string) :
  let delivered := NormalizedReceipt.delivered (normalizeReceipt rt manifest h) in
  Permutation delivered (SolverReceiptV0.artifacts manifest) /\
  StronglySorted pathLe delivered.
Proof.
  cbv zeta. rewrite delivered_is_sorted_artifacts. split.
  - apply JsArrayFacts.sort_perm.
  - apply Sorted_StronglySorted; [intros a b c; apply pathLe_trans|].
    apply (JsArrayFacts.sort_sorted compareByPath compareByPath_total).
Qed.

(** X7: Order independence of [delivered]: two manifests that list the same
    artifacts in different orders normalize to the same [delivered] list,
    provided that no two different entries have paths that the collation
    treats as equal. *)
Theorem delivered_order_independent {collation : Collation} (rt : Runtime)
        (m1 m2 : SolverReceiptV0.t) (h1 h2 : string) :
  Permutation (SolverReceiptV0.artifacts m1) (SolverReceiptV0.artifacts m2) ->
  (forall a b, In a (SolverReceiptV0.artifacts m1) ->
               In b (SolverReceiptV0.artifacts m1) ->
               localeCompare (ArtifactEntry.path a) (ArtifactEntry.path b) = Eq ->
               a = b) ->
  NormalizedReceipt.delivered (normalizeReceipt rt m1 h1)
  = NormalizedReceipt.delivered (normalizeReceipt rt m2 h2).
Proof.
  intros Hp Hdistinct. rewrite !delivered_is_sorted_artifacts.
  assert (Hss : forall l, StronglySorted (JsArrayFacts.inOrder compareByPath)
                            (JsArray.sort compareByPath l)).
  { intros l. apply Sorted_StronglySorted.
    - intros a b c. apply pathLe_trans.
    - apply JsArrayFacts.sort_sorted, compareByPath_total. }
  apply (@sorted_permutation_unique _ compareByPath).
  - intros a. unfold JsArrayFacts.inOrder, compareByPath.
    rewrite localeCompare_refl. discriminate.
  - intros a b Ha Hb Hab Hba.
    apply JsArrayFacts.sort_In in Ha, Hb. apply Hdistinct; try assumption.
    unfold JsArrayFacts.inOrder, compareByPath in Hab, Hba.
    rewrite (localeCompare_antisym (ArtifactEntry.path a)) in Hba.
    destruct (localeCompare (ArtifactEntry.path a) (ArtifactEntry.path b));
      simpl in *; congruence.
  - apply Hss.
  - apply Hss.
  - rewrite !JsArrayFacts.sort_perm. exact Hp.
Qed.

(** Stability shows when paths do collide: entries with the same path keep
    the order the manifest lists them in, so [delivered] then depends on
    that order. *)
Example delivered_depends_on_order_of_equal_paths :
  let first := Example.artifact "a.txt" (hex64 "a") 1 in
  let second := Example.artifact "a.txt" (hex64 "b") 2 in
  JsArray.sort (compareByPath (collation := ByteOrder.collation)) [first; second]
    = [first; second] /\
  JsArray.sort (compareByPath (collation := ByteOrder.collation)) [second; first]
    = [second; first].
Proof. split; reflexivity. Qed.

(** X8: What validation guarantees about a receipt: normalizing a document that
    [safeParse] accepted gives a receipt of version ["0.1.0"], with a
    status among the three literals, the fixed manifest path (which passes
    the path check), one delivered entry per artifact of the document, and
    in every entry a 64-digit lowercase hexadecimal hash and a non-negative
    size. *)
Theorem validated_receipt_well_formed {collation : Collation} (rt : Runtime)
        (doc : json) (manifest : SolverReceiptV0.t) (h : string) :
  safeParse (datetimeRegex rt) doc = Zod.ParseSuccess manifest ->
  let receipt := normalizeReceipt rt manifest h in
  NormalizedReceipt.receiptVersion receipt = "0.1.0" /\
  In (NormalizedReceipt.status receipt) ["SUCCESS"; "FAILED"; "REFUSED"] /\
  NormalizedReceipt.manifestSha256 receipt = h /\
  valid (validateRelativePath (NormalizedReceipt.manifestPath receipt)) = true /\
  (exists fields items,
      doc = JObject fields /\ getField "artifacts" fields = Some (JArray items) /\
      List.length (NormalizedReceipt.delivered receipt) = List.length items) /\
  Forall (fun a => sha256Regex (DeliveredArtifact.sha256 a) = true /\
                   0 <= DeliveredArtifact.bytes a)
         (NormalizedReceipt.delivered receipt).
Proof.
  intros Hparse receipt. subst receipt.
  apply SchemaFacts.manifest_success in Hparse.
  destruct Hparse as (fields & items & -> & _ & Hversion & _ & _ & _ & _ & _
                      & Hitems & Hall & _ & Hsummary & _).
  destruct Hsummary as (sf & _ & _ & Hstatus & _).
  split; [exact Hversion|]. split; [exact Hstatus|]. split; [reflexivity|].
  split; [reflexivity|]. split.
  - exists fields, items. split; [reflexivity|]. split; [exact Hitems|].
    rewrite delivered_is_sorted_artifacts, JsArrayFacts.sort_length.
    symmetry. eapply Forall2_length, Hall.
  - rewrite delivered_is_sorted_artifacts.
    assert (Hartifacts :
      Forall (fun a => sha256Regex (ArtifactEntry.sha256 a) = true /\
                       0 <= ArtifactEntry.bytes a)
             (SolverReceiptV0.artifacts manifest)).
    { clear Hitems. induction Hall as [|item a items' l' Ha _ IH]; constructor; auto.
      destruct Ha as (af & q & _ & _ & _ & Hre & _ & _ & Hn & Hb & _).
      split; [exact Hre|]. rewrite Hb.
      apply Z.div_pos; [|reflexivity].
      unfold Zod.isNonnegative in Hn. now apply Z.leb_le. }
    rewrite Forall_forall in *. intros a Ha.
    apply Hartifacts. now apply JsArrayFacts.sort_In in Ha.
Qed.

(** X9: In the ingest pipeline the receipt is normalized from the very manifest
    that [verifyEvidence] parses again; then the delivered list always
    matches and [DELIVERED_MISMATCH] is never reported. *)
Theorem no_delivered_mismatch_after_normalize {collation : Collation}
        (rt : Runtime) (fs : FileSystem) (manifest : SolverReceiptV0.t)
        (h runDir : string) (options : option VerifyOptions.t) :
  manifestVerified rt fs (normalizeReceipt rt manifest h) runDir
                   (maxManifestBytesOf options) manifest ->
  ~ In DELIVERED_MISMATCH
       (List.map VerificationFailure.code
          (VerificationResult.failures
             (verifyEvidence rt fs (normalizeReceipt rt manifest h) runDir options))).
Proof.
  intros Hm Hin.
  apply (@delivered_mismatch_iff_joined_differ _ rt fs _ runDir options manifest Hm)
    in Hin.
  apply Hin. unfold pathsJoined.
  rewrite delivered_is_sorted_artifacts.
  now rewrite (sort_idempotent compareByPath compareByPath_total).
Qed.

(* ------------------------------------------------------------------ *)
(** ** What [deriveBehaviorSignals] reports and what it leaves out *)

Section DeriveCoverage.

Context {collation : Collation}.

Lemma failuresWithCode_In c failures f :
  In f (failuresWithCode c failures) <->
  In f failures /\ VerificationFailure.code f = c.
Proof.
  unfold failuresWithCode. rewrite filter_In, codeEqb_eq. tauto.
Qed.

Lemma matching_In failures (def : SignalDef.t) f :
  In f (flat_map (fun c => failuresWithCode c failures) (SignalDef.codes def)) <->
  In f failures /\ In (VerificationFailure.code f) (SignalDef.codes def).
Proof.
  rewrite in_flat_map. split.
  - intros (c & Hc & Hf). apply failuresWithCode_In in Hf as [Hf <-]. auto.
  - intros [Hf Hc]. exists (VerificationFailure.code f).
    split; [exact Hc | now apply failuresWithCode_In].
Qed.

(** The signals of a failed result are exactly those of the definitions
    that some failure triggers. *)
Lemma derive_failed_In result receipt t s :
  VerificationResult.ok result = false ->
  (In s (deriveBehaviorSignals result receipt t) <->
   exists def,
     In def SIGNAL_DEFS /\
     (exists f, In f (VerificationResult.failures result) /\
                In (VerificationFailure.code f) (SignalDef.codes def)) /\
     s = signalFor (VerificationResult.failures result) (baseEvidenceOf receipt) t def).
Proof.
  intros Hok. rewrite (@derive_failed _ result receipt t Hok), in_flat_map.
  split.
  - intros (def & Hdef & Hs). exists def. split; [exact Hdef|].
    rewrite deriveOne_spec in Hs.
    destruct (flat_map _ (SignalDef.codes def)) as [|f l] eqn:E; [contradiction|].
    destruct Hs as [<- | []]. split; [|reflexivity].
    exists f. apply matching_In. rewrite E. now left.
  - intros (def & Hdef & (f & Hf & Hc) & ->). exists def. split; [exact Hdef|].
    rewrite deriveOne_spec.
    destruct (flat_map _ (SignalDef.codes def)) as [|f' l] eqn:E; [|now left].
    assert (Hin : In f (flat_map (fun c => failuresWithCode c
                                   (VerificationResult.failures result))
                                 (SignalDef.codes def)))
      by now apply matching_In.
    rewrite E in Hin. contradiction.
Qed.

Lemma code_has_definition c :
  c <> ARTIFACT_TOO_LARGE ->
  exists def, In def SIGNAL_DEFS /\ In c (SignalDef.codes def).
Proof.
  intros Hc.
  destruct (find (fun d => existsb (codeEqb c) (SignalDef.codes d)) SIGNAL_DEFS)
    as [def|] eqn:E.
  - apply find_some in E as [Hin Hex]. exists def. split; [exact Hin|].
    apply existsb_exists in Hex as (x & Hx & Heq).
    apply codeEqb_eq in Heq. now subst.
  - destruct c; try discriminate E. contradiction.
Qed.

Lemma definitions_skip_too_large def :
  In def SIGNAL_DEFS -> ~ In ARTIFACT_TOO_LARGE (SignalDef.codes def).
Proof.
  intros Hdef Hin. simpl in Hdef.
  repeat (destruct Hdef as [<- | Hdef];
          [simpl in Hin; intuition discriminate|]).
  contradiction.
Qed.

End DeriveCoverage.

(** X10: No failure is lost, except one kind.  In a failed result every failure
    whose code is not [ARTIFACT_TOO_LARGE] is reported by a signal: the one
    of the definition that lists its code, with that definition's severity
    and weight and the given observation time, and with the failure's path
    among the evidence when it has one. *)
Theorem every_failure_is_signalled {collation : Collation}
        (result : VerificationResult.t) (receipt : NormalizedReceipt.t) (t : Z)
        (f : VerificationFailure.t) :
  VerificationResult.ok result = false ->
  In f (VerificationResult.failures result) ->
  VerificationFailure.code f <> ARTIFACT_TOO_LARGE ->
  exists def s,
    In def SIGNAL_DEFS /\
    In (VerificationFailure.code f) (SignalDef.codes def) /\
    In s (deriveBehaviorSignals result receipt t) /\
    Signal.signalId s = SignalDef.signalId def /\
    Signal.severity s = SignalDef.severity def /\
    Signal.weight s = SignalDef.weight def /\
    Signal.observedAt s = t /\
    (hasPath f = true -> In (failurePathLink f) (Signal.evidence s)).
Proof.
  intros Hok Hf Hcode.
  destruct (code_has_definition Hcode) as (def & Hdef & Hc).
  exists def,
    (signalFor (VerificationResult.failures result) (baseEvidenceOf receipt) t def).
  split; [exact Hdef|]. split; [exact Hc|]. split.
  - apply (@derive_failed_In _ result receipt t _ Hok). exists def. split; [exact Hdef|].
    split; [|reflexivity]. now exists f.
  - repeat split. intros Hpath. cbn [signalFor Signal.evidence].
    apply sortEvidence_In, in_or_app. right.
    apply in_map, filter_In. split; [|exact Hpath].
    now apply matching_In.
Qed.

(** X11: The silent case: [deriveBehaviorSignals] returns no signal at all
    exactly when the result is not [ok] and every failure in it is
    [ARTIFACT_TOO_LARGE], the one code no signal definition lists. *)
Theorem no_signal_iff_only_too_large {collation : Collation}
        (result : VerificationResult.t) (receipt : NormalizedReceipt.t) (t : Z) :
  deriveBehaviorSignals result receipt t = [] <->
  VerificationResult.ok result = false /\
  Forall (fun f => VerificationFailure.code f = ARTIFACT_TOO_LARGE)
         (VerificationResult.failures result).
Proof.
  split.
  - intros Hnil.
    destruct (VerificationResult.ok result) eqn:Hok.
    + unfold deriveBehaviorSignals in Hnil. rewrite Hok in Hnil. discriminate.
    + split; [reflexivity|]. apply Forall_forall. intros f Hf.
      destruct (codeEqb (VerificationFailure.code f) ARTIFACT_TOO_LARGE) eqn:E;
        [now apply codeEqb_eq|].
      assert (Hcode : VerificationFailure.code f <> ARTIFACT_TOO_LARGE)
        by (intros H; apply codeEqb_eq in H; congruence).
      destruct (code_has_definition Hcode) as (def & Hdef & Hc).
      assert (Hs : In (signalFor (VerificationResult.failures result)
                                 (baseEvidenceOf receipt) t def)
                      (deriveBehaviorSignals result receipt t)).
      { apply (@derive_failed_In _ result receipt t _ Hok). exists def.
        split; [exact Hdef|]. split; [now exists f | reflexivity]. }
      rewrite Hnil in Hs. contradiction.
  - intros [Hok Hall].
    destruct (deriveBehaviorSignals result receipt t) as [|s l] eqn:E;
      [reflexivity|].
    assert (Hs : In s (deriveBehaviorSignals result receipt t))
      by (rewrite E; now left).
    apply (@derive_failed_In _ result receipt t _ Hok) in Hs
      as (def & Hdef & (f & Hf & Hc) & _).
    rewrite Forall_forall in Hall. rewrite (Hall f Hf) in Hc.
    now apply definitions_skip_too_large in Hc.
Qed.

(** X12: [BE_VERIFIED_OK] is emitted exactly for results with [ok = true], and
    then it is the only signal. *)
Theorem verified_ok_iff_ok {collation : Collation}
        (result : VerificationResult.t) (receipt : NormalizedReceipt.t) (t : Z) :
  (In "BE_VERIFIED_OK"
      (List.map Signal.signalId (deriveBehaviorSignals result receipt t))
   <-> VerificationResult.ok result = true) /\
  (VerificationResult.ok result = true ->
   List.map Signal.signalId (deriveBehaviorSignals result receipt t)
   = ["BE_VERIFIED_OK"]).
Proof.
  assert (Hok_case : VerificationResult.ok result = true ->
            List.map Signal.signalId (deriveBehaviorSignals result receipt t)
            = ["BE_VERIFIED_OK"]).
  { intros Hok. unfold deriveBehaviorSignals. now rewrite Hok. }
  split; [|exact Hok_case]. split.
  - intros Hin. destruct (VerificationResult.ok result) eqn:Hok; [reflexivity|].
    exfalso. apply in_map_iff in Hin as (s & Hid & Hs).
    apply (@derive_failed_In _ result receipt t _ Hok) in Hs as (def & Hdef & _ & ->).
    simpl in Hid, Hdef.
    repeat (destruct Hdef as [<- | Hdef]; [discriminate Hid|]).
    contradiction.
  - intros Hok. rewrite (Hok_case Hok). now left.
Qed.

(** X13: No evidence is made up.  In the signals of a failed result, every
    evidence link is one of the two base links of the receipt, or a
    [failurePath] link holding the non-empty path of a failure whose code
    the signal's definition lists. *)
Theorem signal_evidence_is_grounded {collation : Collation}
        (result : VerificationResult.t) (receipt : NormalizedReceipt.t) (t : Z)
        (s : Signal.t) (l : EvidenceLink.t) :
  VerificationResult.ok result = false ->
  In s (deriveBehaviorSignals result receipt t) ->
  In l (Signal.evidence s) ->
  In l (baseEvidenceOf receipt) \/
  exists def f,
    In def SIGNAL_DEFS /\ SignalDef.signalId def = Signal.signalId s /\
    In f (VerificationResult.failures result) /\
    In (VerificationFailure.code f) (SignalDef.codes def) /\
    EvidenceLink.type l = "failurePath" /\
    VerificationFailure.path f = Some (EvidenceLink.ref l) /\
    EvidenceLink.ref l <> EmptyString.
Proof.
  intros Hok Hs Hl.
  apply (@derive_failed_In _ result receipt t _ Hok) in Hs as (def & Hdef & _ & ->).
  cbn [signalFor Signal.evidence] in Hl. apply sortEvidence_In, in_app_or in Hl.
  destruct Hl as [Hl | Hl]; [now left | right].
  apply in_map_iff in Hl as (f & <- & Hf).
  apply filter_In in Hf as [Hf Hpath]. apply matching_In in Hf as [Hf Hc].
  exists def, f. repeat split; try assumption.
  - unfold hasPath, truthyString in Hpath. unfold failurePathLink. simpl.
    destruct (VerificationFailure.path f) as [p|]; [reflexivity | discriminate].
  - unfold hasPath, truthyString in Hpath. unfold failurePathLink. simpl.
    destruct (VerificationFailure.path f) as [[|c p]|]; simpl in *;
      discriminate.
Qed.

(* ------------------------------------------------------------------ *)
(** ** [inferRunDir] *)

Module DirnameFacts.

Lemma chars_append (a b : string) :
  list_ascii_of_string (a +++ b) = list_ascii_of_string a ++ list_ascii_of_string b.
Proof. induction a as [|c a IH]; simpl; [reflexivity | now rewrite IH]. Qed.

Lemma dropWhile_all (p : ascii -> bool) l1 x l2 :
  forallb p l1 = true -> p x = false ->
  NodePath.dropWhile p (l1 ++ x :: l2) = x :: l2.
Proof.
  intros Hall Hx. induction l1 as [|c l1 IH]; simpl.
  - now rewrite Hx.
  - simpl in Hall. apply andb_true_iff in Hall as [Hc Hall].
    rewrite Hc. now apply IH.
Qed.

Lemma dropWhile_head (p : ascii -> bool) x l :
  p x = false -> NodePath.dropWhile p (x :: l) = x :: l.
Proof. intros Hx. simpl. now rewrite Hx. Qed.

Definition noSlash (name : string) : bool :=
  forallb (fun c => negb (NodePath.isSlash c)) (list_ascii_of_string name).

Lemma forallb_rev {A} (p : A -> bool) l : forallb p (List.rev l) = forallb p l.
Proof.
  induction l as [|x l IH]; simpl; [reflexivity|].
  rewrite forallb_app, IH. simpl. rewrite andb_true_r. apply andb_comm.
Qed.

(** The directory of [d/name] is [d], unless [d] is the root. *)
Lemma dirname_join (d name : string) :
  d <> EmptyString -> d <> "/" -> name <> EmptyString -> noSlash name = true ->
  NodePath.dirname (d +++ "/" +++ name) = d.
Proof.
  intros Hd Hroot Hname Hns.
  destruct d as [|first dtail]; [contradiction|].
  unfold NodePath.dirname. simpl String.append. cbv iota.
  rewrite chars_append. simpl list_ascii_of_string.
  rewrite rev_app_distr. simpl List.rev. rewrite <- app_assoc. simpl app.
  destruct (List.rev (list_ascii_of_string name)) as [|c rest] eqn:Erev.
  { exfalso. apply (f_equal (@List.rev ascii)) in Erev.
    rewrite rev_involutive in Erev. simpl in Erev.
    destruct name; [contradiction | discriminate]. }
  assert (Hall : forallb (fun c => negb (NodePath.isSlash c)) (c :: rest) = true)
    by (rewrite <- Erev, forallb_rev; exact Hns).
  simpl in Hall. apply andb_true_iff in Hall as [Hc Hrest].
  apply negb_true_iff in Hc.
  rewrite <- app_comm_cons, (@dropWhile_head NodePath.isSlash c _ Hc).
  rewrite app_comm_cons.
  rewrite (@dropWhile_all (fun c0 => negb (NodePath.isSlash c0)) (c :: rest) slash);
    [| simpl; now rewrite Hc, Hrest
     | unfold NodePath.isSlash; now rewrite Ascii.eqb_refl].
  destruct (List.rev (list_ascii_of_string dtail)) as [|b before] eqn:Edt.
  - apply (f_equal (@List.rev ascii)) in Edt.
    rewrite rev_involutive in Edt. simpl in Edt.
    assert (dtail = EmptyString) by (destruct dtail; [reflexivity | discriminate]).
    subst dtail.
    destruct (NodePath.isSlash first) eqn:Hfirst; [|reflexivity].
    exfalso. apply Hroot. unfold NodePath.isSlash in Hfirst.
    apply Ascii.eqb_eq in Hfirst. now subst.
  - rewrite <- Edt, rev_involutive, string_of_list_ascii_of_string. reflexivity.
Qed.

Lemma append_nil_r (a : string) : a +++ EmptyString = a.
Proof. induction a as [|x a IH]; simpl; [reflexivity | now rewrite IH]. Qed.

Lemma append_assoc (a b c : string) : (a +++ b) +++ c = a +++ b +++ c.
Proof. induction a as [|x a IH]; simpl; [reflexivity | now rewrite IH]. Qed.

Lemma rev_append (a b : string) :
  JsString.rev (a +++ b) = JsString.rev b +++ JsString.rev a.
Proof.
  induction a as [|c a IH]; simpl.
  - now rewrite append_nil_r.
  - now rewrite IH, append_assoc.
Qed.

Lemma endsWith_append (r p : string) : endsWith p (r +++ p) = true.
Proof. unfold endsWith. rewrite rev_append. apply startsWith_app. Qed.

End DirnameFacts.

(** X14: Round trip with the receipt convention: for a receipt at
    [<runDir>/evidence/manifest.json], [inferRunDir] gives back [runDir]
    (for the root directory, from [/evidence/manifest.json], it gives
    [/]). *)
Theorem inferRunDir_conventional (runDir : string) :
  runDir <> "/" ->
  inferRunDir (runDir +++ "/evidence/manifest.json")
  = if isEmpty runDir then "/" else runDir.
Proof.
  intros Hroot. unfold inferRunDir.
  assert (Hdir : NodePath.dirname (runDir +++ "/evidence/manifest.json")
                 = runDir +++ "/evidence").
  { change "/evidence/manifest.json" with ("/evidence" +++ "/" +++ "manifest.json").
    rewrite <- DirnameFacts.append_assoc.
    apply DirnameFacts.dirname_join; try discriminate; try reflexivity.
    all: destruct runDir as [|c [|c' r]]; simpl; discriminate. }
  rewrite Hdir, DirnameFacts.endsWith_append. simpl orb. cbv iota.
  destruct runDir as [|c r]; [reflexivity|]. simpl isEmpty. cbv iota.
  change "/evidence" with ("/" +++ "evidence").
  apply DirnameFacts.dirname_join; try discriminate; try reflexivity.
  exact Hroot.
Qed.

(** X15: The fallback: a receipt whose directory is not named [evidence] has that
    directory taken for the run directory. *)
Theorem inferRunDir_fallback (dir name : string) :
  dir <> EmptyString -> dir <> "/" ->
  name <> EmptyString -> DirnameFacts.noSlash name = true ->
  endsWith "/evidence" dir = false ->
  endsWith (str1 backslash +++ "evidence") dir = false ->
  inferRunDir (dir +++ "/" +++ name) = dir.
Proof.
  intros Hd Hroot Hname Hns Hslash Hback. unfold inferRunDir.
  rewrite (DirnameFacts.dirname_join Hd Hroot Hname Hns), Hslash, Hback.
  reflexivity.
Qed.

(* ------------------------------------------------------------------ *)
(** ** Worked runs for the properties above *)

(** run-004: a run whose single artifact is on disk as declared. *)
Module GoodRun.

Definition manifestText : string := "manifest.json of run-004..".

Definition manifestDoc : json :=
  exampleManifest "0.1.0" "irsb-solver" "SUCCESS"
    [exampleArtifact "artifacts/report.txt" (Example.digest "hello") 5].

Definition files : list (string * string) :=
  [ ("/runs/run-004/evidence/manifest.json", manifestText);
    ("/runs/run-004/artifacts/report.txt", "hello") ].

Definition fsOf (table : list (string * string)) : FileSystem :=
  {| existsSync := fun p =>
       match Example.lookup p table with Some _ => true | None => false end;
     statSync := fun p =>
       match Example.lookup p table with
       | Some content => Returned (Z.of_nat (String.length content))
       | None => Threw "ENOENT: no such file or directory"
       end;
     readFileSync := fun p =>
       match Example.lookup p table with
       | Some content => Returned content
       | None => Threw "ENOENT: no such file or directory"
       end |}.

Definition fs : FileSystem := fsOf files.

(** The same run directory on a machine that has other files as well. *)
Definition fsWithOutsideFile : FileSystem :=
  fsOf (("/etc/passwd", "root:x:0:0") :: files).

Definition rt : Runtime :=
  {| cwd := "/home/wt";
     sha256Hex := Example.digest;
     JSON_parse := fun text =>
       if String.eqb text manifestText then Some manifestDoc else None;
     datetimeRegex := String.eqb "2025-01-15T12:00:00Z" |}.

Definition manifest : SolverReceiptV0.t :=
  {| SolverReceiptV0.manifestVersion := "0.1.0";
     SolverReceiptV0.intentId := "intent-001";
     SolverReceiptV0.runId := "run-001";
     SolverReceiptV0.jobType := "diagnostic";
     SolverReceiptV0.createdAt := "2025-01-15T12:00:00Z";
     SolverReceiptV0.artifacts :=
       [Example.artifact "artifacts/report.txt" (Example.digest "hello") 5];
     SolverReceiptV0.policyDecision :=
       {| PolicyDecision.allowed := true; PolicyDecision.reasons := [] |};
     SolverReceiptV0.executionSummary :=
       {| ExecutionSummary.status := "SUCCESS"; ExecutionSummary.error := None |};
     SolverReceiptV0.solver :=
       {| SolverMetadata.service := "irsb-solver";
          SolverMetadata.serviceVersion := "1.0.0";
          SolverMetadata.gitCommit := None |} |}.

Definition receipt : NormalizedReceipt.t :=
  normalizeReceipt (collation := ByteOrder.collation) rt manifest
                   (Example.digest manifestText).

Definition verify (fs0 : FileSystem) : VerificationResult.t :=
  verifyEvidence (collation := ByteOrder.collation) rt fs0 receipt "/runs/run-004" None.

End GoodRun.

Example run004_verifies :
  GoodRun.verify GoodRun.fs =
  {| VerificationResult.ok := true;
     VerificationResult.failures := [];
     VerificationResult.evidenceLinks :=
       [ link "receiptId" (NormalizedReceipt.receiptId GoodRun.receipt);
         link "manifestSha256" (Example.digest GoodRun.manifestText);
         link "artifactSha256" (Example.digest "hello") ] |}.
Proof. vm_compute. reflexivity. Qed.

Lemma run004_manifest_verified :
  manifestVerified GoodRun.rt GoodRun.fs GoodRun.receipt "/runs/run-004"
                   DEFAULT_MAX_MANIFEST_BYTES GoodRun.manifest.
Proof.
  split; [reflexivity|].
  exists "/runs/run-004/evidence/manifest.json", 26, GoodRun.manifestText,
         GoodRun.manifestDoc.
  repeat split.
Qed.

Lemma run004_artifacts_intact :
  Forall (artifactIntact GoodRun.rt GoodRun.fs "/runs/run-004"
                         DEFAULT_MAX_ARTIFACT_BYTES)
         (NormalizedReceipt.delivered GoodRun.receipt).
Proof.
  repeat constructor.
  exists "/runs/run-004/artifacts/report.txt", "hello". repeat split.
Qed.

Lemma manifest_failure_stands_alone_witness :
  let result := Example.verify Example.receipt1 "/runs/run-002" in
  let f := failure MANIFEST_HASH_MISMATCH
             ("Manifest hash mismatch: expected "
              +++ Example.digest Example.manifestText1
              +++ ", got " +++ Example.digest Example.manifestText2)
             (Some "evidence/manifest.json") in
  VerificationResult.failures result = [f] /\
  VerificationFailure.path f = Some (NormalizedReceipt.manifestPath Example.receipt1) /\
  VerificationResult.evidenceLinks result = baseLinks Example.receipt1 /\
  VerificationResult.ok result = false.
Proof.
  intros result f.
  apply (@manifest_failure_stands_alone ByteOrder.collation _ _
           (Example.receipt1) "/runs/run-002" None f).
  - vm_compute. left. reflexivity.
  - reflexivity.
Defined.

Lemma ok_sound_witness :
  exists manifest,
    manifestVerified GoodRun.rt GoodRun.fs GoodRun.receipt "/runs/run-004"
                     (maxManifestBytesOf None) manifest /\
    pathsJoined (collation := ByteOrder.collation) (SolverReceiptV0.artifacts manifest)
      = pathsJoined (collation := ByteOrder.collation)
                    (NormalizedReceipt.delivered GoodRun.receipt) /\
    Forall (artifactIntact GoodRun.rt GoodRun.fs "/runs/run-004"
                           (maxArtifactBytesOf None))
           (NormalizedReceipt.delivered GoodRun.receipt).
Proof.
  apply (@ok_sound ByteOrder.collation GoodRun.rt GoodRun.fs GoodRun.receipt
           "/runs/run-004" None).
  vm_compute. reflexivity.
Defined.

Lemma ok_complete_witness :
  GoodRun.verify GoodRun.fs =
  {| VerificationResult.ok := true;
     VerificationResult.failures := [];
     VerificationResult.evidenceLinks :=
       baseLinks GoodRun.receipt
         ++ List.map (fun a => link "artifactSha256" (DeliveredArtifact.sha256 a))
                     (NormalizedReceipt.delivered GoodRun.receipt) |}.
Proof.
  apply (@ok_complete ByteOrder.collation GoodRun.rt GoodRun.fs GoodRun.receipt
           "/runs/run-004" None GoodRun.manifest).
  - exact run004_manifest_verified.
  - reflexivity.
  - exact run004_artifacts_intact.
Defined.

Lemma outside_file_not_inside p :
  inside "/runs/run-004" p -> String.eqb "/etc/passwd" p = false.
Proof.
  intros [-> | H]; [reflexivity|].
  apply startsWith_spec in H as [r ->]. reflexivity.
Qed.

Lemma verifyEvidence_confined_witness :
  GoodRun.verify GoodRun.fsWithOutsideFile = GoodRun.verify GoodRun.fs.
Proof.
  apply (@verifyEvidence_confined ByteOrder.collation GoodRun.rt
           GoodRun.fsWithOutsideFile GoodRun.fs GoodRun.receipt "/runs/run-004" None).
  intros p Hp. apply outside_file_not_inside in Hp.
  unfold GoodRun.fsWithOutsideFile, GoodRun.fs, GoodRun.fsOf.
  cbn [existsSync statSync readFileSync Example.lookup].
  rewrite Hp. repeat split.
Defined.

Lemma delivered_order_independent_witness :
  let a := Example.artifact "a.txt" (hex64 "a") 1 in
  let z := Example.artifact "z.txt" (hex64 "b") 2 in
  let withArtifacts l :=
    {| SolverReceiptV0.manifestVersion := "0.1.0";
       SolverReceiptV0.intentId := "i";
       SolverReceiptV0.runId := "r";
       SolverReceiptV0.jobType := "j";
       SolverReceiptV0.createdAt := "2025-01-15T12:00:00Z";
       SolverReceiptV0.artifacts := l;
       SolverReceiptV0.policyDecision := SolverReceiptV0.policyDecision GoodRun.manifest;
       SolverReceiptV0.executionSummary :=
         SolverReceiptV0.executionSummary GoodRun.manifest;
       SolverReceiptV0.solver := SolverReceiptV0.solver GoodRun.manifest |} in
  NormalizedReceipt.delivered
    (normalizeReceipt (collation := ByteOrder.collation) GoodRun.rt
                      (withArtifacts [z; a]) (hex64 "c"))
  = NormalizedReceipt.delivered
      (normalizeReceipt (collation := ByteOrder.collation) GoodRun.rt
                        (withArtifacts [a; z]) (hex64 "c")).
Proof.
  intros a z withArtifacts.
  apply (@delivered_order_independent ByteOrder.collation GoodRun.rt
           (withArtifacts [z; a]) (withArtifacts [a; z]) (hex64 "c") (hex64 "c")).
  - apply perm_swap.
  - simpl. intros x y [<- | [<- | []]] [<- | [<- | []]] H;
      try reflexivity; discriminate H.
Defined.

Lemma validated_receipt_well_formed_witness :
  NormalizedReceipt.receiptVersion GoodRun.receipt = "0.1.0" /\
  In (NormalizedReceipt.status GoodRun.receipt) ["SUCCESS"; "FAILED"; "REFUSED"] /\
  Forall (fun a => sha256Regex (DeliveredArtifact.sha256 a) = true /\
                   0 <= DeliveredArtifact.bytes a)
         (NormalizedReceipt.delivered GoodRun.receipt).
Proof.
  destruct (@validated_receipt_well_formed ByteOrder.collation GoodRun.rt
              GoodRun.manifestDoc GoodRun.manifest
              (Example.digest GoodRun.manifestText) eq_refl)
    as (Hv & Hs & _ & _ & _ & Hall).
  split; [exact Hv|]. split; [exact Hs | exact Hall].
Defined.

Lemma no_delivered_mismatch_after_normalize_witness :
  ~ In DELIVERED_MISMATCH
       (List.map VerificationFailure.code
          (VerificationResult.failures (GoodRun.verify GoodRun.fs))).
Proof.
  apply (@no_delivered_mismatch_after_normalize ByteOrder.collation GoodRun.rt
           GoodRun.fs GoodRun.manifest (Example.digest GoodRun.manifestText)
           "/runs/run-004" None).
  exact run004_manifest_verified.
Defined.

Definition run001Result : VerificationResult.t :=
  let receipt := Example.receipt1 in Example.verify receipt "/runs/run-001".

Lemma every_failure_is_signalled_witness :
  exists def s,
    In def SIGNAL_DEFS /\
    SignalDef.signalId def = "BE_ARTIFACT_SIZE_MISMATCH" /\
    In s (deriveBehaviorSignals (collation := ByteOrder.collation)
            run001Result Example.receipt1 1700000000) /\
    Signal.signalId s = SignalDef.signalId def /\
    In (link "failurePath" "artifacts/report.txt") (Signal.evidence s).
Proof.
  pose (receipt := Example.receipt1).
  destruct (@every_failure_is_signalled ByteOrder.collation run001Result
              receipt 1700000000
              (failure ARTIFACT_SIZE_MISMATCH
                 ("Artifact size mismatch for artifacts/report.txt: expected 5, got 15")
                 (Some "artifacts/report.txt")))
    as (def & s & Hdef & Hc & Hs & Hid & _ & _ & _ & Hev).
  - reflexivity.
  - vm_compute. right. left. reflexivity.
  - discriminate.
  - exists def, s. split; [exact Hdef|]. split.
    + simpl in Hdef.
      repeat (destruct Hdef as [<- | Hdef];
              [simpl in Hc; try reflexivity; intuition discriminate|]).
      contradiction.
    + split; [exact Hs|]. split; [exact Hid|]. apply Hev. reflexivity.
Defined.

Lemma signal_evidence_is_grounded_witness :
  let s := {| Signal.signalId := "BE_ARTIFACT_SIZE_MISMATCH";
              Signal.severity := HIGH;
              Signal.weight := 8 # 10;
              Signal.observedAt := 1700000000;
              Signal.evidence :=
                [ link "failurePath" "artifacts/report.txt";
                  link "manifestSha256" (Example.digest Example.manifestText1);
                  link "receiptId" (NormalizedReceipt.receiptId Example.receipt1) ] |} in
  let l := link "failurePath" "artifacts/report.txt" in
  In l (baseEvidenceOf Example.receipt1) \/
  exists def f,
    In def SIGNAL_DEFS /\ SignalDef.signalId def = Signal.signalId s /\
    In f (VerificationResult.failures run001Result) /\
    In (VerificationFailure.code f) (SignalDef.codes def) /\
    EvidenceLink.type l = "failurePath" /\
    VerificationFailure.path f = Some (EvidenceLink.ref l) /\
    EvidenceLink.ref l <> EmptyString.
Proof.
  intros s l.
  pose (receipt := Example.receipt1).
  apply (@signal_evidence_is_grounded ByteOrder.collation run001Result
           receipt 1700000000 s l).
  - reflexivity.
  - vm_compute. right. left. reflexivity.
  - left. reflexivity.
Defined.

Lemma inferRunDir_conventional_witness :
  inferRunDir "/runs/run-004/evidence/manifest.json" = "/runs/run-004".
Proof.
  apply (inferRunDir_conventional (runDir := "/runs/run-004")). discriminate.
Defined.

Lemma inferRunDir_fallback_witness :
  inferRunDir "/tmp/upload/manifest.json" = "/tmp/upload".
Proof.
  apply (@inferRunDir_fallback "/tmp/upload" "manifest.json");
    try discriminate; reflexivity.
Defined.

(* ------------------------------------------------------------------ *)
(** ** A run directory at the file-system root *)

Module RootFacts.
Import NodePath.

(** A segment that does not begin with a slash. *)
Definition plain (s : string) : Prop := startsWith "/" s = false.

Lemma plain_cons c w : Ascii.eqb c slash = false -> plain (String c w).
Proof.
  intros Hc. unfold plain.
  change (Ascii.eqb slash c && startsWith EmptyString w = false).
  rewrite Ascii.eqb_sym, Hc. reflexivity.
Qed.

Lemma split_plain (s : string) : Forall plain (split slash s).
Proof.
  induction s as [|c s IH]; cbn [split].
  - repeat constructor.
  - destruct (Ascii.eqb c slash) eqn:Hc.
    + constructor; [reflexivity | exact IH].
    + destruct (split slash s) as [|w ws].
      * repeat constructor. now apply plain_cons.
      * inversion IH; subst. constructor; [|assumption]. now apply plain_cons.
Qed.

(** Kept segments are non-empty and plain. *)
Definition kept (s : string) : Prop := plain s /\ s <> EmptyString.

Lemma normalizeStep_kept stack seg :
  Forall kept stack -> plain seg -> Forall kept (normalizeStep false stack seg).
Proof.
  intros Hs Hp. unfold normalizeStep.
  destruct (String.eqb seg EmptyString) eqn:He; [exact Hs|].
  destruct (String.eqb seg "."); [exact Hs|]. cbn [orb].
  destruct (String.eqb seg dotdot).
  - destruct stack as [|top below]; [constructor|].
    destruct (String.eqb top dotdot); [exact Hs|].
    now inversion Hs.
  - constructor; [|exact Hs]. split; [exact Hp|].
    now apply String.eqb_neq.
Qed.

Lemma normalizeSegments_kept segs :
  Forall plain segs -> Forall kept (normalizeSegments false segs).
Proof.
  intros H. unfold normalizeSegments. apply Forall_rev.
  assert (Hgen : forall stack, Forall kept stack ->
                   Forall kept (fold_left (normalizeStep false) segs stack)).
  { induction H as [|seg segs Hseg Hsegs IH]; intros stack Hs; simpl; [exact Hs|].
    apply IH. now apply normalizeStep_kept. }
  apply Hgen. constructor.
Qed.

Lemma join_kept segs : Forall kept segs -> plain (join "/" segs).
Proof.
  intros H. destruct H as [|x rest [Hp Hne] _]; [reflexivity|].
  destruct x as [|c x]; [contradiction|].
  unfold plain in *. destruct rest; simpl in *; exact Hp.
Qed.

(** An absolute resolution never begins with two slashes. *)
Lemma normalizeString_plain path : plain (normalizeString path false).
Proof.
  unfold normalizeString. apply join_kept, normalizeSegments_kept, split_plain.
Qed.

Lemma resolve_under_root cwd p :
  resolve cwd ["/"; p] = "/" +++ normalizeString
                                  (fst (resolveScan (List.rev ["/"; p] ++ [cwd]) EmptyString))
                                  false.
Proof.
  unfold resolve. cbn [List.rev app resolveScan].
  destruct (isEmpty p); [reflexivity|].
  destruct (isAbsolute p); reflexivity.
Qed.

End RootFacts.

(** X16: A run directory that resolves to the root [/] is unusable.  There the
    prefix that [safeJoin] tests for is [//], which no resolved path begins
    with: [safeJoin] returns [null] for every path that does not resolve to
    [/] itself.  So [verifyEvidence] reports the manifest of any normalized
    receipt as an unsafe path, without looking at the file system. *)
Theorem root_run_directory_is_rejected {collation : Collation}
        (rt : Runtime) (fs : FileSystem) (manifest : SolverReceiptV0.t)
        (h runDir : string) (options : option VerifyOptions.t) :
  NodePath.resolve (cwd rt) [runDir] = "/" ->
  (forall p joined, safeJoin (cwd rt) runDir p = Some joined -> joined = "/") /\
  verifyEvidence rt fs (normalizeReceipt rt manifest h) runDir options
  = {| VerificationResult.ok := false;
       VerificationResult.failures :=
         [ failure UNSAFE_PATH "Manifest path escapes run directory"
                   (Some "evidence/manifest.json") ];
       VerificationResult.evidenceLinks :=
         baseLinks (normalizeReceipt rt manifest h) |}.
Proof.
  intros Hroot.
  assert (Hjoin : forall p joined,
             safeJoin (cwd rt) runDir p = Some joined -> joined = "/").
  { intros p joined. unfold safeJoin. rewrite Hroot.
    rewrite RootFacts.resolve_under_root.
    set (r := NodePath.normalizeString _ false).
    assert (Hr : RootFacts.plain r) by apply RootFacts.normalizeString_plain.
    change (startsWith ("/" +++ "/") ("/" +++ r)) with (startsWith "/" r).
    unfold RootFacts.plain in Hr. rewrite Hr. cbn [negb andb].
    destruct (String.eqb ("/" +++ r) "/") eqn:Heq; cbn [negb]; [|discriminate].
    intros [= <-]. now apply String.eqb_eq. }
  split; [exact Hjoin|].
  assert (Hnone : safeJoin (cwd rt) runDir "evidence/manifest.json" = None).
  { destruct (safeJoin (cwd rt) runDir "evidence/manifest.json") as [joined|] eqn:Hj;
      [|reflexivity].
    pose proof (Hjoin _ _ Hj) as ->.
    unfold safeJoin in Hj. rewrite Hroot in Hj. discriminate Hj. }
  unfold verifyEvidence.
  cbn [normalizeReceipt NormalizedReceipt.manifestPath].
  change (valid (validateRelativePath "evidence/manifest.json")) with true.
  cbn [negb]. rewrite Hnone. reflexivity.
Qed.

Lemma root_run_directory_is_rejected_witness :
  VerificationResult.failures (GoodRun.verify GoodRun.fs) = [] /\
  VerificationResult.failures
    (verifyEvidence (collation := ByteOrder.collation) GoodRun.rt GoodRun.fs
                    GoodRun.receipt "/" None)
  = [ failure UNSAFE_PATH "Manifest path escapes run directory"
              (Some "evidence/manifest.json") ].
Proof.
  split; [reflexivity|].
  destruct (@root_run_directory_is_rejected ByteOrder.collation GoodRun.rt GoodRun.fs
              GoodRun.manifest (Example.digest GoodRun.manifestText) "/" None eq_refl)
    as [_ H].
  unfold GoodRun.receipt. rewrite H. reflexivity.
Defined.

(* ------------------------------------------------------------------ *)
(** ** Validated paths are always joined *)

Module JoinFacts.
Import NodePath.

Lemma split_not_nil s : split slash s <> [].
Proof.
  destruct s as [|c s]; cbn [split]; [discriminate|].
  destruct (Ascii.eqb c slash); [discriminate|].
  destruct (split slash s); discriminate.
Qed.

Lemma split_app (a b : string) :
  split slash (a +++ "/" +++ b) = split slash a ++ split slash b.
Proof.
  induction a as [|c a IH].
  - reflexivity.
  - change (String c a +++ "/" +++ b) with (String c (a +++ "/" +++ b)).
    cbn [split]. rewrite IH.
    destruct (Ascii.eqb c slash); [reflexivity|].
    destruct (split slash a) as [|w ws] eqn:Ha;
      [exfalso; now apply (split_not_nil a) | reflexivity].
Qed.

Lemma split_noSlash (s : string) :
  DirnameFacts.noSlash s = true -> split slash s = [s].
Proof.
  unfold DirnameFacts.noSlash. induction s as [|c s IH]; intros H; [reflexivity|].
  cbn [list_ascii_of_string forallb] in H. apply andb_true_iff in H as [Hc Hs].
  cbn [split]. unfold isSlash in Hc. apply negb_true_iff in Hc. rewrite Hc.
  rewrite (IH Hs). reflexivity.
Qed.

Lemma noSlash_cons c w :
  DirnameFacts.noSlash (String c w)
  = negb (Ascii.eqb c slash) && DirnameFacts.noSlash w.
Proof. reflexivity. Qed.

Lemma split_segments_noSlash (s : string) :
  Forall (fun seg => DirnameFacts.noSlash seg = true) (split slash s).
Proof.
  induction s as [|c s IH]; cbn [split].
  - repeat constructor.
  - destruct (Ascii.eqb c slash) eqn:Hc.
    + constructor; [reflexivity | exact IH].
    + destruct (split slash s) as [|w ws].
      * constructor; [|constructor]. unfold str1.
        rewrite noSlash_cons, Hc. reflexivity.
      * inversion IH; subst. constructor; [|assumption].
        rewrite noSlash_cons, Hc. assumption.
Qed.

(** A segment that [normalizeString] keeps below the root. *)
Definition ordinary (s : string) : Prop :=
  DirnameFacts.noSlash s = true /\
  String.eqb s EmptyString = false /\ String.eqb s "." = false /\
  String.eqb s dotdot = false.

Lemma normalizeStep_ordinary stack seg :
  Forall ordinary stack -> DirnameFacts.noSlash seg = true ->
  Forall ordinary (normalizeStep false stack seg).
Proof.
  intros Hs Hp. unfold normalizeStep.
  destruct (String.eqb seg EmptyString) eqn:He; [exact Hs|].
  destruct (String.eqb seg ".") eqn:Hd; [exact Hs|]. cbn [orb].
  destruct (String.eqb seg dotdot) eqn:Hdd.
  - destruct stack as [|top below]; [constructor|].
    destruct (String.eqb top dotdot); [exact Hs|].
    now inversion Hs.
  - constructor; [|exact Hs]. repeat split; assumption.
Qed.

Lemma fold_ordinary segs :
  Forall (fun seg => DirnameFacts.noSlash seg = true) segs ->
  forall stack, Forall ordinary stack ->
    Forall ordinary (fold_left (normalizeStep false) segs stack).
Proof.
  induction 1 as [|seg segs Hseg Hsegs IH]; intros stack Hs; simpl; [exact Hs|].
  apply IH. now apply normalizeStep_ordinary.
Qed.

Lemma normalizeSegments_ordinary s :
  Forall ordinary (normalizeSegments false (split slash s)).
Proof.
  unfold normalizeSegments. apply Forall_rev.
  apply fold_ordinary; [apply split_segments_noSlash | constructor].
Qed.

Lemma join_cons x y rest :
  join "/" (x :: y :: rest) = x +++ "/" +++ join "/" (y :: rest).
Proof. reflexivity. Qed.

Lemma split_join segs :
  Forall ordinary segs -> segs <> [] -> split slash (join "/" segs) = segs.
Proof.
  induction 1 as [|x rest Hx Hrest IH]; intros Hne; [contradiction|].
  destruct rest as [|y rest].
  - apply split_noSlash, Hx.
  - rewrite join_cons, split_app, IH by discriminate.
    rewrite split_noSlash by apply Hx. reflexivity.
Qed.

Lemma join_app bs qs :
  bs <> [] -> qs <> [] ->
  join "/" (bs ++ qs) = join "/" bs +++ "/" +++ join "/" qs.
Proof.
  intros Hb Hq. induction bs as [|x bs IH]; [contradiction|].
  destruct bs as [|y bs].
  - destruct qs; [contradiction | reflexivity].
  - change ((x :: y :: bs) ++ qs) with (x :: (y :: bs) ++ qs).
    change ((y :: bs) ++ qs) with (y :: bs ++ qs) at 1.
    rewrite join_cons. change (y :: bs ++ qs) with ((y :: bs) ++ qs).
    rewrite IH by discriminate.
    rewrite join_cons, !DirnameFacts.append_assoc. reflexivity.
Qed.

(** Pushing ordinary segments. *)
Lemma fold_push bs : forall stack,
  Forall ordinary bs ->
  fold_left (normalizeStep false) bs stack = List.rev bs ++ stack.
Proof.
  induction bs as [|b bs IH]; intros stack H; [reflexivity|].
  inversion H as [|x l (Hn & He & Hd & Hdd) Hl]; subst.
  cbn [fold_left]. unfold normalizeStep at 2. rewrite He, Hd, Hdd. cbn [orb].
  rewrite IH by assumption. cbn [List.rev]. now rewrite <- app_assoc.
Qed.

(** Segments that do not climb above where they start leave what lies
    below untouched. *)
Lemma fold_no_climb segs : forall top bottom,
  Forall (fun s => String.eqb s dotdot = false) top ->
  climbsAbove (List.length top) segs = false ->
  fold_left (normalizeStep false) segs (top ++ bottom)
  = fold_left (normalizeStep false) segs top ++ bottom.
Proof.
  induction segs as [|seg segs IH]; intros top bottom Htop Hc; [reflexivity|].
  cbn [fold_left climbsAbove] in *. unfold normalizeStep at 2 4.
  destruct (String.eqb seg EmptyString || String.eqb seg "."); [now apply IH|].
  destruct (String.eqb seg dotdot) eqn:Hdd.
  - destruct top as [|t top]; [discriminate Hc|].
    inversion Htop as [|x l Ht Hl]; subst.
    cbn [app]. rewrite Ht. now apply IH.
  - apply (IH (seg :: top) bottom); [now constructor | exact Hc].
Qed.

Lemma resolve_absolute cwd arg :
  isAbsolute cwd = true ->
  exists path, resolve cwd [arg] = "/" +++ normalizeString path false.
Proof.
  intros Habs. unfold resolve. cbn [List.rev app resolveScan].
  assert (Hcwd : isEmpty cwd = false) by (destruct cwd; [discriminate | reflexivity]).
  destruct (isEmpty arg).
  - rewrite Hcwd, Habs. eexists. reflexivity.
  - destruct (isAbsolute arg); [eexists; reflexivity|].
    rewrite Hcwd, Habs. eexists. reflexivity.
Qed.

(** Resolving a relative path that does not climb, against a directory in
    normal form. *)
Lemma resolve_join cwd bs p :
  Forall ordinary bs -> bs <> [] ->
  isEmpty p = false -> isAbsolute p = false ->
  climbsAbove 0 (split slash p) = false ->
  resolve cwd ["/" +++ join "/" bs; p]
  = "/" +++ join "/" (bs ++ List.rev (fold_left (normalizeStep false) (split slash p) [])).
Proof.
  intros Hbs Hbne Hne Hrel Hclimb. unfold resolve.
  cbn [List.rev app resolveScan]. rewrite Hne, Hrel.
  change (isEmpty ("/" +++ join "/" bs)) with false.
  change (isAbsolute ("/" +++ join "/" bs)) with true.
  cbv iota. cbn [negb]. f_equal.
  unfold normalizeString, normalizeSegments. f_equal.
  rewrite !split_app.
  change (split slash ("/" +++ join "/" bs))
    with (EmptyString :: split slash (join "/" bs)).
  rewrite split_join by assumption.
  cbn [app fold_left]. unfold normalizeStep at 2.
  cbn [String.eqb orb].
  rewrite !fold_left_app. rewrite (@fold_push bs) by assumption.
  rewrite app_nil_r.
  rewrite <- (app_nil_l (List.rev bs)) at 1.
  rewrite (@fold_no_climb (split slash p) [] (List.rev bs))
    by (constructor || exact Hclimb).
  cbn [split fold_left]. unfold normalizeStep at 1.
  cbn [String.eqb orb].
  rewrite rev_app_distr, rev_involutive. reflexivity.
Qed.

(** A directory in normal form resolves to itself. *)
Lemma resolve_normal cwd bs :
  Forall ordinary bs -> bs <> [] ->
  resolve cwd ["/" +++ join "/" bs] = "/" +++ join "/" bs.
Proof.
  intros Hbs Hbne. unfold resolve.
  cbn [List.rev app resolveScan].
  change (isEmpty ("/" +++ join "/" bs)) with false.
  change (isAbsolute ("/" +++ join "/" bs)) with true.
  cbv iota. cbn [negb]. f_equal.
  unfold normalizeString, normalizeSegments. f_equal.
  rewrite split_app.
  change (split slash ("/" +++ join "/" bs))
    with (EmptyString :: split slash (join "/" bs)).
  rewrite split_join by assumption.
  cbn [app fold_left]. unfold normalizeStep at 2.
  cbn [String.eqb orb].
  rewrite fold_left_app, (@fold_push bs) by assumption.
  rewrite app_nil_r. cbn [split fold_left]. unfold normalizeStep.
  cbn [String.eqb orb]. apply rev_involutive.
Qed.

End JoinFacts.

(** X17: Except at the root, the second path check never fires.  With an
    absolute working directory and a run directory that does not resolve to
    [/], every path that [validateRelativePath] accepts is joined by
    [safeJoin]; the result is the resolved run directory or lies below
    it. *)
Theorem validated_path_is_joined (cwd runDir p : string) :
  NodePath.isAbsolute cwd = true ->
  NodePath.resolve cwd [runDir] <> "/" ->
  valid (validateRelativePath p) = true ->
  exists joined,
    safeJoin cwd runDir p = Some joined /\
    (joined = NodePath.resolve cwd [runDir] \/
     startsWith (NodePath.resolve cwd [runDir] +++ "/") joined = true).
Proof.
  intros Hcwd Hroot Hvalid.
  assert (Hclimb : climbsAbove 0 (split slash p) = false).
  { destruct (climbsAbove 0 (split slash p)) eqn:Hc; [|reflexivity].
    rewrite (validate_rejects_climb p Hc) in Hvalid. discriminate Hvalid. }
  assert (Hp : isEmpty p = false /\ NodePath.isAbsolute p = false).
  { unfold validateRelativePath in Hvalid.
    destruct (isEmpty p); [discriminate Hvalid|].
    destruct (NodePath.isAbsolute p); [discriminate Hvalid | now split]. }
  destruct Hp as [Hne Hrel].
  destruct (@JoinFacts.resolve_absolute cwd runDir Hcwd) as [path Hbase].
  set (bs := NodePath.normalizeSegments false (split slash path)).
  assert (Hbs : Forall JoinFacts.ordinary bs)
    by apply JoinFacts.normalizeSegments_ordinary.
  assert (Hb : NodePath.resolve cwd [runDir] = "/" +++ join "/" bs) by exact Hbase.
  assert (Hbne : bs <> []).
  { intros E. apply Hroot. rewrite Hb, E. reflexivity. }
  set (qs := List.rev (fold_left (NodePath.normalizeStep false) (split slash p) [])).
  assert (Hjoined : NodePath.resolve cwd [NodePath.resolve cwd [runDir]; p]
                    = "/" +++ join "/" (bs ++ qs)).
  { rewrite Hb. now apply JoinFacts.resolve_join. }
  exists (NodePath.resolve cwd [NodePath.resolve cwd [runDir]; p]).
  destruct qs as [|q qs'] eqn:Hqs.
  - rewrite app_nil_r in Hjoined.
    assert (Heq : NodePath.resolve cwd [NodePath.resolve cwd [runDir]; p]
                  = NodePath.resolve cwd [runDir]) by congruence.
    split; [|left; exact Heq].
    unfold safeJoin. rewrite Heq, String.eqb_refl.
    cbn [negb]. rewrite andb_false_r. reflexivity.
  - assert (Hpre : startsWith (NodePath.resolve cwd [runDir] +++ "/")
                     (NodePath.resolve cwd [NodePath.resolve cwd [runDir]; p])
                   = true).
    { rewrite Hjoined, Hb, JoinFacts.join_app by (assumption || discriminate).
      apply startsWith_spec. exists (join "/" (q :: qs')).
      change ("/" +++ join "/" bs +++ "/" +++ join "/" (q :: qs'))
        with (String slash (join "/" bs +++ "/" +++ join "/" (q :: qs'))).
      change (("/" +++ join "/" bs) +++ "/")
        with (String slash (join "/" bs +++ "/")).
      cbn [String.append]. f_equal.
      rewrite DirnameFacts.append_assoc. reflexivity. }
    split; [|right; exact Hpre].
    unfold safeJoin. rewrite Hpre. reflexivity.
Qed.

Lemma validated_path_is_joined_witness :
  exists joined,
    safeJoin "/home/wt" "runs/run-004" "artifacts/./report.txt" = Some joined /\
    (joined = "/home/wt/runs/run-004" \/
     startsWith ("/home/wt/runs/run-004" +++ "/") joined = true).
Proof.
  apply (@validated_path_is_joined "/home/wt" "runs/run-004" "artifacts/./report.txt").
  - reflexivity.
  - discriminate.
  - reflexivity.
Defined.

(* ------------------------------------------------------------------ *)
(** ** The retry loop *)

Module RetryFacts.
Import Resilience.

Definition totalDelay {E} (retries : list (Retry.t E)) : Z :=
  fold_right Z.add 0 (List.map (@Retry.delayMs E) retries).

Lemma totalDelay_snoc {E} (retries : list (Retry.t E)) r :
  totalDelay (retries ++ [r]) = totalDelay retries + Retry.delayMs r.
Proof.
  unfold totalDelay. induction retries as [|x l IH]; simpl in *; lia.
Qed.

Section Loop.

Variables T E : Type.
Variable fn : Z -> Settled T E.
Variable maxRetries : Z.
Variable delayOf : Z -> Z.
Variable isRetryable : E -> bool.

(** The first [k] calls were rejected with retryable errors and [retries]
    records them in order. *)
Definition retried (k : nat) (retries : list (Retry.t E)) : Prop :=
  List.length retries = k /\
  forall j, (j < k)%nat ->
    exists error,
      fn (Z.of_nat j) = Rejected error /\ isRetryable error = true /\
      nth_error retries j =
      Some {| Retry.attempt := Z.of_nat j + 1;
              Retry.error := error;
              Retry.delayMs := delayOf (Z.of_nat j) |}.

(** The run stopped at call [k]. *)
Definition stoppedAt (k : nat) (result : RetryResult.t T E)
           (retries : list (Retry.t E)) : Prop :=
  Z.of_nat k <= maxRetries /\
  RetryResult.attempts result = Z.of_nat k + 1 /\
  retried k retries /\
  RetryResult.totalDelayMs result = totalDelay retries /\
  match fn (Z.of_nat k) with
  | Fulfilled value =>
      RetryResult.success result = true /\
      RetryResult.value result = Some value /\
      RetryResult.error result = None
  | Rejected error =>
      RetryResult.success result = false /\
      RetryResult.value result = None /\
      RetryResult.error result = Some error /\
      (Z.of_nat k = maxRetries \/ isRetryable error = false)
  end.

Lemma retried_snoc k retries error :
  retried k retries ->
  fn (Z.of_nat k) = Rejected error -> isRetryable error = true ->
  retried (S k)
          (retries ++ [ {| Retry.attempt := Z.of_nat k + 1;
                           Retry.error := error;
                           Retry.delayMs := delayOf (Z.of_nat k) |} ]).
Proof.
  intros [Hlen Hall] Hfn Hre. split.
  - rewrite length_app, Hlen. simpl. lia.
  - intros j Hj. destruct (Nat.eq_dec j k) as [-> | Hne].
    + exists error. repeat split; try assumption.
      rewrite nth_error_app2 by lia. rewrite Hlen, Nat.sub_diag. reflexivity.
    + destruct (Hall j) as (e & H1 & H2 & H3); [lia|].
      exists e. repeat split; try assumption.
      rewrite nth_error_app1 by lia. exact H3.
Qed.

Lemma retryLoop_stops iterations :
  forall (a : nat) lastError total retries,
    Z.of_nat a + Z.of_nat (S iterations) = maxRetries + 1 ->
    retried a retries -> total = totalDelay retries ->
    exists k,
      let run := retryLoop fn maxRetries delayOf isRetryable (S iterations)
                           (Z.of_nat a) lastError total retries in
      stoppedAt k (fst run) (snd run).
Proof.
  assert (Hstop : forall (a : nat) total retries result,
             Z.of_nat a <= maxRetries ->
             retried a retries -> total = totalDelay retries ->
             RetryResult.attempts result = Z.of_nat a + 1 ->
             RetryResult.totalDelayMs result = total ->
             match fn (Z.of_nat a) with
             | Fulfilled value =>
                 RetryResult.success result = true /\
                 RetryResult.value result = Some value /\
                 RetryResult.error result = None
             | Rejected error =>
                 RetryResult.success result = false /\
                 RetryResult.value result = None /\
                 RetryResult.error result = Some error /\
                 (Z.of_nat a = maxRetries \/ isRetryable error = false)
             end ->
             stoppedAt a result retries).
  { intros a total retries result H1 H2 H3 H4 H5 H6. unfold stoppedAt.
    split; [exact H1|]. split; [exact H4|]. split; [exact H2|].
    split; [congruence | exact H6]. }
  induction iterations as [|n IH]; intros a lastError total retries Ha Hre Htot.
  - exists a. cbn [retryLoop].
    destruct (fn (Z.of_nat a)) as [v | e] eqn:Hfn.
    + apply Hstop with (total := total); try assumption; try reflexivity;
        [lia | rewrite Hfn; repeat split].
    + replace (Z.of_nat a <? maxRetries) with false
        by (symmetry; apply Z.ltb_ge; lia).
      apply Hstop with (total := total); try assumption; try reflexivity;
        [lia | rewrite Hfn; repeat split; left; lia].
  - cbn [retryLoop].
    destruct (fn (Z.of_nat a)) as [v | e] eqn:Hfn.
    + exists a.
      apply Hstop with (total := total); try assumption; try reflexivity;
        [lia | rewrite Hfn; repeat split].
    + destruct ((Z.of_nat a <? maxRetries) && isRetryable e) eqn:Hgo.
      * apply andb_true_iff in Hgo as [_ Hr].
        replace (Z.of_nat a + 1) with (Z.of_nat (S a)) by lia.
        apply (IH (S a) (Some e)).
        -- lia.
        -- replace (Z.of_nat (S a)) with (Z.of_nat a + 1) by lia.
           now apply retried_snoc.
        -- rewrite totalDelay_snoc. simpl. lia.
      * exists a.
        apply Hstop with (total := total); try assumption; try reflexivity;
          [lia | rewrite Hfn; repeat split].
        apply andb_false_iff in Hgo as [Hlt | Hr]; [|now right].
        apply Z.ltb_ge in Hlt. left. lia.
Qed.

End Loop.

End RetryFacts.

(** X18: Every run of [withRetry] with [maxRetries >= 0] stops at some call
    [k <= maxRetries]: the calls before it were rejected with retryable
    errors, each followed by one retry (reported to [onRetry] with attempt
    number [j + 1], the error and the delay slept, which add up to
    [totalDelayMs]); [attempts] is [k + 1]; and the result is the outcome
    of call [k]: its value, or its error if that error is not retryable or
    the retries are used up. *)
Theorem withRetry_characterised (T E : Type) (messageOf : E -> option string)
        (toLowerCase : string -> string) (calculateDelay : Z -> Z -> Z -> Q -> Z)
        (fn : Z -> Resilience.Settled T E) (config : Resilience.RetryConfig.t E) :
  let maxRetries := orElse (Resilience.RetryConfig.maxRetries config) 3 in
  let isRetryable :=
    orElse (Resilience.RetryConfig.isRetryable config)
           (Resilience.isDefaultRetryable messageOf toLowerCase) in
  let delayOf := fun attempt =>
    calculateDelay attempt
      (orElse (Resilience.RetryConfig.baseDelayMs config) 1000)
      (orElse (Resilience.RetryConfig.maxDelayMs config) 30000)
      (orElse (Resilience.RetryConfig.jitterFactor config) (1 # 10)) in
  let run := Resilience.withRetry messageOf toLowerCase calculateDelay fn config in
  0 <= maxRetries ->
  exists k, RetryFacts.stoppedAt fn maxRetries delayOf isRetryable k (fst run) (snd run).
Proof.
  intros maxRetries isRetryable delayOf run Hm. subst run.
  unfold Resilience.withRetry. fold maxRetries. fold isRetryable.
  destruct (Z.to_nat (maxRetries + 1)) as [|n] eqn:Hn; [lia|].
  apply (@RetryFacts.retryLoop_stops T E fn maxRetries delayOf isRetryable n 0%nat).
  - rewrite <- Hn. lia.
  - split; [reflexivity|]. intros j Hj. lia.
  - reflexivity.
Qed.

(** X19: With a negative [maxRetries] the loop body never runs: [fn] is not
    called, the result reports zero attempts and no error, and the
    [retryable] wrapper rejects with [undefined]. *)
Theorem withRetry_negative_maxRetries (T E : Type) (messageOf : E -> option string)
        (toLowerCase : string -> string) (calculateDelay : Z -> Z -> Z -> Q -> Z)
        (fn : Z -> Resilience.Settled T E) (config : Resilience.RetryConfig.t E)
        (maxRetries : Z) :
  Resilience.RetryConfig.maxRetries config = Some maxRetries ->
  maxRetries < 0 ->
  Resilience.withRetry messageOf toLowerCase calculateDelay fn config
  = ({| Resilience.RetryResult.success := false;
        Resilience.RetryResult.value := None;
        Resilience.RetryResult.error := None;
        Resilience.RetryResult.attempts := 0;
        Resilience.RetryResult.totalDelayMs := 0 |}, []) /\
  Resilience.retryable messageOf toLowerCase calculateDelay fn config
  = (Resilience.Rejected None, []).
Proof.
  intros Hcfg Hneg.
  assert (Hrun : Resilience.withRetry messageOf toLowerCase calculateDelay fn config
                 = ({| Resilience.RetryResult.success := false;
                       Resilience.RetryResult.value := None;
                       Resilience.RetryResult.error := None;
                       Resilience.RetryResult.attempts := 0;
                       Resilience.RetryResult.totalDelayMs := 0 |}, [])).
  { unfold Resilience.withRetry. rewrite Hcfg. cbn [orElse].
    replace (Z.to_nat (maxRetries + 1)) with 0%nat by lia. reflexivity. }
  split; [exact Hrun|].
  unfold Resilience.retryable. rewrite Hrun. reflexivity.
Qed.

(* ------------------------------------------------------------------ *)
(** ** The circuit breaker as a state machine *)

Module BreakerFacts.
Import Resilience.

(** The state-changing methods.  Every use of a breaker, also by
    overlapping [execute] calls, is a sequence of these. *)
Inductive Call (E : Type) : Type :=
| IsAllowed (now : Z)
| RecordSuccess
| RecordFailure (error : E) (now : Z)
| Reset.

Arguments IsAllowed {E} now.
Arguments RecordSuccess {E}.
Arguments RecordFailure {E} error now.
Arguments Reset {E}.

Definition isReset {E} (c : Call E) : bool :=
  match c with Reset => true | _ => false end.

Definition perform {E} (this : CircuitBreaker.t E) (c : Call E) : CircuitBreaker.t E :=
  match c with
  | IsAllowed now => snd (isAllowed this now)
  | RecordSuccess => recordSuccess this
  | RecordFailure error now => recordFailure this error now
  | Reset => reset this
  end.

(** The state changes the code can make. *)
Definition edge (withReset : bool) (from to : CircuitState) : bool :=
  match from, to with
  | CLOSED, OPEN | OPEN, HALF_OPEN | HALF_OPEN, CLOSED | HALF_OPEN, OPEN => true
  | OPEN, CLOSED => withReset
  | _, _ => false
  end.

(** Follows a list of reported changes from [from]; [None] when an entry
    does not start where the previous one ended or is not an [edge]. *)
Fixpoint chainEnd (withReset : bool) (from : CircuitState)
         (changes : list (CircuitState * CircuitState)) : option CircuitState :=
  match changes with
  | [] => Some from
  | (a, b) :: rest =>
      if stateEqb a from && edge withReset a b then chainEnd withReset b rest
      else None
  end.

(** What holds of the counters in each state. *)
Definition counters {E} (this : CircuitBreaker.t E) : Prop :=
  let cfg := CircuitBreaker.config this in
  match CircuitBreaker.state this with
  | CLOSED =>
      0 <= CircuitBreaker.failures this < Config.failureThreshold cfg /\
      CircuitBreaker.successes this = 0
  | OPEN =>
      Config.failureThreshold cfg <= CircuitBreaker.failures this /\
      0 <= CircuitBreaker.successes this < Config.successThreshold cfg
  | HALF_OPEN =>
      Config.failureThreshold cfg <= CircuitBreaker.failures this /\
      0 <= CircuitBreaker.successes this < Config.successThreshold cfg
  end.

Section Facts.

Variable E : Type.
Implicit Types this : CircuitBreaker.t E.

Lemma stateEqb_eq a b : stateEqb a b = true <-> a = b.
Proof. destruct a, b; simpl; split; congruence. Qed.

Lemma transitionTo_config this s :
  CircuitBreaker.config (transitionTo this s) = CircuitBreaker.config this.
Proof. unfold transitionTo. destruct (stateEqb _ _); reflexivity. Qed.

Lemma transitionTo_state this s : CircuitBreaker.state (transitionTo this s) = s.
Proof.
  unfold transitionTo. destruct (stateEqb _ _) eqn:H; [|reflexivity].
  now apply stateEqb_eq in H.
Qed.

Lemma perform_config this c :
  CircuitBreaker.config (perform this c) = CircuitBreaker.config this.
Proof.
  destruct c as [now | | error now |]; simpl.
  - unfold isAllowed. destruct (CircuitBreaker.state this); try reflexivity.
    destruct (_ <=? _); [apply transitionTo_config | reflexivity].
  - unfold recordSuccess. destruct (CircuitBreaker.state this); try reflexivity.
    destruct (_ <=? _); [rewrite transitionTo_config|]; reflexivity.
  - unfold recordFailure. destruct (negb _); [reflexivity|].
    cbn [withFailures CircuitBreaker.state CircuitBreaker.config CircuitBreaker.failures].
    destruct (CircuitBreaker.state this); try reflexivity.
    + destruct (_ <=? _); [rewrite transitionTo_config|]; reflexivity.
    + rewrite transitionTo_config. reflexivity.
  - apply transitionTo_config.
Qed.

Lemma perform_counters this c :
  1 <= Config.failureThreshold (CircuitBreaker.config this) ->
  1 <= Config.successThreshold (CircuitBreaker.config this) ->
  counters this -> counters (perform this c).
Proof.
  intros Hf Hs. unfold counters.
  destruct this as [st f s l cfg log].
  cbn [CircuitBreaker.state CircuitBreaker.config CircuitBreaker.failures
       CircuitBreaker.successes] in *.
  destruct c as [now | | error now |]; destruct st;
    unfold perform, isAllowed, recordSuccess, recordFailure, reset, transitionTo,
      withFailures, withSuccesses;
    cbn -[Z.leb Z.add Z.sub]; intros H;
    repeat match goal with
           | |- context [if ?b then _ else _] => destruct b eqn:?
           end;
    cbn -[Z.leb Z.add Z.sub];
    repeat match goal with
           | H : (_ <=? _) = true |- _ => apply Z.leb_le in H
           | H : (_ <=? _) = false |- _ => apply Z.leb_gt in H
           end;
    try lia.
Qed.

Lemma chainEnd_snoc r from changes a b :
  chainEnd r from changes = Some a -> edge r a b = true ->
  chainEnd r from (changes ++ [(a, b)]) = Some b.
Proof.
  revert from. induction changes as [|[x y] l IH]; intros from H Hedge;
    cbn [chainEnd app] in *.
  - injection H as ->. rewrite Hedge.
    replace (stateEqb a a) with true by (destruct a; reflexivity). reflexivity.
  - destruct (stateEqb x from && edge r x y); [now apply IH | discriminate].
Qed.

Lemma transitionTo_chain r this s :
  chainEnd r CLOSED (CircuitBreaker.stateChanges this) = Some (CircuitBreaker.state this) ->
  (CircuitBreaker.state this = s \/ edge r (CircuitBreaker.state this) s = true) ->
  chainEnd r CLOSED (CircuitBreaker.stateChanges (transitionTo this s)) = Some s.
Proof.
  intros H Hedge. unfold transitionTo.
  destruct (stateEqb _ _) eqn:Heq.
  - apply stateEqb_eq in Heq. now rewrite <- Heq.
  - destruct Hedge as [Hs | Hedge].
    + apply stateEqb_eq in Hs. congruence.
    + cbn [CircuitBreaker.stateChanges]. now apply chainEnd_snoc.
Qed.

Lemma perform_chain r this c :
  (isReset c = true -> r = true) ->
  chainEnd r CLOSED (CircuitBreaker.stateChanges this) = Some (CircuitBreaker.state this) ->
  chainEnd r CLOSED (CircuitBreaker.stateChanges (perform this c))
  = Some (CircuitBreaker.state (perform this c)).
Proof.
  intros Hr H. destruct c as [now | | error now |]; simpl.
  - unfold isAllowed. destruct (CircuitBreaker.state this) eqn:Hst; simpl;
      try (rewrite Hst; exact H).
    destruct (_ <=? _); simpl; [|rewrite Hst; exact H].
    rewrite transitionTo_state. apply transitionTo_chain; rewrite Hst; auto.
  - unfold recordSuccess. destruct (CircuitBreaker.state this) eqn:Hst;
      try (cbn; rewrite ?Hst; exact H).
    destruct (_ <=? _).
    + rewrite transitionTo_state. apply transitionTo_chain; cbn; rewrite Hst; auto.
    + cbn. rewrite Hst. exact H.
  - unfold recordFailure. destruct (negb _); [exact H|].
    cbn [withFailures CircuitBreaker.state CircuitBreaker.config CircuitBreaker.failures].
    destruct (CircuitBreaker.state this) eqn:Hst.
    + destruct (_ <=? _).
      * rewrite transitionTo_state. apply transitionTo_chain; cbn; rewrite Hst; auto.
      * cbn. rewrite Hst. exact H.
    + cbn. rewrite Hst. exact H.
    + rewrite transitionTo_state. apply transitionTo_chain; cbn; rewrite Hst; auto.
  - unfold reset. rewrite transitionTo_state. apply transitionTo_chain; [exact H|].
    rewrite (Hr eq_refl). destruct (CircuitBreaker.state this); auto.
Qed.

Lemma calls_counters (calls : list (Call E)) :
  forall this,
    1 <= Config.failureThreshold (CircuitBreaker.config this) ->
    1 <= Config.successThreshold (CircuitBreaker.config this) ->
    counters this ->
    CircuitBreaker.config (fold_left perform calls this) = CircuitBreaker.config this /\
    counters (fold_left perform calls this).
Proof.
  induction calls as [|c l IH]; intros this Hf Hs Hc; simpl.
  - split; [reflexivity | exact Hc].
  - destruct (IH (perform this c)) as [H1 H2].
    + now rewrite perform_config.
    + now rewrite perform_config.
    + now apply perform_counters.
    + split; [|exact H2]. rewrite H1. apply perform_config.
Qed.

End Facts.

End BreakerFacts.

(** X20: The counters and the state stay consistent.  Whatever sequence of
    [isAllowed], [recordSuccess], [recordFailure] and [reset] calls a new
    breaker receives (thresholds at least 1), it is closed exactly when its
    failure count is below [failureThreshold]; a closed breaker has no
    successes counted; otherwise the successes are below
    [successThreshold]. *)
Theorem breaker_counters_consistent (E : Type)
        (config : Resilience.CircuitBreakerConfig.t E)
        (calls : list (BreakerFacts.Call E)) :
  let this := fold_left BreakerFacts.perform calls
                        (Resilience.newCircuitBreaker config) in
  1 <= orElse (Resilience.CircuitBreakerConfig.failureThreshold config) 5 ->
  1 <= orElse (Resilience.CircuitBreakerConfig.successThreshold config) 2 ->
  Resilience.CircuitBreaker.config this
  = Resilience.CircuitBreaker.config (Resilience.newCircuitBreaker config) /\
  BreakerFacts.counters this /\
  (Resilience.CircuitBreaker.state this = Resilience.CLOSED <->
   Resilience.CircuitBreaker.failures this
   < Resilience.Config.failureThreshold (Resilience.CircuitBreaker.config this)).
Proof.
  intros this Hf Hs. subst this.
  destruct (@BreakerFacts.calls_counters E calls
              (Resilience.newCircuitBreaker config)) as [H1 H2];
    try assumption.
  { unfold BreakerFacts.counters. simpl. lia. }
  split; [exact H1|]. split; [exact H2|].
  unfold BreakerFacts.counters in H2.
  destruct (Resilience.CircuitBreaker.state _); split; intros H;
    try discriminate; try reflexivity; lia.
Qed.

(** X21: [onStateChange] is told every change of state, once and in order: the
    reported changes form a chain from [closed] to the current state, each
    of them one of closed->open, open->half-open, half-open->closed,
    half-open->open, and open->closed, the last only if [reset] was
    called. *)
Theorem state_changes_form_a_chain (E : Type)
        (config : Resilience.CircuitBreakerConfig.t E)
        (calls : list (BreakerFacts.Call E)) :
  let this := fold_left BreakerFacts.perform calls
                        (Resilience.newCircuitBreaker config) in
  BreakerFacts.chainEnd (existsb BreakerFacts.isReset calls) Resilience.CLOSED
                        (Resilience.CircuitBreaker.stateChanges this)
  = Some (Resilience.CircuitBreaker.state this).
Proof.
  cbv zeta.
  set (r := existsb BreakerFacts.isReset calls).
  assert (Hr : existsb BreakerFacts.isReset calls = true -> r = true) by auto.
  assert (H0 : BreakerFacts.chainEnd r Resilience.CLOSED
                 (Resilience.CircuitBreaker.stateChanges
                    (Resilience.newCircuitBreaker config))
               = Some (Resilience.CircuitBreaker.state
                         (Resilience.newCircuitBreaker config)))
    by reflexivity.
  clearbody r. revert Hr H0. generalize (Resilience.newCircuitBreaker config).
  induction calls as [|c l IH]; intros this Hr H; simpl.
  - exact H.
  - apply IH.
    + intros Hl. apply Hr. simpl. rewrite Hl. apply orb_true_r.
    + apply BreakerFacts.perform_chain; [|exact H].
      intros Hc. apply Hr. simpl. rewrite Hc. reflexivity.
Qed.

(* ------------------------------------------------------------------ *)
(** ** Protected calls *)

Module ProtectedCalls.
Import Resilience.

(** The circuit refuses calls at time [now]. *)
Definition blocked {E} (this : CircuitBreaker.t E) (now : Z) : Prop :=
  CircuitBreaker.state this = OPEN /\
  now - CircuitBreaker.lastFailureTime this
  < Config.resetTimeoutMs (CircuitBreaker.config this).


Definition recordFailures {E} (this : CircuitBreaker.t E) (errors : list (E * Z))
  : CircuitBreaker.t E :=
  fold_left (fun this '(error, now) => recordFailure this error now) errors this.

Definition counted {E} (this : CircuitBreaker.t E) (errors : list (E * Z)) : Prop :=
  Forall (fun '(error, _) => Config.isFailure (CircuitBreaker.config this) error = true)
         errors.

Section Facts.

Variable E : Type.
Implicit Types this : CircuitBreaker.t E.

Lemma isAllowed_blocked this now :
  blocked this now -> isAllowed this now = (false, this).
Proof.
  intros [Hst Hlt]. unfold isAllowed. rewrite Hst.
  replace (_ <=? _) with false by (symmetry; apply Z.leb_gt; exact Hlt).
  reflexivity.
Qed.


Lemma recordFailure_config this error now :
  CircuitBreaker.config (recordFailure this error now) = CircuitBreaker.config this.
Proof. apply (BreakerFacts.perform_config this (BreakerFacts.RecordFailure error now)). Qed.

Lemma recordFailures_open this errors :
  CircuitBreaker.state this = OPEN -> counted this errors ->
  CircuitBreaker.state (recordFailures this errors) = OPEN /\
  CircuitBreaker.failures (recordFailures this errors)
  = CircuitBreaker.failures this + Z.of_nat (List.length errors).
Proof.
  revert this. induction errors as [|[e t] l IH]; intros this Hst Hc.
  - simpl. split; [exact Hst | lia].
  - inversion Hc as [|x y Hx Hl]; subst.
    cbn [recordFailures fold_left].
    assert (Hstep : recordFailure this e t
                    = withFailures this (CircuitBreaker.failures this + 1) t).
    { unfold recordFailure. rewrite Hx. cbn. rewrite Hst. reflexivity. }
    destruct (IH (recordFailure this e t)) as [H1 H2].
    + rewrite Hstep. exact Hst.
    + unfold counted in *. rewrite recordFailure_config. exact Hl.
    + unfold recordFailures in *. split; [exact H1|].
      rewrite H2, Hstep. cbn [withFailures CircuitBreaker.failures List.length]. lia.
Qed.

(** From a closed breaker, counted failures add up and open the circuit
    as soon as the count reaches the threshold. *)
Lemma recordFailures_closed this errors :
  CircuitBreaker.state this = CLOSED -> counted this errors ->
  let n := Z.of_nat (List.length errors) in
  let this' := recordFailures this errors in
  CircuitBreaker.failures this' = CircuitBreaker.failures this + n /\
  CircuitBreaker.state this' =
  if (1 <=? n)
     && (Config.failureThreshold (CircuitBreaker.config this)
         <=? CircuitBreaker.failures this + n)
  then OPEN else CLOSED.
Proof.
  revert this. induction errors as [|[e t] l IH]; intros this Hst Hc n this'.
  - subst n this'. simpl. split; [lia | exact Hst].
  - inversion Hc as [|x y Hx Hl]; subst.
    subst this'. cbn [recordFailures fold_left].
    set (threshold := Config.failureThreshold (CircuitBreaker.config this)) in *.
    assert (Hn : n = Z.of_nat (List.length l) + 1)
      by (subst n; cbn [List.length]; lia).
    clearbody n.
    destruct (threshold <=? CircuitBreaker.failures this + 1) eqn:Hth.
    + assert (Hstep : recordFailure this e t
                      = transitionTo
                          (withFailures this (CircuitBreaker.failures this + 1) t)
                          OPEN).
      { unfold recordFailure. rewrite Hx. cbn -[Z.leb Z.add].
        rewrite Hst. fold threshold. rewrite Hth. reflexivity. }
      destruct (@recordFailures_open (recordFailure this e t) l) as [H1 H2].
      * rewrite Hstep. apply BreakerFacts.transitionTo_state.
      * unfold counted in *. rewrite recordFailure_config. exact Hl.
      * unfold recordFailures in *. rewrite H1, H2, Hstep.
        unfold transitionTo. cbn -[Z.leb Z.add]. rewrite Hst. cbn -[Z.leb Z.add].
        apply Z.leb_le in Hth.
        replace (1 <=? n) with true by (symmetry; apply Z.leb_le; lia).
        replace (threshold <=? CircuitBreaker.failures this + n) with true
          by (symmetry; apply Z.leb_le; lia).
        split; [lia | reflexivity].
    + assert (Hstep : recordFailure this e t
                      = withFailures this (CircuitBreaker.failures this + 1) t).
      { unfold recordFailure. rewrite Hx. cbn -[Z.leb Z.add].
        rewrite Hst. fold threshold. rewrite Hth. reflexivity. }
      destruct (IH (recordFailure this e t)) as [H1 H2].
      * rewrite Hstep. exact Hst.
      * unfold counted in *. rewrite recordFailure_config. exact Hl.
      * unfold recordFailures in *. rewrite H1, H2, Hstep.
        cbn [withFailures CircuitBreaker.failures CircuitBreaker.config].
        fold threshold. split; [lia|].
        apply Z.leb_gt in Hth.
        replace (CircuitBreaker.failures this + 1 + Z.of_nat (List.length l))
          with (CircuitBreaker.failures this + n) by lia.
        destruct (1 <=? Z.of_nat (List.length l)) eqn:H1l.
        -- replace (1 <=? n) with true by (symmetry; apply Z.leb_le; lia).
           reflexivity.
        -- apply Z.leb_gt in H1l.
           replace (threshold <=? CircuitBreaker.failures this + n) with false
             by (symmetry; apply Z.leb_gt; lia).
           rewrite !andb_false_r. reflexivity.
Qed.

End Facts.

End ProtectedCalls.


(** X23: Only consecutive failures trip the breaker.  After a success in the
    closed state the count starts again: the circuit is open after [n]
    further counted failures exactly when [n] has reached
    [failureThreshold] (and is at least one), whatever was counted
    before. *)
Theorem success_restarts_the_count (E : Type)
        (this : Resilience.CircuitBreaker.t E) (errors : list (E * Z)) :
  Resilience.CircuitBreaker.state this = Resilience.CLOSED ->
  ProtectedCalls.counted this errors ->
  let n := Z.of_nat (List.length errors) in
  let this' := ProtectedCalls.recordFailures (Resilience.recordSuccess this) errors in
  Resilience.CircuitBreaker.failures this' = n /\
  Resilience.CircuitBreaker.state this' =
  if (1 <=? n)
     && (Resilience.Config.failureThreshold (Resilience.CircuitBreaker.config this) <=? n)
  then Resilience.OPEN else Resilience.CLOSED.
Proof.
  intros Hst Hc n this'.
  assert (Hs : Resilience.recordSuccess this
               = Resilience.withFailures this 0
                   (Resilience.CircuitBreaker.lastFailureTime this)).
  { unfold Resilience.recordSuccess. rewrite Hst. reflexivity. }
  destruct (@ProtectedCalls.recordFailures_closed E (Resilience.recordSuccess this) errors)
    as [H1 H2].
  - rewrite Hs. exact Hst.
  - rewrite Hs. exact Hc.
  - subst this' n. rewrite H1, H2, Hs.
    cbn [Resilience.withFailures Resilience.CircuitBreaker.failures
         Resilience.CircuitBreaker.config].
    rewrite !Z.add_0_l. split; reflexivity.
Qed.

(** X24: [reset()] always leaves the breaker closed, but it clears the failure
    count only if the breaker was not closed already: after [reset()] on a
    closed breaker the failures counted before still count towards the
    threshold. *)
Theorem reset_keeps_count_of_closed_breaker (E : Type)
        (this : Resilience.CircuitBreaker.t E) (errors : list (E * Z)) :
  ProtectedCalls.counted this errors ->
  let n := Z.of_nat (List.length errors) in
  let kept :=
    match Resilience.CircuitBreaker.state this with
    | Resilience.CLOSED => Resilience.CircuitBreaker.failures this
    | _ => 0
    end in
  let this' := ProtectedCalls.recordFailures (Resilience.reset this) errors in
  Resilience.CircuitBreaker.state (Resilience.reset this) = Resilience.CLOSED /\
  Resilience.CircuitBreaker.failures this' = kept + n /\
  Resilience.CircuitBreaker.state this' =
  if (1 <=? n)
     && (Resilience.Config.failureThreshold (Resilience.CircuitBreaker.config this)
         <=? kept + n)
  then Resilience.OPEN else Resilience.CLOSED.
Proof.
  intros Hc n kept this'.
  assert (Hst : Resilience.CircuitBreaker.state (Resilience.reset this)
                = Resilience.CLOSED)
    by apply BreakerFacts.transitionTo_state.
  assert (Hcfg : Resilience.CircuitBreaker.config (Resilience.reset this)
                 = Resilience.CircuitBreaker.config this)
    by apply BreakerFacts.transitionTo_config.
  assert (Hf : Resilience.CircuitBreaker.failures (Resilience.reset this) = kept).
  { subst kept. unfold Resilience.reset, Resilience.transitionTo.
    destruct (Resilience.CircuitBreaker.state this); reflexivity. }
  destruct (@ProtectedCalls.recordFailures_closed E (Resilience.reset this) errors)
    as [H1 H2].
  - exact Hst.
  - unfold ProtectedCalls.counted in *. rewrite Hcfg. exact Hc.
  - split; [exact Hst|]. subst this' n. rewrite H1, H2, Hcfg, Hf.
    split; reflexivity.
Qed.

(* ------------------------------------------------------------------ *)
(** ** Recovery through the half-open state *)

Module RecoveryFacts.
Import Resilience.

Section Facts.

Variable E : Type.
Implicit Types this : CircuitBreaker.t E.

(** After [n] successes a half-open breaker that had [s] of them. *)
Lemma successes_half_open this (n : nat) :
  CircuitBreaker.state this = HALF_OPEN ->
  let threshold := Config.successThreshold (CircuitBreaker.config this) in
  let reached := (1 <=? Z.of_nat n)
                 && (threshold <=? CircuitBreaker.successes this + Z.of_nat n) in
  let this' := Nat.iter n (@recordSuccess E) this in
  CircuitBreaker.config this' = CircuitBreaker.config this /\
  if reached
  then CircuitBreaker.state this' = CLOSED /\ CircuitBreaker.failures this' = 0
  else CircuitBreaker.state this' = HALF_OPEN /\
       CircuitBreaker.failures this' = CircuitBreaker.failures this /\
       CircuitBreaker.successes this'
       = CircuitBreaker.successes this + Z.of_nat n.
Proof.
  intros Hst threshold reached this'. subst reached this'.
  induction n as [|n IH].
  - simpl. split; [reflexivity|]. repeat split; [exact Hst | lia].
  - rewrite !Nat.iter_succ. destruct IH as [Hcfg IH].
    set (prev := Nat.iter n (@recordSuccess E) this) in *.
    assert (Hcfg' : CircuitBreaker.config (recordSuccess prev)
                    = CircuitBreaker.config this).
    { rewrite <- Hcfg. apply (BreakerFacts.perform_config prev BreakerFacts.RecordSuccess). }
    split; [exact Hcfg'|].
    replace (1 <=? Z.of_nat (S n)) with true by (symmetry; apply Z.leb_le; lia).
    cbn [andb].
    destruct ((1 <=? Z.of_nat n)
              && (threshold <=? CircuitBreaker.successes this + Z.of_nat n)) eqn:Hr.
    + apply andb_true_iff in Hr as [_ Hr]. apply Z.leb_le in Hr.
      destruct IH as [Hs Hf].
      replace (threshold <=? CircuitBreaker.successes this + Z.of_nat (S n))
        with true by (symmetry; apply Z.leb_le; lia).
      unfold recordSuccess. rewrite Hs. cbn. split; [exact Hs | reflexivity].
    + destruct IH as (Hs & Hf & Hn).
      unfold recordSuccess. rewrite Hs.
      cbn [withSuccesses CircuitBreaker.config CircuitBreaker.successes].
      rewrite Hcfg. fold threshold. rewrite Hn.
      replace (CircuitBreaker.successes this + Z.of_nat (S n))
        with (CircuitBreaker.successes this + Z.of_nat n + 1) by lia.
      destruct (threshold <=? CircuitBreaker.successes this + Z.of_nat n + 1) eqn:Hth.
      * split; [apply BreakerFacts.transitionTo_state|].
        unfold transitionTo. cbn. rewrite Hs. reflexivity.
      * cbn. repeat split; assumption.
Qed.

End Facts.

End RecoveryFacts.

(** X25: Recovery.  Once the reset timeout has elapsed, [isAllowed] lets a call
    through and puts an open breaker into the half-open state.  From there
    it stays half-open, with the old failure count, until
    [successThreshold] successes have been recorded; at that point it
    closes and the failure count is cleared. *)
Theorem half_open_closes_after_successes (E : Type)
        (this : Resilience.CircuitBreaker.t E) (now : Z) (n : nat) :
  Resilience.CircuitBreaker.state this = Resilience.OPEN ->
  Resilience.Config.resetTimeoutMs (Resilience.CircuitBreaker.config this)
  <= now - Resilience.CircuitBreaker.lastFailureTime this ->
  let probe := snd (Resilience.isAllowed this now) in
  let this' := Nat.iter n (@Resilience.recordSuccess E) probe in
  fst (Resilience.isAllowed this now) = true /\
  Resilience.CircuitBreaker.state probe = Resilience.HALF_OPEN /\
  if (1 <=? Z.of_nat n)
     && (Resilience.Config.successThreshold (Resilience.CircuitBreaker.config this)
         <=? Z.of_nat n)
  then Resilience.CircuitBreaker.state this' = Resilience.CLOSED /\
       Resilience.CircuitBreaker.failures this' = 0
  else Resilience.CircuitBreaker.state this' = Resilience.HALF_OPEN /\
       Resilience.CircuitBreaker.failures this'
       = Resilience.CircuitBreaker.failures this.
Proof.
  intros Hst Hel probe this'.
  assert (Hal : Resilience.isAllowed this now
                = (true, Resilience.transitionTo this Resilience.HALF_OPEN)).
  { unfold Resilience.isAllowed. rewrite Hst.
    replace (_ <=? _) with true by (symmetry; apply Z.leb_le; exact Hel).
    reflexivity. }
  subst this' probe. rewrite Hal. cbn [fst snd].
  split; [reflexivity|].
  set (probe := Resilience.transitionTo this Resilience.HALF_OPEN).
  assert (Hp : Resilience.CircuitBreaker.state probe = Resilience.HALF_OPEN)
    by apply BreakerFacts.transitionTo_state.
  assert (Hc : Resilience.CircuitBreaker.config probe
               = Resilience.CircuitBreaker.config this)
    by apply BreakerFacts.transitionTo_config.
  assert (Hs : Resilience.CircuitBreaker.successes probe = 0).
  { subst probe. unfold Resilience.transitionTo. rewrite Hst. reflexivity. }
  assert (Hf : Resilience.CircuitBreaker.failures probe
               = Resilience.CircuitBreaker.failures this).
  { subst probe. unfold Resilience.transitionTo. rewrite Hst. reflexivity. }
  split; [exact Hp|].
  destruct (@RecoveryFacts.successes_half_open E probe n Hp) as [_ H].
  rewrite Hc, Hs, Z.add_0_l in H.
  destruct (_ && _); [exact H|].
  destruct H as (H1 & H2 & _). split; [exact H1 | congruence].
Qed.

(** X26: A failure during the probe reopens the circuit and restarts the
    timeout: a counted failure recorded at time [now] in the half-open
    state leaves the breaker open, and it refuses every call made before
    [now + resetTimeoutMs]. *)
Theorem half_open_failure_reopens (E : Type)
        (this : Resilience.CircuitBreaker.t E) (error : E) (now later : Z) :
  Resilience.CircuitBreaker.state this = Resilience.HALF_OPEN ->
  Resilience.Config.isFailure (Resilience.CircuitBreaker.config this) error = true ->
  later - now < Resilience.Config.resetTimeoutMs (Resilience.CircuitBreaker.config this) ->
  let this' := Resilience.recordFailure this error now in
  Resilience.CircuitBreaker.state this' = Resilience.OPEN /\
  Resilience.CircuitBreaker.failures this'
  = Resilience.CircuitBreaker.failures this + 1 /\
  Resilience.isAllowed this' later = (false, this').
Proof.
  intros Hst Hx Hlt this'.
  assert (Hstep : this' = Resilience.transitionTo
                            (Resilience.withFailures this
                               (Resilience.CircuitBreaker.failures this + 1) now)
                            Resilience.OPEN).
  { subst this'. unfold Resilience.recordFailure. rewrite Hx. cbn -[Z.add].
    rewrite Hst. reflexivity. }
  assert (Hs : Resilience.CircuitBreaker.state this' = Resilience.OPEN)
    by (rewrite Hstep; apply BreakerFacts.transitionTo_state).
  split; [exact Hs|]. split.
  - rewrite Hstep. unfold Resilience.transitionTo. cbn -[Z.add]. rewrite Hst.
    reflexivity.
  - apply ProtectedCalls.isAllowed_blocked. split; [exact Hs|].
    rewrite Hstep. unfold Resilience.transitionTo. cbn -[Z.add Z.sub]. rewrite Hst.
    cbn -[Z.add Z.sub]. exact Hlt.
Qed.

(** X27: The RPC breaker is the default breaker: the constants of
    [RPC_CIRCUIT_BREAKER_CONFIG] are the defaults of the constructor, so
    [createRpcCircuitBreaker(config)] builds the same breaker as
    [new CircuitBreaker(config)]. *)
Theorem createRpcCircuitBreaker_is_default (E : Type)
        (config : Resilience.CircuitBreakerConfig.t E) :
  Resilience.createRpcCircuitBreaker config = Resilience.newCircuitBreaker config.
Proof.
  destruct config as [[ft|] [rt|] [st|] [f|]]; reflexivity.
Qed.


(* ------------------------------------------------------------------ *)
(** ** Worked calls for the resilience properties *)

(** An RPC endpoint that times out twice and then answers; errors are
    their messages, already in lower case. *)
Module RpcExample.
Import Resilience.

Definition messageOf (error : string) : option string := Some error.
Definition toLowerCase (s : string) : string := s.

(** [calculateDelay] when [Math.random()] returns 0.5: no jitter. *)
Definition calculateDelay (attempt baseDelayMs maxDelayMs : Z) (jitterFactor : Q) : Z :=
  Z.max 0 (Z.min (baseDelayMs * 2 ^ attempt) maxDelayMs).

Definition fn (call : Z) : Settled Z string :=
  if call <? 2 then Rejected "request timeout" else Fulfilled 42.

Definition failing (call : Z) : Settled Z string := Rejected "request timeout".

Definition config (maxRetries : Z) : RetryConfig.t string :=
  {| RetryConfig.maxRetries := Some maxRetries;
     RetryConfig.baseDelayMs := None;
     RetryConfig.maxDelayMs := None;
     RetryConfig.jitterFactor := None;
     RetryConfig.isRetryable := None |}.

Definition defaults {E} : CircuitBreakerConfig.t E :=
  {| CircuitBreakerConfig.failureThreshold := None;
     CircuitBreakerConfig.resetTimeoutMs := None;
     CircuitBreakerConfig.successThreshold := None;
     CircuitBreakerConfig.isFailure := None |}.

Definition fourFailures : list (string * Z) :=
  [("e1", 1000); ("e2", 2000); ("e3", 3000); ("e4", 4000)].

(** A closed breaker that has counted four failures. *)
Definition strained : CircuitBreaker.t string :=
  ProtectedCalls.recordFailures (newCircuitBreaker defaults) fourFailures.

(** The fifth failure opens it. *)
Definition tripped : CircuitBreaker.t string := recordFailure strained "e5" 5000.

Definition probing : CircuitBreaker.t string := snd (isAllowed tripped 35000).

End RpcExample.

Example rpc_example_run :
  Resilience.withRetry RpcExample.messageOf RpcExample.toLowerCase
                       RpcExample.calculateDelay RpcExample.fn (RpcExample.config 3)
  = ({| Resilience.RetryResult.success := true;
        Resilience.RetryResult.value := Some 42;
        Resilience.RetryResult.error := None;
        Resilience.RetryResult.attempts := 3;
        Resilience.RetryResult.totalDelayMs := 3000 |},
     [ {| Resilience.Retry.attempt := 1;
          Resilience.Retry.error := "request timeout";
          Resilience.Retry.delayMs := 1000 |};
       {| Resilience.Retry.attempt := 2;
          Resilience.Retry.error := "request timeout";
          Resilience.Retry.delayMs := 2000 |} ]).
Proof. vm_compute. reflexivity. Qed.

Example rpc_example_breaker :
  Resilience.CircuitBreaker.state RpcExample.strained = Resilience.CLOSED /\
  Resilience.CircuitBreaker.state RpcExample.tripped = Resilience.OPEN /\
  Resilience.CircuitBreaker.state RpcExample.probing = Resilience.HALF_OPEN /\
  Resilience.CircuitBreaker.stateChanges RpcExample.probing
  = [(Resilience.CLOSED, Resilience.OPEN); (Resilience.OPEN, Resilience.HALF_OPEN)].
Proof. vm_compute. repeat split. Qed.

Lemma withRetry_characterised_witness :
  exists k,
    RetryFacts.stoppedAt RpcExample.fn 3
      (fun attempt => RpcExample.calculateDelay attempt 1000 30000 (1 # 10))
      (Resilience.isDefaultRetryable RpcExample.messageOf RpcExample.toLowerCase)
      k
      (fst (Resilience.withRetry RpcExample.messageOf RpcExample.toLowerCase
              RpcExample.calculateDelay RpcExample.fn (RpcExample.config 3)))
      (snd (Resilience.withRetry RpcExample.messageOf RpcExample.toLowerCase
              RpcExample.calculateDelay RpcExample.fn (RpcExample.config 3))).
Proof.
  apply (@withRetry_characterised Z string RpcExample.messageOf RpcExample.toLowerCase
           RpcExample.calculateDelay RpcExample.fn (RpcExample.config 3)).
  simpl. lia.
Defined.

Lemma withRetry_negative_maxRetries_witness :
  Resilience.retryable RpcExample.messageOf RpcExample.toLowerCase
                       RpcExample.calculateDelay RpcExample.fn (RpcExample.config (-1))
  = (Resilience.Rejected None, []).
Proof.
  apply (@withRetry_negative_maxRetries Z string RpcExample.messageOf
           RpcExample.toLowerCase RpcExample.calculateDelay RpcExample.fn
           (RpcExample.config (-1)) (-1)).
  - reflexivity.
  - lia.
Defined.

Lemma breaker_counters_consistent_witness :
  let calls :=
    [ BreakerFacts.RecordFailure "e1" 1000; BreakerFacts.RecordFailure "e2" 2000;
      BreakerFacts.RecordFailure "e3" 3000; BreakerFacts.RecordFailure "e4" 4000;
      BreakerFacts.RecordFailure "e5" 5000; BreakerFacts.IsAllowed 35000;
      BreakerFacts.RecordSuccess ] in
  BreakerFacts.counters
    (fold_left BreakerFacts.perform calls
               (Resilience.newCircuitBreaker RpcExample.defaults)).
Proof.
  intros calls.
  apply (@breaker_counters_consistent string RpcExample.defaults calls).
  - simpl. lia.
  - simpl. lia.
Defined.

Lemma success_restarts_the_count_witness :
  let errors := RpcExample.fourFailures in
  let this' :=
    ProtectedCalls.recordFailures (Resilience.recordSuccess RpcExample.strained) errors in
  Resilience.CircuitBreaker.failures this' = 4 /\
  Resilience.CircuitBreaker.state this' = Resilience.CLOSED.
Proof.
  apply (@success_restarts_the_count string RpcExample.strained RpcExample.fourFailures).
  - reflexivity.
  - repeat constructor.
Defined.

Lemma reset_keeps_count_of_closed_breaker_witness :
  let this' :=
    ProtectedCalls.recordFailures (Resilience.reset RpcExample.strained)
                                  [("e5", 5000)] in
  Resilience.CircuitBreaker.state (Resilience.reset RpcExample.strained)
  = Resilience.CLOSED /\
  Resilience.CircuitBreaker.failures this' = 5 /\
  Resilience.CircuitBreaker.state this' = Resilience.OPEN.
Proof.
  apply (@reset_keeps_count_of_closed_breaker string RpcExample.strained [("e5", 5000)]).
  repeat constructor.
Defined.

Lemma half_open_closes_after_successes_witness :
  let probe := snd (Resilience.isAllowed RpcExample.tripped 35000) in
  let this' := Nat.iter 2 (@Resilience.recordSuccess string) probe in
  fst (Resilience.isAllowed RpcExample.tripped 35000) = true /\
  Resilience.CircuitBreaker.state probe = Resilience.HALF_OPEN /\
  Resilience.CircuitBreaker.state this' = Resilience.CLOSED /\
  Resilience.CircuitBreaker.failures this' = 0.
Proof.
  apply (@half_open_closes_after_successes string RpcExample.tripped 35000 2%nat).
  - reflexivity.
  - simpl. lia.
Defined.

Lemma half_open_failure_reopens_witness :
  let this' := Resilience.recordFailure RpcExample.probing "e6" 36000 in
  Resilience.CircuitBreaker.state this' = Resilience.OPEN /\
  Resilience.CircuitBreaker.failures this' = 5 + 1 /\
  Resilience.isAllowed this' 65999 = (false, this').
Proof.
  apply (@half_open_failure_reopens string RpcExample.probing "e6" 36000 65999).
  - reflexivity.
  - reflexivity.
  - simpl. lia.
Defined.


Example resilient_example_four_attempts :
  let breaker := Resilience.newCircuitBreaker (E := option string) RpcExample.defaults in
  let run :=
    Resilience.resilient RpcExample.messageOf RpcExample.toLowerCase
      RpcExample.calculateDelay RpcExample.failing None (Some breaker) 1000 1000 9000 in
  List.length (snd run) = 3%nat /\
  option_map (@Resilience.CircuitBreaker.failures (option string)) (snd (fst run))
  = Some 1.
Proof. vm_compute. split; reflexivity. Qed.

(* ------------------------------------------------------------------ *)
(** ** Ingest and verification of the same file *)

Lemma resolve_not_empty (cwd : string) (args : list string) :
  isEmpty (NodePath.resolve cwd args) = false.
Proof.
  unfold NodePath.resolve.
  destruct (NodePath.resolveScan _ _) as [resolvedPath resolvedAbsolute].
  destruct resolvedAbsolute; [reflexivity|].
  cbn [negb]. destruct (NodePath.normalizeString resolvedPath true) eqn:E;
    reflexivity.
Qed.

(** X29: [ingestReceipt] reads the receipt file and then has [verifyEvidence]
    read the manifest of the run directory.  When both are the same file
    (and it is within the size limit), the manifest-level checks cannot
    fail: the ingest succeeds, and for a manifest that validates it reports
    the receipt id of the normalized receipt and [ok] exactly when every
    delivered artifact is intact; for any other content [ok] is false. *)
Theorem ingest_ok_iff_artifacts_intact {collation : Collation}
        (rt : Runtime) (fs : FileSystem) (store : Store) (db : Db store)
        (agentId receiptPath : string) (runDir : option string)
        (clock1 clock2 : Z) (rawBytes : string) (size : Z) :
  let absReceiptPath := NodePath.resolve (cwd rt) [receiptPath] in
  let effectiveRunDir := orElse runDir (inferRunDir absReceiptPath) in
  readFileSync fs absReceiptPath = Returned rawBytes ->
  safeJoin (cwd rt) effectiveRunDir "evidence/manifest.json" = Some absReceiptPath ->
  existsSync fs absReceiptPath = true ->
  statSync fs absReceiptPath = Returned size ->
  size <= DEFAULT_MAX_MANIFEST_BYTES ->
  exists db' result,
    ingestReceipt rt fs store db agentId receiptPath runDir clock1 clock2
    = Returned (db', result) /\
    match safeParseManifest rt rawBytes with
    | inr _ => IngestResult.ok result = false
    | inl manifest =>
        let receipt := normalizeReceipt rt manifest (sha256Hex rt rawBytes) in
        IngestResult.receiptId result = NormalizedReceipt.receiptId receipt /\
        (IngestResult.ok result = true <->
         Forall (artifactIntact rt fs effectiveRunDir DEFAULT_MAX_ARTIFACT_BYTES)
                (NormalizedReceipt.delivered receipt))
    end.
Proof.
  intros absReceiptPath effectiveRunDir Hread Hjoin Hex Hstat Hsize.
  unfold ingestReceipt. fold absReceiptPath. rewrite Hread.
  destruct (ingestSignals rt fs absReceiptPath rawBytes runDir (clock1 / 1000))
    as [[receiptId ok] signals] eqn:Hs.
  destruct (scoreAgent store _ _ _) as [report newAlerts].
  eexists. eexists. split; [reflexivity|].
  cbn [IngestResult.ok IngestResult.receiptId].
  unfold ingestSignals in Hs. fold effectiveRunDir in Hs.
  destruct (safeParseManifest rt rawBytes) as [manifest | parseError] eqn:Hp.
  - injection Hs as <- <- _. split; [reflexivity|].
    set (receipt := normalizeReceipt rt manifest (sha256Hex rt rawBytes)).
    assert (Hm : manifestVerified rt fs receipt effectiveRunDir
                   (maxManifestBytesOf None) manifest).
    { unfold safeParseManifest in Hp.
      destruct (JSON_parse rt rawBytes) as [obj|] eqn:Hjson; [|discriminate Hp].
      destruct (safeParse (datetimeRegex rt) obj) as [data | issues] eqn:Hschema;
        [|discriminate Hp].
      injection Hp as ->.
      split; [reflexivity|].
      exists absReceiptPath, size, rawBytes, obj.
      split.
      { change (NormalizedReceipt.manifestPath receipt) with "evidence/manifest.json".
        rewrite Hjoin. unfold truthyString.
        pose proof (resolve_not_empty (cwd rt) [receiptPath]) as Hne.
        fold absReceiptPath in Hne. destruct absReceiptPath; [discriminate Hne|].
        reflexivity. }
      repeat split; try assumption; try reflexivity.
      rewrite Z.gtb_ltb. apply Z.ltb_ge. exact Hsize. }
    rewrite (@verifyEvidence_artifact_stage _ rt fs receipt effectiveRunDir None
               manifest Hm).
    rewrite buildResult_ok. cbn [buildResult VerificationResult.failures].
    rewrite JsArrayFacts.sort_nil_iff.
    assert (Hcheck : deliveredCheck manifest receipt = []).
    { unfold deliveredCheck, pathsJoined. subst receipt.
      rewrite delivered_is_sorted_artifacts.
      rewrite (sort_idempotent compareByPath compareByPath_total).
      now rewrite String.eqb_refl. }
    rewrite Hcheck. cbn [app].
    change (maxArtifactBytesOf None) with DEFAULT_MAX_ARTIFACT_BYTES.
    split.
    + intros Hall. apply Forall_forall. intros a Hin.
      apply no_findings_intact.
      destruct (fst (artifactFindings rt fs effectiveRunDir
                       DEFAULT_MAX_ARTIFACT_BYTES a)) as [|x l] eqn:E;
        [reflexivity|].
      assert (Hx : In x (flat_map
                          (fun a => fst (artifactFindings rt fs effectiveRunDir
                                           DEFAULT_MAX_ARTIFACT_BYTES a))
                          (NormalizedReceipt.delivered receipt))).
      { apply in_flat_map. exists a. split; [exact Hin|]. rewrite E. now left. }
      rewrite Hall in Hx. contradiction.
    + intros Hall. apply flat_map_all_nil. intros a Hin.
      rewrite Forall_forall in Hall.
      now rewrite (intact_findings (Hall a Hin)).
  - injection Hs as _ <- _. reflexivity.
Qed.

Lemma ingest_ok_iff_artifacts_intact_witness :
  exists db' result,
    ingestReceipt (collation := ByteOrder.collation) GoodRun.rt GoodRun.fs
                  Example.store [] "solver-alpha"
                  "/runs/run-004/evidence/manifest.json" None
                  1700000000000 1700000000500
    = Returned (db', result) /\
    IngestResult.receiptId result = NormalizedReceipt.receiptId GoodRun.receipt /\
    IngestResult.ok result = true.
Proof.
  destruct (@ingest_ok_iff_artifacts_intact ByteOrder.collation GoodRun.rt GoodRun.fs
              Example.store [] "solver-alpha"
              "/runs/run-004/evidence/manifest.json" None
              1700000000000 1700000000500 GoodRun.manifestText 26
              eq_refl eq_refl eq_refl eq_refl)
    as (db' & result & Hrun & Hid & Hok).
  - vm_compute. discriminate.
  - exists db', result. split; [exact Hrun|]. split; [exact Hid|].
    apply Hok. exact run004_artifacts_intact.
Defined.

(** X30: The receipt convention closes the loop: for a run directory in normal
    form (absolute, other than the root), the receipt at
    [<runDir>/evidence/manifest.json] resolves to itself, and the manifest
    that [verifyEvidence] looks for in the inferred run directory is that
    very file. *)
Theorem conventional_receipt_is_the_manifest (cwd : string) (segments : list string) :
  Forall JoinFacts.ordinary segments -> segments <> [] ->
  let runDir := "/" +++ join "/" segments in
  let receiptPath := runDir +++ "/evidence/manifest.json" in
  let absReceiptPath := NodePath.resolve cwd [receiptPath] in
  absReceiptPath = receiptPath /\
  inferRunDir absReceiptPath = runDir /\
  safeJoin cwd (inferRunDir absReceiptPath) "evidence/manifest.json"
  = Some absReceiptPath.
Proof.
  intros Hsegs Hne runDir receiptPath absReceiptPath.
  set (tail := ["evidence"; "manifest.json"]).
  assert (Htail : Forall JoinFacts.ordinary tail) by (repeat constructor).
  assert (Hpath : receiptPath = "/" +++ join "/" (segments ++ tail)).
  { subst receiptPath runDir.
    rewrite JoinFacts.join_app by (assumption || discriminate).
    rewrite DirnameFacts.append_assoc. reflexivity. }
  assert (Habs : absReceiptPath = receiptPath).
  { subst absReceiptPath. rewrite Hpath. apply JoinFacts.resolve_normal.
    - apply Forall_app. now split.
    - destruct segments; discriminate. }
  assert (Hroot : runDir <> "/").
  { subst runDir. destruct segments as [|x rest]; [contradiction|].
    inversion Hsegs as [|y l (_ & Hx & _) _]; subst.
    destruct x as [|c x]; [discriminate Hx|].
    destruct rest; discriminate. }
  assert (Hinfer : inferRunDir receiptPath = runDir).
  { unfold inferRunDir.
    assert (Hdir : NodePath.dirname receiptPath = runDir +++ "/evidence").
    { subst receiptPath.
      change "/evidence/manifest.json" with ("/evidence" +++ "/" +++ "manifest.json").
      rewrite <- DirnameFacts.append_assoc.
      apply DirnameFacts.dirname_join; try reflexivity; try discriminate;
        unfold runDir; cbn [String.append];
        destruct (join "/" segments); discriminate. }
    rewrite Hdir, DirnameFacts.endsWith_append. cbn [orb].
    change "/evidence" with ("/" +++ "evidence").
    apply DirnameFacts.dirname_join; try discriminate; try reflexivity.
    exact Hroot. }
  split; [exact Habs|]. rewrite Habs. split; [exact Hinfer|]. rewrite Hinfer.
  unfold safeJoin.
  replace (NodePath.resolve cwd [runDir]) with runDir
    by (symmetry; now apply JoinFacts.resolve_normal).
  assert (Hjoined : NodePath.resolve cwd [runDir; "evidence/manifest.json"]
                    = receiptPath).
  { unfold runDir. rewrite JoinFacts.resolve_join by (assumption || reflexivity).
    rewrite Hpath. reflexivity. }
  rewrite Hjoined.
  assert (Hpre : startsWith (runDir +++ "/") receiptPath = true).
  { apply startsWith_spec. exists "evidence/manifest.json". subst receiptPath.
    rewrite DirnameFacts.append_assoc. reflexivity. }
  rewrite Hpre. reflexivity.
Qed.

Lemma conventional_receipt_is_the_manifest_witness :
  NodePath.resolve "/home/wt" ["/runs/run-004/evidence/manifest.json"]
  = "/runs/run-004/evidence/manifest.json" /\
  inferRunDir "/runs/run-004/evidence/manifest.json" = "/runs/run-004" /\
  safeJoin "/home/wt" "/runs/run-004" "evidence/manifest.json"
  = Some "/runs/run-004/evidence/manifest.json".
Proof.
  destruct (@conventional_receipt_is_the_manifest "/home/wt" ["runs"; "run-004"])
    as (H1 & H2 & H3).
  - repeat constructor.
  - discriminate.
  - split; [exact H1|]. split; [exact H2 | exact H3].
Defined.

(* ------------------------------------------------------------------ *)
(** ** The order of the collation is not the order of the code units *)

(** A collation in the manner of the engine's default for Latin letters:
    strings are compared without regard to case first, and of two strings
    that differ in case only, the one with the lower-case letter comes
    first. *)
Module CaseOrder.

Definition lowerChar (c : ascii) : ascii :=
  let n := nat_of_ascii c in
  if ((65 <=? n) && (n <=? 90))%nat then ascii_of_nat (n + 32) else c.

Fixpoint lower (s : string) : string :=
  match s with
  | EmptyString => EmptyString
  | String c rest => String (lowerChar c) (lower rest)
  end.

Definition compare (a b : string) : comparison :=
  match String.compare (lower a) (lower b) with
  | Eq => String.compare b a
  | c => c
  end.

Lemma caseCompare_refl (a : string) : compare a a = Eq.
Proof. unfold compare. now rewrite !ByteOrder.compare_refl. Qed.

Lemma caseCompare_antisym (a b : string) : compare b a = CompOpp (compare a b).
Proof.
  unfold compare. rewrite (ByteOrder.compare_antisym (lower a) (lower b)).
  destruct (String.compare (lower a) (lower b)); simpl; try reflexivity.
  apply ByteOrder.compare_antisym.
Qed.

Lemma caseCompare_trans (a b c : string) :
  compare a b <> Gt -> compare b c <> Gt -> compare a c <> Gt.
Proof.
  unfold compare. intros Hab Hbc.
  destruct (String.compare (lower a) (lower b)) eqn:Eab; [| |congruence].
  - apply String_as_OT.cmp_eq in Eab. rewrite Eab.
    destruct (String.compare (lower b) (lower c)) eqn:Ebc; [| |congruence].
    + apply (ByteOrder.compare_trans c b a); assumption.
    + discriminate.
  - destruct (String.compare (lower b) (lower c)) eqn:Ebc; [| |congruence].
    + apply String_as_OT.cmp_eq in Ebc. rewrite <- Ebc, Eab. discriminate.
    + apply String_as_OT.cmp_lt in Eab, Ebc.
      pose proof (String_as_OT.lt_trans _ _ _ Eab Ebc) as Hac.
      apply String_as_OT.cmp_lt in Hac. unfold String_as_OT.cmp in Hac.
      rewrite Hac. discriminate.
Qed.

Definition collation : Collation :=
  {| localeCompare := compare;
     localeCompare_refl := caseCompare_refl;
     localeCompare_antisym := caseCompare_antisym;
     localeCompare_trans := caseCompare_trans |}.

End CaseOrder.

(** The lexicographic order on [(code, path ?? EmptyString)] in which
    strings are compared by their code units. *)
Definition codeUnitLe (a b : VerificationFailure.t) : Prop :=
  let codeA := codeString (VerificationFailure.code a) in
  let codeB := codeString (VerificationFailure.code b) in
  let pathA := orElse (VerificationFailure.path a) EmptyString in
  let pathB := orElse (VerificationFailure.path b) EmptyString in
  String.compare codeA codeB = Lt \/
  (String.compare codeA codeB = Eq /\ String.compare pathA pathB <> Gt).

(** run-005: the manifest lists [a.txt] and [B.txt]; neither is on disk. *)
Module CaseRun.

Definition manifestText : string := "manifest.json of run-005...".

Definition manifestDoc : json :=
  exampleManifest "0.1.0" "irsb-solver" "SUCCESS"
    [exampleArtifact "a.txt" (hex64 "a") 1; exampleArtifact "B.txt" (hex64 "b") 1].

Definition fs : FileSystem :=
  GoodRun.fsOf [("/runs/run-005/evidence/manifest.json", manifestText)].

Definition rt : Runtime :=
  {| cwd := "/home/wt";
     sha256Hex := Example.digest;
     JSON_parse := fun text =>
       if String.eqb text manifestText then Some manifestDoc else None;
     datetimeRegex := String.eqb "2025-01-15T12:00:00Z" |}.

Definition receipt : NormalizedReceipt.t :=
  {| NormalizedReceipt.receiptId := hex64 "c";
     NormalizedReceipt.receiptVersion := "0.1.0";
     NormalizedReceipt.intentId := "intent-001";
     NormalizedReceipt.runId := "run-001";
     NormalizedReceipt.jobType := "diagnostic";
     NormalizedReceipt.status := "SUCCESS";
     NormalizedReceipt.manifestPath := "evidence/manifest.json";
     NormalizedReceipt.manifestSha256 := Example.digest manifestText;
     NormalizedReceipt.delivered :=
       [ Example.artifact "a.txt" (hex64 "a") 1;
         Example.artifact "B.txt" (hex64 "b") 1 ] |}.

End CaseRun.

Example run005_failures :
  List.map (fun f => (VerificationFailure.code f, VerificationFailure.path f))
    (VerificationResult.failures
       (verifyEvidence (collation := CaseOrder.collation) CaseRun.rt CaseRun.fs
                       CaseRun.receipt "/runs/run-005" None))
  = [ (ARTIFACT_NOT_FOUND, Some "a.txt"); (ARTIFACT_NOT_FOUND, Some "B.txt") ].
Proof. vm_compute. reflexivity. Qed.

(** C7, as stated, fails: the comparator of [buildResult] uses
    [localeCompare], and a collation that disregards case puts the failure
    for [a.txt] before the one for [B.txt], while in the lexicographic
    order of the code units [B.txt] comes first. *)
Lemma failures_not_in_code_unit_order :
  ~ (forall (collation : Collation) (rt : Runtime) (fs : FileSystem)
            (receipt : NormalizedReceipt.t) (runDir : string)
            (options : option VerifyOptions.t),
        Sorted codeUnitLe
               (VerificationResult.failures
                  (verifyEvidence rt fs receipt runDir options))).
Proof.
  intros H.
  specialize (H CaseOrder.collation CaseRun.rt CaseRun.fs CaseRun.receipt
                "/runs/run-005" None).
  remember (VerificationResult.failures
              (verifyEvidence (collation := CaseOrder.collation) CaseRun.rt
                              CaseRun.fs CaseRun.receipt "/runs/run-005" None))
    as failures eqn:Hf.
  vm_compute in Hf. subst failures.
  inversion H as [|f l _ Hhd]; subst.
  inversion Hhd as [|g l' Hle]; subst.
  destruct Hle as [Hlt | [_ Hpath]].
  - vm_compute in Hlt. discriminate Hlt.
  - apply Hpath. vm_compute. reflexivity.
Qed.
